(** * ODE data engine: a shallow embedding of the profiling, KPI, chart,
    insight and question-answering pipeline ([app/lib/*.ts]).

    Modelling conventions.
    - JavaScript numbers are modelled as exact rationals [Q]; rounding of
      IEEE doubles is not modelled.  [NaN] and infinities cannot arise from
      the finite inputs considered here.
    - A row is the list of its own [Object.entries], in key order; a key that
      is absent reads as [undefined].
    - JS strings are Rocq [string]s (bytes); [trim] and [toLowerCase] act on
      the ASCII range.
    - Primitives of the JavaScript runtime that the claims do not depend on
      (the string branch of the number parser, [Date.parse], [toISOString],
      locale formatting, [localeCompare], [Math.log10], [Math.sqrt]) are the
      fields of a record [Runtime]; every definition is parametric in it and
      every theorem holds for all of its instances.
    - [Array.prototype.sort] is stable; it is modelled by a stable insertion
      sort driven by the sign of the source's comparator. *)

From Stdlib Require Import Bool Arith List Lia ZArith QArith Qround.
From Stdlib Require Import String Ascii Permutation Sorted Lqa.
From Stdlib Require Import List.
Import ListNotations.
Open Scope list_scope.

(* ------------------------------------------------------------------ *)
(** ** Generic list helpers *)

(** Stable insertion: [x] goes before the first element it must precede
    ([before x e], i.e. the comparator [cmp(x, e)] is negative). *)
Fixpoint ins_by {A} (before : A -> A -> bool) (x : A) (l : list A) : list A :=
  match l with
  | [] => [x]
  | e :: r => if before x e then x :: e :: r else e :: ins_by before x r
  end.

(** [Array.prototype.sort] (stable) for a comparator whose negative sign is
    [before]. *)
Definition sort_by {A} (before : A -> A -> bool) (l : list A) : list A :=
  fold_left (fun acc x => ins_by before x acc) l [].

(** [x === y], [x < y] and [x <= y] on numbers *)
Definition qeqb (a b : Q) : bool := Qeq_bool a b.
Definition qleb (a b : Q) : bool := Qle_bool a b.
Definition qltb (a b : Q) : bool := negb (Qle_bool b a).

(** [(a, b) => a - b] on numbers. *)
Definition sort_num (l : list Q) : list Q := sort_by (fun x e => qltb x e) l.

(** [arr.slice(0, k)] *)
Definition slice0 {A} (k : nat) (l : list A) : list A := firstn k l.

(** [xs.reduce((a, b) => a + b, 0)] *)
Definition sumQ (l : list Q) : Q := fold_left Qplus l 0.

Definition sum_nat (l : list nat) : nat := fold_left Nat.add l 0%nat.

(** [Math.max], [Math.min], [Math.abs], [Math.floor], [Math.round]. *)
Definition qmax (a b : Q) : Q := if qltb a b then b else a.
Definition qmin (a b : Q) : Q := if qltb b a then b else a.
Definition qabs (a : Q) : Q := if qltb a 0 then - a else a.
Definition qfloor (a : Q) : Q := inject_Z (Qfloor a).
Definition qround (a : Q) : Q := inject_Z (Qfloor (a + (1 # 2))).

Definition qnat (n : nat) : Q := inject_Z (Z.of_nat n).

(** Membership of strings (for [Set<string>] and [Array.includes]). *)
Definition mem_str (s : string) (l : list string) : bool :=
  existsb (String.eqb s) l.

(** [Array.from(new Set(l))]: first occurrences, in order. *)
Fixpoint dedup_str_acc (seen : list string) (l : list string) : list string :=
  match l with
  | [] => []
  | x :: r => if mem_str x seen then dedup_str_acc seen r
              else x :: dedup_str_acc (x :: seen) r
  end.
Definition dedup_str (l : list string) : list string := dedup_str_acc [] l.

Fixpoint dedup_q_acc (seen : list Q) (l : list Q) : list Q :=
  match l with
  | [] => []
  | x :: r => if existsb (qeqb x) seen then dedup_q_acc seen r
              else x :: dedup_q_acc (x :: seen) r
  end.
(** [new Set<number>(l)] (SameValueZero on finite numbers is [==]). *)
Definition dedup_q (l : list Q) : list Q := dedup_q_acc [] l.

(** Association-list lookup (first match), for JS objects and maps. *)
Fixpoint lookup {A} (k : string) (l : list (string * A)) : option A :=
  match l with
  | [] => None
  | (k', v) :: r => if String.eqb k k' then Some v else lookup k r
  end.

(** [Map<string, number>] counting in insertion order. *)
Fixpoint bump (k : string) (m : list (string * nat)) : list (string * nat) :=
  match m with
  | [] => [(k, 1%nat)]
  | (k', c) :: r => if String.eqb k k' then (k', S c) :: r else (k', c) :: bump k r
  end.

(* ------------------------------------------------------------------ *)
(** ** String helpers (ASCII) *)

Definition is_ws (c : ascii) : bool :=
  let n := nat_of_ascii c in
  (Nat.eqb n 32 || Nat.eqb n 9 || Nat.eqb n 10 || Nat.eqb n 11
   || Nat.eqb n 12 || Nat.eqb n 13)%bool.

Fixpoint ltrim (s : string) : string :=
  match s with
  | EmptyString => EmptyString
  | String c r => if is_ws c then ltrim r else s
  end.

Fixpoint rev_str (s : string) (acc : string) : string :=
  match s with
  | EmptyString => acc
  | String c r => rev_str r (String c acc)
  end.

(** [String.prototype.trim] *)
Definition trim (s : string) : string :=
  rev_str (ltrim (rev_str (ltrim s) EmptyString)) EmptyString.

Definition lower_char (c : ascii) : ascii :=
  let n := nat_of_ascii c in
  if (Nat.leb 65 n && Nat.leb n 90)%bool then ascii_of_nat (n + 32) else c.

(** [String.prototype.toLowerCase] *)
Fixpoint lower (s : string) : string :=
  match s with
  | EmptyString => EmptyString
  | String c r => String (lower_char c) (lower r)
  end.

(** [s.includes(p)], i.e. the regex [/p/] with no metacharacters. *)
Fixpoint contains (p s : string) : bool :=
  (String.prefix p s ||
   match s with
   | EmptyString => false
   | String _ r => contains p r
   end)%bool.

(** [/p$/] *)
Fixpoint ends_with (p s : string) : bool :=
  (String.eqb p s ||
   match s with
   | EmptyString => false
   | String _ r => ends_with p r
   end)%bool.

Definition str_is_empty (s : string) : bool :=
  match s with EmptyString => true | _ => false end.

Definition is_digit (c : ascii) : bool :=
  let n := nat_of_ascii c in (Nat.leb 48 n && Nat.leb n 57)%bool.
Definition is_lower_alnum (c : ascii) : bool :=
  let n := nat_of_ascii c in (is_digit c || (Nat.leb 97 n && Nat.leb n 122))%bool.
Definition is_alpha (c : ascii) : bool :=
  let n := nat_of_ascii c in
  ((Nat.leb 65 n && Nat.leb n 90) || (Nat.leb 97 n && Nat.leb n 122))%bool.

Fixpoint str_forall (f : ascii -> bool) (s : string) : bool :=
  match s with
  | EmptyString => true
  | String c r => (f c && str_forall f r)%bool
  end.

Fixpoint str_filter (f : ascii -> bool) (s : string) : string :=
  match s with
  | EmptyString => EmptyString
  | String c r => if f c then String c (str_filter f r) else str_filter f r
  end.

(* ------------------------------------------------------------------ *)
(** ** JavaScript values and runtime primitives *)

(** Scalar cell values delivered by ingestion. *)
Inductive value :=
| VUndefined
| VNull
| VNum (q : Q)
| VStr (s : string)
| VBool (b : bool).

(** A row: its own enumerable entries, in key order. *)
Definition row := list (string * value).

(** [row?.[col]] *)
Definition get (r : row) (c : string) : value :=
  match lookup c r with Some v => v | None => VUndefined end.

(** Runtime primitives the model is parametric in. *)
Record Runtime := {
  rt_str_to_num : string -> option Q;   (* safeToNumberLoose, string branch *)
  rt_looks_numeric : string -> bool;    (* typeInference looksNumeric *)
  rt_date_parse : string -> option Z;   (* Date.parse, None for NaN *)
  rt_new_date : Z -> Z -> Z -> option Z;(* new Date(y, m, d).getTime() *)
  rt_num_string : Q -> string;          (* String(n) *)
  rt_iso_string : Z -> string;          (* Date.prototype.toISOString *)
  rt_day_key : Z -> string;             (* formatDayKey *)
  rt_month_key : Z -> string;           (* formatMonthKey *)
  rt_locale_compare : string -> string -> Z;
  rt_locale_string : Q -> string;       (* Number.prototype.toLocaleString *)
  rt_to_fixed2 : Q -> string;           (* Number.prototype.toFixed(2) *)
  rt_log10 : Q -> Q;
  rt_sqrt : Q -> Q
}.

(** Index loop [for (let i = start; i < stop; i += step)] (with [step >= 1]). *)
Fixpoint range_step (fuel start stop step : nat) : list nat :=
  match fuel with
  | O => []
  | S f => if Nat.ltb start stop then start :: range_step f (start + step) stop step else []
  end.

Definition count_if {A} (f : A -> bool) (l : list A) : nat := length (filter f l).

(** [k / n] as a JS number ([x / 0] never decides a threshold below). *)
Definition ratio (k n : nat) : Q := qnat k / qnat n.

Definition is_some {A} (o : option A) : bool := match o with Some _ => true | None => false end.

Fixpoint filter_map {A B} (f : A -> option B) (l : list A) : list B :=
  match l with
  | [] => []
  | x :: r => match f x with Some y => y :: filter_map f r | None => filter_map f r end
  end.

Fixpoint last_opt {A} (l : list A) : option A :=
  match l with [] => None | [x] => Some x | _ :: r => last_opt r end.

Definition span_digits_step (c : ascii) (p : string * string) : string * string :=
  (String c (fst p), snd p).

(** Longest prefix of decimal digits, and the rest. *)
Fixpoint span_digits (s : string) : string * string :=
  match s with
  | EmptyString => (EmptyString, EmptyString)
  | String c r => if is_digit c then span_digits_step c (span_digits r) else (EmptyString, s)
  end.

Fixpoint digits_value (s : string) (acc : Z) : Z :=
  match s with
  | EmptyString => acc
  | String c r => digits_value r (acc * 10 + Z.of_nat (nat_of_ascii c - 48))
  end.

Definition is_date_sep (c : ascii) : bool :=
  (Ascii.eqb c "/" || Ascii.eqb c "-")%bool.

Definition len_between (lo hi : nat) (s : string) : bool :=
  (Nat.leb lo (String.length s) && Nat.leb (String.length s) hi)%bool.

(** [s.match(/^(\d{1,2})[\/\-](\d{1,2})[\/\-](\d{2,4})$/)] *)
Definition match_dmy (s : string) : option (Z * Z * Z) :=
  let (d1, r1) := span_digits s in
  match r1 with
  | String c1 t1 =>
      if (is_date_sep c1 && len_between 1 2 d1)%bool then
        let (d2, r2) := span_digits t1 in
        match r2 with
        | String c2 t2 =>
            if (is_date_sep c2 && len_between 1 2 d2)%bool then
              let (d3, r3) := span_digits t2 in
              if (str_is_empty r3 && len_between 2 4 d3)%bool
              then Some (digits_value d1 0, digits_value d2 0, digits_value d3 0)
              else None
            else None
        | EmptyString => None
        end
      else None
  | EmptyString => None
  end.

Section Engine.
Variable rt : Runtime.

(* ------------------------------------------------------------------ *)
(** ** Parsing helpers (shared by eda.ts, charts.ts, kpis.ts) *)

(** [isMissing] *)
Definition isMissing (v : value) : bool :=
  match v with
  | VUndefined | VNull => true
  | VStr s => str_is_empty (trim s)
  | _ => false
  end.

(** [String(v)] *)
Definition js_string (v : value) : string :=
  match v with
  | VUndefined => "undefined"
  | VNull => "null"
  | VNum q => rt_num_string rt q
  | VStr s => s
  | VBool b => if b then "true" else "false"
  end.

(** [String(v ?? "")] *)
Definition js_string_or_empty (v : value) : string :=
  match v with
  | VUndefined | VNull => EmptyString
  | _ => js_string v
  end.

(** [safeToNumberLoose] *)
Definition safeToNumberLoose (v : value) : option Q :=
  if isMissing v then None
  else match v with
       | VNum q => Some q
       | _ => let s := trim (js_string v) in
              if str_is_empty s then None else rt_str_to_num rt s
       end.

(** [safeToDateLoose], returning [getTime()]. *)
Definition safeToDateLoose (v : value) : option Z :=
  if isMissing v then None
  else
    let s := trim (js_string v) in
    if str_is_empty s then None
    else match rt_date_parse rt s with
         | Some t => Some t
         | None =>
             match match_dmy s with
             | Some (dd, mm, yy) =>
                 rt_new_date rt (if Z.ltb yy 100 then yy + 2000 else yy)%Z (mm - 1)%Z dd
             | None => None
             end
         end.

(* ------------------------------------------------------------------ *)
(** ** typeInference.ts *)

Inductive InferredType := ITNumeric | ITDate | ITCategorical | ITText | ITId.

Definition InferredType_eqb (a b : InferredType) : bool :=
  match a, b with
  | ITNumeric, ITNumeric | ITDate, ITDate | ITCategorical, ITCategorical
  | ITText, ITText | ITId, ITId => true
  | _, _ => false
  end.

(** [safeString] *)
Definition safeString (v : value) : string := trim (js_string_or_empty v).

(** [looksDate] *)
Definition looksDate (raw : string) : bool :=
  let s := trim raw in
  if str_is_empty s then false else is_some (rt_date_parse rt s).

Definition is_token_char (c : ascii) : bool :=
  (is_alpha c || is_digit c || Ascii.eqb c "-" || Ascii.eqb c "_")%bool.

(** [/^[A-Za-z0-9\-_]+$/.test(x)] *)
Definition is_token (s : string) : bool :=
  (negb (str_is_empty s) && str_forall is_token_char s)%bool.

Definition total_length (l : list string) : nat :=
  fold_left (fun a s => a + String.length s)%nat l 0%nat.

(** [isLikelyID] *)
Definition isLikelyID (values : list value) : bool :=
  let nonNull := filter (fun v => negb (isMissing v)) values in
  if Nat.ltb (length nonNull) 20 then false
  else
    let asStr := filter (fun s => negb (str_is_empty s)) (map safeString nonNull) in
    if Nat.ltb (length asStr) 20 then false
    else
      let n := length asStr in
      let uniqRatio := ratio (length (dedup_str asStr)) n in
      let numericLike := ratio (count_if (rt_looks_numeric rt) asStr) n in
      if qleb (85 # 100) numericLike then false
      else
        let dateLike := ratio (count_if looksDate asStr) n in
        if qleb (85 # 100) dateLike then false
        else
          let avgLen := ratio (total_length asStr) n in
          let tokeny := ratio (count_if is_token asStr) n in
          let longAlphaNum :=
            ratio (count_if (fun x => is_token x && Nat.leb 6 (String.length x))%bool asStr) n in
          (qltb (9 # 10) uniqRatio && qltb (6 # 10) tokeny
           && (qleb avgLen 24 || qltb (6 # 10) longAlphaNum))%bool.

(** [inferColumnType] *)
Definition inferColumnType (values : list value) : InferredType :=
  let nonNull := filter (fun v => negb (isMissing v)) values in
  match nonNull with
  | [] => ITCategorical
  | _ =>
      let cleaned := filter (fun s => negb (str_is_empty s)) (map safeString nonNull) in
      let sample := firstn 250 cleaned in
      if isLikelyID (map VStr sample) then ITId
      else if qleb (8 # 10) (ratio (count_if (rt_looks_numeric rt) sample) (length sample))
      then ITNumeric
      else if qleb (8 # 10) (ratio (count_if looksDate sample) (length sample)) then ITDate
      else if qltb 30 (ratio (total_length sample) (length sample)) then ITText
      else ITCategorical
  end.

(* ------------------------------------------------------------------ *)
(** ** eda.ts *)

(** [median] of a sorted list *)
Definition median (sorted : list Q) : option Q :=
  let n := length sorted in
  match n with
  | O => None
  | _ =>
      let mid := (n / 2)%nat in
      if Nat.even n then Some ((nth (mid - 1) sorted 0 + nth mid sorted 0) / 2)
      else Some (nth mid sorted 0)
  end.

(** [stdev] of eda.ts (sample standard deviation, [null] below 2 values) *)
Definition stdev_eda (vals : list Q) (mean : Q) : option Q :=
  if Nat.ltb (length vals) 2 then None
  else Some (rt_sqrt rt (sumQ (map (fun v => (v - mean) * (v - mean)) vals)
                         / qnat (length vals - 1))).

(** [fingerprintRow] *)
Definition fingerprintRow (r : row) (cols : list string) : string :=
  String.concat "||" (map (fun c => js_string_or_empty (get r c)) cols).

(** [nameHintsId]: [/(^id$|_id$| id$|uuid|guid|hash|token|key$|^key|identifier)/] *)
Definition nameHintsId (col : string) : bool :=
  let n := lower col in
  (String.eqb n "id" || ends_with "_id" n || ends_with " id" n
   || contains "uuid" n || contains "guid" n || contains "hash" n
   || contains "token" n || ends_with "key" n || String.prefix "key" n
   || contains "identifier" n)%bool.

(** [isIntegerLike] *)
Definition isIntegerLike (n : Q) : bool :=
  qltb (qabs (n - qround n)) (1 # 1000000000).

(** [looksSequentialId] *)
Definition looksSequentialId (numsSorted : list Q) (uniqueCount : nat) : bool :=
  if Nat.ltb uniqueCount 30 then false
  else if negb (Nat.eqb (length numsSorted) uniqueCount) then false
  else
    let N := length numsSorted in
    let steps := Nat.min 400 (N - 1) in
    let stride := Nat.max 1 ((N - 1) / steps) in
    let idx := range_step N 0 (N - stride) stride in
    let diffs := map (fun i => nth (i + stride) numsSorted 0 - nth i numsSorted 0) idx in
    let checked := length diffs in
    let nonDecreasing := count_if (fun d => qleb 0 d) diffs in
    let inc1 := count_if (fun d => qltb (qabs (d - qnat stride)) (1 # 1000000)) diffs in
    if Nat.eqb checked 0 then false
    else (qltb (98 # 100) (ratio nonDecreasing checked)
          && qltb (85 # 100) (ratio inc1 checked))%bool.

(** [isIdLikeNumericColumn] *)
Definition isIdLikeNumericColumn (col : string) (nums : list Q) (uniqueCount : nat) : bool :=
  if nameHintsId col then true
  else if Nat.ltb (length nums) 30 then false
  else
    let uniqueRatio := ratio uniqueCount (Nat.max 1 (length nums)) in
    if qltb uniqueRatio (98 # 100) then false
    else
      let sampleN := Nat.min 500 (length nums) in
      let stride := Nat.max 1 (length nums / sampleN) in
      let idx := range_step (length nums) 0 (length nums) stride in
      let checked := length idx in
      let intOk := count_if (fun i => isIntegerLike (nth i nums 0)) idx in
      let intRatio := ratio intOk (Nat.max 1 checked) in
      if qltb intRatio (98 # 100) then false
      else
        let sortedUnique := sort_num (dedup_q nums) in
        if looksSequentialId sortedUnique (length sortedUnique) then true
        else
          let mn := nth 0 sortedUnique 0 in
          let mx := nth (length sortedUnique - 1) sortedUnique 0 in
          let range := qabs (mx - mn) in
          (qltb 0 range && qleb range (qnat (length sortedUnique) * (12 # 10)))%bool.

(** The [type] returned by [decideType] (its [reason] string is only
    stored as [parseReason], which nothing reads). *)
Inductive Decided := DId | DNumeric | DDate | DCategorical.

(** [decideType] *)
Definition decideType (col : string) (values : list value) : Decided :=
  let nonMissing := filter (fun v => negb (isMissing v)) values in
  match nonMissing with
  | [] => DCategorical
  | _ =>
    if nameHintsId col then DId
    else if isLikelyID nonMissing then DId
    else
      let N := length nonMissing in
      let numericOk := count_if (fun v => is_some (safeToNumberLoose v)) nonMissing in
      let dateOk := count_if (fun v => is_some (safeToDateLoose v)) nonMissing in
      let numericRatio := ratio numericOk N in
      let dateRatio := ratio dateOk N in
      let hinted := inferColumnType values in
      if (qleb (7 # 10) numericRatio &&
          (let nums := filter_map safeToNumberLoose nonMissing in
           isIdLikeNumericColumn col nums (length (dedup_q nums))))%bool
      then DId
      else if (qleb (85 # 100) dateRatio && qleb numericRatio dateRatio)%bool then DDate
      else if qleb (85 # 100) numericRatio then DNumeric
      else if (InferredType_eqb hinted ITDate && qleb (7 # 10) dateRatio)%bool then DDate
      else if (InferredType_eqb hinted ITNumeric && qleb (7 # 10) numericRatio)%bool
      then DNumeric
      else DCategorical
  end.

(** Column profiles.  Fields a type does not set are [None] or [0] and
    are not read by any consumer for that type. *)
Inductive ColType := TNumeric | TDate | TCategorical.

Definition ColType_eqb (a b : ColType) : bool :=
  match a, b with
  | TNumeric, TNumeric | TDate, TDate | TCategorical, TCategorical => true
  | _, _ => false
  end.

Record TopValue := { tv_value : string; tv_count : nat; tv_pct : Q }.

Record ColumnEDA := {
  ce_type : ColType;
  ce_missing : nat;
  ce_uniqueCount : nat;
  ce_nonMissingCount : nat;
  ce_min : option Q;            (* numeric *)
  ce_max : option Q;
  ce_mean : option Q;
  ce_median : option Q;
  ce_stdev : option Q;
  ce_zeros : nat;
  ce_negatives : nat;
  ce_dmin : option string;      (* date: ISO strings *)
  ce_dmax : option string;
  ce_topValues : option (list TopValue);  (* categorical *)
  ce_inferredAsId : bool        (* [inferredAs: "id"] *)
}.

Record EDAResult := {
  duplicates : nat;
  emptyColumns : list string;
  constantColumns : list string;
  columns : list (string * ColumnEDA)
}.

Definition empty_eda : EDAResult :=
  {| duplicates := 0; emptyColumns := []; constantColumns := []; columns := [] |}.

(** Counting repeated fingerprints with a [Set<string>]. *)
Fixpoint count_repeats (seen : list string) (l : list string) : nat :=
  match l with
  | [] => 0
  | x :: r => if mem_str x seen then S (count_repeats seen r)
              else count_repeats (x :: seen) r
  end.

(** [Array.from(uniques.entries()).sort((a, b) => b[1] - a[1]).slice(0, 8)] with pct *)
Definition topValues_of (uniques : list (string * nat)) (nonMissingCount : nat) : list TopValue :=
  map (fun p => {| tv_value := fst p; tv_count := snd p;
                   tv_pct := qnat (snd p) / qnat (Nat.max 1 nonMissingCount) * 100 |})
      (slice0 8 (sort_by (fun x e => Nat.ltb (snd e) (snd x)) uniques)).

Definition categorical_eda (missing uniqueCount nonMissingCount : nat)
    (uniques : list (string * nat)) (isId : bool) : ColumnEDA :=
  {| ce_type := TCategorical; ce_missing := missing; ce_uniqueCount := uniqueCount;
     ce_nonMissingCount := nonMissingCount;
     ce_min := None; ce_max := None; ce_mean := None; ce_median := None; ce_stdev := None;
     ce_zeros := 0; ce_negatives := 0; ce_dmin := None; ce_dmax := None;
     ce_topValues := Some (topValues_of uniques nonMissingCount);
     ce_inferredAsId := isId |}.

Definition numeric_eda (missing uniqueCount : nat) (values : list value) : ColumnEDA :=
  let parsed := filter_map safeToNumberLoose values in
  let zeros := count_if (fun n => qeqb n 0) parsed in
  let negatives := count_if (fun n => qltb n 0) parsed in
  let nums := sort_num parsed in
  let meanVal := match nums with [] => None | _ => Some (sumQ nums / qnat (length nums)) end in
  {| ce_type := TNumeric; ce_missing := missing; ce_uniqueCount := uniqueCount;
     ce_nonMissingCount := length nums;
     ce_min := hd_error nums; ce_max := last_opt nums; ce_mean := meanVal;
     ce_median := median nums;
     ce_stdev := match meanVal with Some m => stdev_eda nums m | None => None end;
     ce_zeros := zeros; ce_negatives := negatives; ce_dmin := None; ce_dmax := None;
     ce_topValues := None; ce_inferredAsId := false |}.

Definition date_eda (missing : nat) (values : list value) : ColumnEDA :=
  let parsed := filter_map safeToDateLoose values in
  let seenDate := dedup_str (map (rt_iso_string rt) parsed) in
  let dates := sort_by (fun x e => Z.ltb x e) parsed in
  {| ce_type := TDate; ce_missing := missing; ce_uniqueCount := length seenDate;
     ce_nonMissingCount := length dates;
     ce_min := None; ce_max := None; ce_mean := None; ce_median := None; ce_stdev := None;
     ce_zeros := 0; ce_negatives := 0;
     ce_dmin := option_map (rt_iso_string rt) (hd_error dates);
     ce_dmax := option_map (rt_iso_string rt) (last_opt dates);
     ce_topValues := None; ce_inferredAsId := false |}.

(** The values of a column, [row?.[col]] for every row. *)
Definition column_values (data : list row) (col : string) : list value :=
  map (fun r => get r col) data.

(** [uniques] (string keys of the non-missing values, with counts) *)
Definition uniques_of (values : list value) : list (string * nat) :=
  fold_left (fun m v => bump (js_string v) m)
            (filter (fun v => negb (isMissing v)) values) [].

(** The per-column body of the main loop of [runEDA]. *)
Definition column_eda (data : list row) (emptyCols : list string) (col : string) : ColumnEDA :=
  let values := column_values data col in
  let missing := count_if isMissing values in
  let nonMissingCount := (length data - missing)%nat in
  let uniques := uniques_of values in
  let uniqueCount := length uniques in
  match decideType col values with
  | DId => categorical_eda missing uniqueCount nonMissingCount uniques true
  | DNumeric =>
      if mem_str col emptyCols then categorical_eda missing uniqueCount nonMissingCount uniques false
      else numeric_eda missing uniqueCount values
  | DDate =>
      if mem_str col emptyCols then categorical_eda missing uniqueCount nonMissingCount uniques false
      else date_eda missing values
  | DCategorical => categorical_eda missing uniqueCount nonMissingCount uniques false
  end.

(** [Array.from(colSet)] *)
Definition eda_columns (data : list row) : list string :=
  dedup_str (flat_map (fun r => map fst r) data).

(** [runEDA] *)
Definition runEDA (data : list row) : EDAResult :=
  match data with
  | [] => empty_eda
  | _ =>
    let cols := eda_columns data in
    let emptyCols :=
      filter (fun c => forallb (fun r => isMissing (get r c)) data) cols in
    let dups := count_repeats [] (map (fun r => fingerprintRow r cols) data) in
    let constCols :=
      filter (fun c => let u := uniques_of (column_values data c) in
                       Nat.eqb (length u) 1) cols in
    {| duplicates := dups; emptyColumns := emptyCols; constantColumns := constCols;
       columns := map (fun c => (c, column_eda data emptyCols c)) cols |}
  end.

(* ------------------------------------------------------------------ *)
(** ** kpis.ts *)

Inductive KpiType := KSum | KMean | KMin | KMax | KCount | KRate | KRange | KSpan | KTop.

Definition KpiType_eqb (a b : KpiType) : bool :=
  match a, b with
  | KSum, KSum | KMean, KMean | KMin, KMin | KMax, KMax | KCount, KCount
  | KRate, KRate | KRange, KRange | KSpan, KSpan | KTop, KTop => true
  | _, _ => false
  end.

(** Every [value] the selector pushes is a formatted string. *)
Record KPI := { k_column : option string; k_label : string; k_value : string; k_type : KpiType }.

(** [fmtPct] of kpis.ts *)
Definition kpi_fmtPct (x : Q) : string := rt_num_string rt (qround x) ++ "%".

(** [fmtCompact] *)
Definition fmtCompact (n : Q) : string :=
  let a := qabs n in
  if qleb 1000000000 a then rt_to_fixed2 rt (n / 1000000000) ++ "B"
  else if qleb 1000000 a then rt_to_fixed2 rt (n / 1000000) ++ "M"
  else if qleb 1000 a then rt_locale_string rt (qround n)
  else if qeqb (qfloor n) n then rt_locale_string rt n
  else rt_to_fixed2 rt n.

(** [isIdLikeColumn] (its name regex is the one of [nameHintsId]) *)
Definition isIdLikeColumn (col : string) (info : option ColumnEDA) (rowCount : nat) : bool :=
  if nameHintsId col then true
  else match info with
       | Some i =>
           if ce_inferredAsId i then true
           else
             let unique := ce_uniqueCount i in
             let nn := ce_nonMissingCount i in
             (Nat.leb 20 unique && qltb (98 # 100) (ratio unique (Nat.max 1 nn)))%bool
       | None => false
       end.

(** [scoreNumericCol] *)
Definition scoreNumericCol (col : string) (info : option ColumnEDA) (rowCount : nat) : Q :=
  match info with
  | None => 0
  | Some i =>
      if isIdLikeColumn col info rowCount then 0
      else
        let nn := ce_nonMissingCount i in
        if Nat.ltb nn 25 then 0
        else match ce_min i, ce_max i with
             | Some mn, Some mx =>
                 let range := qabs (mx - mn) in
                 if qeqb range 0 then 1
                 else
                   let spread := match ce_stdev i with Some s => s | None => range end in
                   rt_log10 rt (qnat nn + 1) * 12 + rt_log10 rt (spread + 1) * 10
             | _, _ => 0
             end
  end.

(** [pickBestCategorical]: column, top value, score *)
Definition pickBestCategorical (eda : EDAResult) (rowCountHint : nat)
    : option (string * TopValue * Q) :=
  fold_left
    (fun best (p : string * ColumnEDA) =>
       let (col, info) := p in
       if negb (ColType_eqb (ce_type info) TCategorical) then best
       else if isIdLikeColumn col (Some info) rowCountHint then best
       else
         let unique := ce_uniqueCount info in
         let nn := match ce_nonMissingCount info with O => rowCountHint | k => k end in
         match ce_topValues info with
         | Some (top :: _) =>
             let dominance := tv_pct top in
             let uniqueRatio := if Nat.ltb 0 nn then ratio unique nn else 0 in
             if (Nat.leb 50 unique && qltb (1 # 2) uniqueRatio && qltb dominance 40)%bool
             then best
             else
               let score := dominance * 2
                            + (if Nat.leb unique 12 then 30 else if Nat.leb unique 25 then 15 else 0)
                            + (if qltb uniqueRatio (4 # 10) then 10 else 0) in
               match best with
               | Some (_, _, s) => if qltb s score then Some (col, top, score) else best
               | None => Some (col, top, score)
               end
         | _ => best
         end)
    (columns eda) None.

Definition ms_per_day : Q := 86400000.

(** [pickBestDate]: column, min, max, days *)
Definition pickBestDate (eda : EDAResult) : option (string * string * string * Q) :=
  fold_left
    (fun best (p : string * ColumnEDA) =>
       let (col, info) := p in
       if negb (ColType_eqb (ce_type info) TDate) then best
       else match ce_dmin info, ce_dmax info with
            | Some mn, Some mx =>
                if (str_is_empty mn || str_is_empty mx)%bool then best
                else match rt_date_parse rt mn, rt_date_parse rt mx with
                     | Some a, Some b =>
                         let days := qabs (inject_Z b - inject_Z a) / ms_per_day in
                         match best with
                         | Some (_, _, _, d) => if qltb d days then Some (col, mn, mx, days) else best
                         | None => Some (col, mn, mx, days)
                         end
                     | _, _ => best
                     end
            | _, _ => best
            end)
    (columns eda) None.

(** The numeric story: first scored candidate with >= 25 parsed values. *)
Fixpoint numeric_triad (data : list row) (cands : list (string * ColumnEDA * Q)) : list KPI :=
  match cands with
  | [] => []
  | (col, _, _) :: r =>
      let nums := filter_map (fun rw => safeToNumberLoose (get rw col)) data in
      if Nat.ltb (length nums) 25 then numeric_triad data r
      else
        let sum := sumQ nums in
        let mean := sum / qnat (length nums) in
        let mn := fold_left qmin nums (nth 0 nums 0) in
        let mx := fold_left qmax nums (nth 0 nums 0) in
        [ {| k_column := Some col; k_label := "Total " ++ col; k_value := fmtCompact sum; k_type := KSum |};
          {| k_column := Some col; k_label := "Average " ++ col; k_value := fmtCompact mean; k_type := KMean |};
          {| k_column := Some col; k_label := col ++ " range";
             k_value := fmtCompact mn ++ " → " ++ fmtCompact mx; k_type := KRange |} ]
  end.

(** [numericCandidates] *)
Definition numericCandidates (eda : EDAResult) (rowCount : nat) : list (string * ColumnEDA * Q) :=
  slice0 5
    (sort_by (fun x e => qltb (snd e) (snd x))
       (filter (fun x => qltb 0 (snd x))
          (map (fun p => (fst p, snd p, scoreNumericCol (fst p) (Some (snd p)) rowCount))
             (filter (fun p => ColType_eqb (ce_type (snd p)) TNumeric) (columns eda))))).

(** [generateKPIs] *)
Definition generateKPIs (data : list row) (eda : option EDAResult) : list KPI :=
  match data with
  | [] => []
  | _ =>
    let rowCount := length data in
    let rows_kpi := {| k_column := None; k_label := "Rows";
                       k_value := rt_locale_string rt (qnat rowCount); k_type := KCount |} in
    let rest :=
      match eda with
      | None => []
      | Some e =>
          let dupK :=
            if Nat.ltb 0 (duplicates e)
            then [ {| k_column := None; k_label := "Duplicates";
                      k_value := rt_locale_string rt (qnat (duplicates e)); k_type := KCount |} ]
            else [] in
          let totalMissing := sum_nat (map (fun p => ce_missing (snd p)) (columns e)) in
          let totalCells := sum_nat (map (fun p => ce_missing (snd p) + ce_nonMissingCount (snd p))%nat
                                         (columns e)) in
          let missK :=
            if Nat.ltb 0 totalCells
            then [ {| k_column := None; k_label := "Missing rate";
                      k_value := kpi_fmtPct (ratio totalMissing totalCells * 100); k_type := KRate |} ]
            else [] in
          let numK := numeric_triad data (numericCandidates e rowCount) in
          let catK :=
            match pickBestCategorical e rowCount with
            | Some (col, top, _) =>
                [ {| k_column := Some col; k_label := "Top " ++ col;
                     k_value := tv_value top ++ " (" ++ rt_num_string rt (qround (tv_pct top)) ++ "%)";
                     k_type := KTop |} ]
            | None => []
            end in
          let dateK :=
            match pickBestDate e with
            | Some (col, mn, mx, _) =>
                [ {| k_column := Some col; k_label := "Date span (" ++ col ++ ")";
                     k_value := String.substring 0 10 mn ++ " → " ++ String.substring 0 10 mx;
                     k_type := KSpan |} ]
            | None => []
            end in
          dupK ++ missK ++ numK ++ catK ++ dateK
      end in
    slice0 6 (rows_kpi :: rest)
  end.

(* ------------------------------------------------------------------ *)
(** ** charts.ts: specs and the diversity selector *)

Record HistogramSpec := {
  h_column : string; h_bins : nat; h_edges : list Q; h_counts : list nat;
  h_min : Q; h_max : Q; h_total : nat }.

Record BoxSpec := {
  b_column : string; b_min : Q; b_q1 : Q; b_median : Q; b_q3 : Q; b_max : Q;
  b_iqr : Q; b_outliers : list Q; b_total : nat }.

Record BarSpec := { bar_column : string; bar_labels : list string; bar_counts : list nat;
                    bar_maxBars : nat }.

Inductive Granularity := GDay | GMonth.

Record TimeSpec := { t_column : string; t_xColumn : string; t_yColumn : string;
                     t_points : list (string * Q); t_granularity : Granularity }.

Record ScatterSpec := { s_column : string; s_xColumn : string; s_yColumn : string;
                        s_points : list (Q * Q); s_correlation : option Q }.

Record CorrSpec := { corr_column : string; corr_columns : list string;
                     corr_matrix : list (list Q) }.

(** [ChartSpec]; the constant [purpose] field of each variant is carried by
    the candidate. *)
Inductive ChartSpec :=
| CHistogram (h : HistogramSpec)
| CBox (b : BoxSpec)
| CBar (b : BarSpec)
| CTime (t : TimeSpec)
| CScatter (s : ScatterSpec)
| CCorr (c : CorrSpec).

Inductive ChartType := Histogram | Box | Bar | Time | Scatter | Corr.

Definition chart_type (s : ChartSpec) : ChartType :=
  match s with
  | CHistogram _ => Histogram | CBox _ => Box | CBar _ => Bar
  | CTime _ => Time | CScatter _ => Scatter | CCorr _ => Corr
  end.

Definition ChartType_eqb (a b : ChartType) : bool :=
  match a, b with
  | Histogram, Histogram | Box, Box | Bar, Bar | Time, Time
  | Scatter, Scatter | Corr, Corr => true
  | _, _ => false
  end.

Inductive Purpose := Distribution | Composition | Trend | Relationship.

Definition Purpose_eqb (a b : Purpose) : bool :=
  match a, b with
  | Distribution, Distribution | Composition, Composition
  | Trend, Trend | Relationship, Relationship => true
  | _, _ => false
  end.

Record Candidate := { c_spec : ChartSpec; c_score : Q; c_purpose : Purpose }.

(** [pMax] (every purpose: 2) and [tMax] *)
Definition pMax (p : Purpose) : nat := 2.
Definition tMax (t : ChartType) : nat :=
  match t with
  | Histogram => 2 | Bar => 2 | Box => 1 | Time => 2 | Scatter => 1 | Corr => 1
  end.

(** A candidate together with its position in [cands], which stands for the
    object identity used by [picks.includes(c.spec)]. *)
Definition Tagged := (nat * Candidate)%type.

Definition canTake (pc : Purpose -> nat) (tc : ChartType -> nat) (c : Candidate) : bool :=
  (negb (Nat.leb (pMax (c_purpose c)) (pc (c_purpose c)))
   && negb (Nat.leb (tMax (chart_type (c_spec c))) (tc (chart_type (c_spec c)))))%bool.

Definition bump_purpose (pc : Purpose -> nat) (p : Purpose) : Purpose -> nat :=
  fun p' => if Purpose_eqb p p' then S (pc p') else pc p'.
Definition bump_type (tc : ChartType -> nat) (t : ChartType) : ChartType -> nat :=
  fun t' => if ChartType_eqb t t' then S (tc t') else tc t'.

(** The greedy loop of [pickDiverse]. *)
Fixpoint greedy (max : nat) (sorted : list Tagged) (picks : list Tagged)
    (pc : Purpose -> nat) (tc : ChartType -> nat) : list Tagged :=
  match sorted with
  | [] => picks
  | c :: r =>
      if Nat.leb max (length picks) then picks
      else if canTake pc tc (snd c)
      then greedy max r (picks ++ [c]) (bump_purpose pc (c_purpose (snd c)))
                  (bump_type tc (chart_type (c_spec (snd c))))
      else greedy max r picks pc tc
  end.

Definition picked (picks : list Tagged) (c : Tagged) : bool :=
  existsb (fun p => Nat.eqb (fst p) (fst c)) picks.

(** The "ensure min charts" loop of [pickDiverse]. *)
Fixpoint backfill (min : nat) (sorted : list Tagged) (picks : list Tagged) : list Tagged :=
  match sorted with
  | [] => picks
  | c :: r =>
      if Nat.leb min (length picks) then picks
      else if picked picks c then backfill min r picks
      else backfill min r (picks ++ [c])
  end.

Definition tag (cands : list Candidate) : list Tagged := combine (seq 0 (length cands)) cands.

(** [pickDiverse] *)
Definition pickDiverse (cands : list Candidate) (min max : nat) : list ChartSpec :=
  let sorted := sort_by (fun x e => qltb (c_score (snd e)) (c_score (snd x))) (tag cands) in
  let picks := greedy max sorted [] (fun _ => 0%nat) (fun _ => 0%nat) in
  let picks := if Nat.ltb (length picks) min then backfill min sorted picks else picks in
  map (fun c => c_spec (snd c)) (slice0 max picks).

(* ------------------------------------------------------------------ *)
(** ** charts.ts: id-like skipping, histogram and box helpers *)

(** [isIdLikeNumeric] *)
Definition isIdLikeNumeric (col : string) (info : option ColumnEDA) (rowCount : nat) : bool :=
  if nameHintsId col then true
  else match info with
       | Some i =>
           if ce_inferredAsId i then true
           else let unique := ce_uniqueCount i in
                (Nat.leb 20 unique
                 && qltb (98 # 100) (ratio unique (Nat.max 1 (ce_nonMissingCount i))))%bool
       | None => false
       end.

(** [isIdLikeCategorical] *)
Definition isIdLikeCategorical (col : string) (info : option ColumnEDA) : bool :=
  if nameHintsId col then true
  else match info with
       | None => false
       | Some i =>
           if ce_inferredAsId i then true
           else let nonMissing := ce_nonMissingCount i in
                if Nat.eqb nonMissing 0 then false
                else qltb (9 # 10) (ratio (ce_uniqueCount i) (Nat.max 1 nonMissing))
       end.

(** [isNameListColumn] *)
Definition isNameListColumn (i : ColumnEDA) : bool :=
  let nonMissing := ce_nonMissingCount i in
  let unique := ce_uniqueCount i in
  let dominance := match ce_topValues i with Some (t :: _) => tv_pct t | _ => 0 end in
  if Nat.eqb nonMissing 0 then false
  else (Nat.leb 50 unique && qltb (1 # 2) (ratio unique (Nat.max 1 nonMissing))
        && qltb dominance 40)%bool.

(** [chooseBins] *)
Definition chooseBins (n : nat) : nat :=
  if Nat.leb n 30 then 8 else if Nat.leb n 200 then 10 else if Nat.leb n 1000 then 12 else 14.

(** [counts[idx] += 1] on an in-range index. *)
Fixpoint incr_at (i : nat) (l : list nat) : list nat :=
  match l, i with
  | [], _ => []
  | x :: r, O => S x :: r
  | x :: r, S j => x :: incr_at j r
  end.

(** The bin of [v]: [Math.min(bins - 1, Math.max(0, Math.floor(t * bins)))] *)
Definition bin_index (mn span : Q) (bins : nat) (v : Q) : nat :=
  let t := (v - mn) / span in
  Z.to_nat (Z.min (Z.of_nat bins - 1) (Z.max 0 (Qfloor (t * qnat bins)))).

(** [computeHistogram]: min, max, edges, counts, total *)
Definition computeHistogram (values : list Q) (bins : nat)
    : option (Q * Q * list Q * list nat * nat) :=
  let clean := sort_num values in
  match clean with
  | [] => None
  | _ =>
      let mn := nth 0 clean 0 in
      let mx := nth (length clean - 1) clean 0 in
      let span := if qeqb (mx - mn) 0 then 1 else mx - mn in
      let edges := map (fun i => mn + span * qnat i / qnat bins) (seq 0 (S bins)) in
      let counts := fold_left (fun cs v => incr_at (bin_index mn span bins v) cs)
                              clean (repeat 0%nat bins) in
      Some (mn, mx, edges, counts, length clean)
  end.

(** [quantileSorted] *)
Definition quantileSorted (sorted : list Q) (q : Q) : option Q :=
  let n := length sorted in
  match n with
  | O => None
  | 1%nat => Some (nth 0 sorted 0)
  | _ =>
      let pos := qnat (n - 1) * q in
      let base := Qfloor pos in
      let rest := pos - inject_Z base in
      let a := nth (Z.to_nat base) sorted 0 in
      let b := nth (Nat.min (n - 1) (Z.to_nat base + 1)) sorted 0 in
      Some (a + (b - a) * rest)
  end.

(** [computeBox] *)
Definition computeBox (values : list Q) : option BoxSpec :=
  let clean := sort_num values in
  if Nat.ltb (length clean) 12 then None
  else match quantileSorted clean (1 # 4), quantileSorted clean (1 # 2),
             quantileSorted clean (3 # 4) with
       | Some q1, Some med, Some q3 =>
           let iqr := q3 - q1 in
           let lowFence := q1 - (3 # 2) * iqr in
           let highFence := q3 + (3 # 2) * iqr in
           let outliers := filter (fun v => qltb v lowFence || qltb highFence v)%bool clean in
           let wMin := match find (fun v => qleb lowFence v) clean with
                       | Some v => v | None => nth 0 clean 0 end in
           let wMax := match find (fun v => qleb v highFence) (rev clean) with
                       | Some v => v | None => nth (length clean - 1) clean 0 end in
           Some {| b_column := ""; b_min := wMin; b_q1 := q1; b_median := med; b_q3 := q3;
                   b_max := wMax; b_iqr := iqr; b_outliers := outliers;
                   b_total := length clean |}
       | _, _, _ => None
       end.

(* ------------------------------------------------------------------ *)
(** ** charts.ts: bar, time-series and relationship helpers *)

(** [capTopValuesWithOther] *)
Definition capTopValuesWithOther (i : ColumnEDA) (maxBars : nat) : list (string * nat) :=
  let topValues := match ce_topValues i with Some l => l | None => [] end in
  let nonMissing := ce_nonMissingCount i in
  let trimmed := map (fun t => (tv_value t, tv_count t)) (slice0 maxBars topValues) in
  let shownSum := sum_nat (map snd trimmed) in
  let other := (nonMissing - shownSum)%nat in
  if Nat.ltb 0 other then trimmed ++ [("Other"%string, other)] else trimmed.

(** [agg.set(k, (agg.get(k) ?? 0) + y)] *)
Fixpoint agg_add (k : string) (y : Q) (m : list (string * Q)) : list (string * Q) :=
  match m with
  | [] => [(k, y)]
  | (k', v) :: r => if String.eqb k k' then (k', v + y) :: r else (k', v) :: agg_add k y r
  end.

(** [buildTimeSeries]: points and granularity *)
Definition buildTimeSeries (data : list row) (dateCol numCol : string)
    : option (list (string * Q) * Granularity) :=
  let pairs := filter_map (fun r => match safeToDateLoose (get r dateCol),
                                          safeToNumberLoose (get r numCol) with
                                    | Some d, Some y => Some (d, y)
                                    | _, _ => None
                                    end) data in
  if Nat.ltb (length pairs) 20 then None
  else
    let sorted := sort_by (fun x e => Z.ltb (fst x) (fst e)) pairs in
    let first := fst (nth 0 sorted (0%Z, 0)) in
    let last := fst (nth (length sorted - 1) sorted (0%Z, 0)) in
    let days := qmax 1 (qround (inject_Z (last - first) / ms_per_day)) in
    let granularity := if qleb days 90 then GDay else GMonth in
    let keyFn := match granularity with GDay => rt_day_key rt | GMonth => rt_month_key rt end in
    let agg := fold_left (fun m p => agg_add (keyFn (fst p)) (snd p) m) sorted [] in
    let points := sort_by (fun x e => Z.ltb (rt_locale_compare rt (fst x) (fst e)) 0) agg in
    if Nat.ltb (length points) 8 then None else Some (points, granularity).

(** [mean] of charts.ts *)
Definition mean (xs : list Q) : Q := sumQ xs / qnat (Nat.max 1 (length xs)).

(** [stdev] of charts.ts *)
Definition stdev (xs : list Q) : Q :=
  if Nat.ltb (length xs) 2 then 0
  else let m := mean xs in
       rt_sqrt rt (sumQ (map (fun x => (x - m) * (x - m)) xs) / qnat (length xs - 1)).

(** The accumulation loop of [pearson]: [num], [dx], [dy]. *)
Definition pearson_sums (mx my : Q) (xy : list (Q * Q)) : Q * Q * Q :=
  fold_left (fun acc p =>
               let '(num, dx, dy) := acc in
               let a := fst p - mx in
               let b := snd p - my in
               (num + a * b, dx + a * a, dy + b * b)) xy (0, 0, 0).

(** [pearson] *)
Definition pearson (x y : list Q) : option Q :=
  if (negb (Nat.eqb (length x) (length y)) || Nat.ltb (length x) 8)%bool then None
  else
    let mx := mean x in
    let my := mean y in
    let '(num, dx, dy) := pearson_sums mx my (combine x y) in
    let den := rt_sqrt rt (dx * dy) in
    if qeqb den 0 then None else Some (num / den).

(** [buildScatter]: points, correlation, n, sx, sy *)
Definition buildScatter (data : list row) (xCol yCol : string)
    : option (list (Q * Q) * option Q * nat * Q * Q) :=
  let pairs := filter_map (fun r => match safeToNumberLoose (get r xCol),
                                          safeToNumberLoose (get r yCol) with
                                    | Some x, Some y => Some (x, y)
                                    | _, _ => None
                                    end) data in
  let xs := map fst pairs in
  let ys := map snd pairs in
  if Nat.ltb (length xs) 30 then None
  else
    let maxPts := 1200%nat in
    let points :=
      if Nat.ltb maxPts (length xs)
      then map (fun i => let k := (i * length xs / maxPts)%nat in (nth k xs 0, nth k ys 0))
               (seq 0 maxPts)
      else combine xs ys in
    Some (points, pearson xs ys, length xs, stdev xs, stdev ys).

(** The fully populated rows of [cols], as their parsed values. *)
Fixpoint parse_all (r : row) (cols : list string) : option (list Q) :=
  match cols with
  | [] => Some []
  | c :: cs => match safeToNumberLoose (get r c), parse_all r cs with
               | Some n, Some ns => Some (n :: ns)
               | _, _ => None
               end
  end.

(** [series[cols[i]]]: [cols] holds distinct names (it comes from a set). *)
Definition corr_series (complete : list (list Q)) (i : nat) : list Q :=
  map (fun vals => nth i vals 0) complete.

(** The rows of [buildCorrMatrix]'s loop that reach [series]: every column
    parses and [vals] is not empty. *)
Definition corr_complete (data : list row) (cols : list string) : list (list Q) :=
  filter (fun vals => negb (Nat.eqb (length vals) 0))
         (filter_map (fun r => parse_all r cols) data).

(** [buildCorrMatrix]: matrix and n *)
Definition buildCorrMatrix (data : list row) (cols : list string) : option (list (list Q) * nat) :=
  let complete := corr_complete data cols in
  let n := match cols with [] => 0%nat | _ => length complete end in
  if Nat.ltb n 40 then None
  else
    let idx := seq 0 (length cols) in
    let matrix := map (fun i => map (fun j => match pearson (corr_series complete i)
                                                             (corr_series complete j) with
                                              | Some r => r | None => 0 end) idx) idx in
    Some (matrix, n).

(** The source's [series] is keyed by name: each complete row pushes
    [vals[i]] onto [series[cols[i]]] for every [i].  [buildCorrMatrix]
    above reads [series[cols[i]]] as [corr_series complete i]; the two agree
    when the names in [cols] are distinct (lemma [corr_series_named_nodup]). *)
Definition corr_series_named (complete : list (list Q)) (cols : list string) (c : string) : list Q :=
  flat_map (fun vals => map (fun i => nth i vals 0)
                            (filter (fun i => String.eqb (nth i cols EmptyString) c)
                                    (seq 0 (length cols))))
           complete.

(* ------------------------------------------------------------------ *)
(** ** charts.ts: fallback detection and [generateCharts] *)

(** [sampleRows(data, n)] *)
Definition sampleRows (data : list row) (n : nat) : list row :=
  if Nat.leb (length data) n then data
  else
    let step := Nat.max 1 (length data / n) in
    firstn n (map (fun i => nth i data []) (range_step (length data) 0 (length data) step)).

(** The sampling loop shared by both detectors: [seen], [ok], [uniq.size]. *)
Definition scan_column (s : list row) (col : string) (parses : value -> bool) : nat * nat * nat :=
  let vs := filter (fun v => negb (isMissing v)) (map (fun r => get r col) s) in
  (length vs, count_if parses vs, length (dedup_str (map js_string vs))).

(** [detectDateLikeColumns] *)
Definition detectDateLikeColumns (data : list row) (cols : list string)
    (alreadyDateCols : list string) : list string :=
  let s := sampleRows data 250 in
  let results :=
    filter_map (fun col =>
      if mem_str col alreadyDateCols then None
      else
        let '(seen, ok, uniq) := scan_column s col (fun v => is_some (safeToDateLoose v)) in
        if Nat.ltb seen 15 then None
        else
          let r := ratio ok (Nat.max 1 seen) in
          let uniqRatio := ratio uniq (Nat.max 1 seen) in
          let score := r * 100 + qmin 20 (uniqRatio * 20) in
          if qleb (7 # 10) r then Some (col, score) else None) cols in
  map fst (sort_by (fun x e => qltb (snd e) (snd x)) results).

(** [detectNumericLikeColumns] *)
Definition detectNumericLikeColumns (data : list row) (cols : list string)
    (alreadyNumeric : list string) : list string :=
  let s := sampleRows data 250 in
  let results :=
    filter_map (fun col =>
      if mem_str col alreadyNumeric then None
      else
        let '(seen, ok, uniq) := scan_column s col (fun v => is_some (safeToNumberLoose v)) in
        if Nat.ltb seen 15 then None
        else
          let r := ratio ok (Nat.max 1 seen) in
          let uniqRatio := ratio uniq (Nat.max 1 seen) in
          let score := r * 100 + qmin 10 (uniqRatio * 10) in
          if qleb (85 # 100) r then Some (col, score) else None) cols in
  map fst (sort_by (fun x e => qltb (snd e) (snd x)) results).

(** The parsed numbers of a column, [safeToNumberLoose(row?.[col])] over all rows. *)
Definition parsed_numbers (data : list row) (col : string) : list Q :=
  filter_map (fun r => safeToNumberLoose (get r col)) data.

(** Body of the NUMERIC -> HISTOGRAM + BOX loop. *)
Definition numeric_candidates (data : list row) (eda : EDAResult) (col : string) : list Candidate :=
  if isIdLikeNumeric col (lookup col (columns eda)) (length data) then []
  else
    let values := parsed_numbers data col in
    if Nat.ltb (length values) 12 then []
    else
      let bins := chooseBins (length values) in
      let hist :=
        match computeHistogram values bins with
        | Some (mn, mx, edges, counts, total) =>
            let spreadScore := rt_log10 rt (mx - mn + 1) * 10 in
            let densityScore := rt_log10 rt (qnat total + 1) * 10 in
            [ {| c_spec := CHistogram {| h_column := col; h_bins := bins; h_edges := edges;
                                         h_counts := counts; h_min := mn; h_max := mx;
                                         h_total := total |};
                 c_score := densityScore + spreadScore; c_purpose := Distribution |} ]
        | None => []
        end in
      let box :=
        match computeBox values with
        | Some bx =>
            let outlierRate := ratio (length (b_outliers bx)) (Nat.max 1 (b_total bx)) in
            let iqr := qabs (b_iqr bx) in
            let score := rt_log10 rt (qnat (b_total bx) + 1) * 10 + rt_log10 rt (iqr + 1) * 12
                         + qmin 25 (outlierRate * 120) in
            [ {| c_spec := CBox {| b_column := col; b_min := b_min bx; b_q1 := b_q1 bx;
                                   b_median := b_median bx; b_q3 := b_q3 bx; b_max := b_max bx;
                                   b_iqr := b_iqr bx; b_outliers := slice0 200 (b_outliers bx);
                                   b_total := b_total bx |};
                 c_score := score; c_purpose := Distribution |} ]
        | None => []
        end in
      hist ++ box.

(** A bar candidate from label/count items. *)
Definition bar_candidate (col : string) (maxBars : nat) (items : list (string * nat)) : Candidate :=
  let total := match sum_nat (map snd items) with O => 1%nat | t => t end in
  let top := match items with (_, c) :: _ => c | [] => 0%nat end in
  let dominance := ratio top total in
  {| c_spec := CBar {| bar_column := col; bar_labels := map fst items;
                       bar_counts := map snd items; bar_maxBars := maxBars |};
     c_score := rt_log10 rt (qnat total + 1) * 10 + dominance * 60;
     c_purpose := Composition |}.

(** Body of the CATEGORICAL -> BAR loop. *)
Definition bar_candidates (data : list row) (eda : EDAResult) (numericCols dateCols : list string)
    (col : string) : list Candidate :=
  let info := lookup col (columns eda) in
  if (mem_str col numericCols || mem_str col dateCols)%bool then []
  else if isIdLikeCategorical col info then []
  else if match info with Some i => isNameListColumn i | None => false end then []
  else
    let maxBars := 10%nat in
    match info with
    | Some i =>
        match ce_topValues i with
        | Some (_ :: _) => [bar_candidate col maxBars (capTopValuesWithOther i maxBars)]
        | _ => []
        end
    | None => []
    end
    ++
    match match info with Some i => ce_topValues i | None => None end with
    | Some (_ :: _) => []
    | _ =>
        let vs := filter (fun v => negb (isMissing v)) (map (fun r => get r col) data) in
        let freq := fold_left (fun m v => bump (js_string v) m) vs [] in
        match freq with
        | [] => []
        | _ =>
            let sorted := sort_by (fun x e => Nat.ltb (snd e) (snd x)) freq in
            let top := slice0 maxBars sorted in
            let other := (length vs - sum_nat (map snd top))%nat in
            let top := if Nat.ltb 0 other then top ++ [("Other"%string, other)] else top in
            [bar_candidate col maxBars top]
        end
    end.


(** Body of the DATE + NUMERIC -> TIME loops. *)
Definition time_candidates (data : list row) (numericCols : list string) (dcol : string)
    : list Candidate :=
  if nameHintsId dcol then []
  else
    filter_map (fun ncol =>
      match buildTimeSeries data dcol ncol with
      | None => None
      | Some (points, granularity) =>
          let ys := map snd points in
          let minY := fold_left qmin ys (nth 0 ys 0) in
          let maxY := fold_left qmax ys (nth 0 ys 0) in
          let range := qabs (maxY - minY) in
          Some {| c_spec := CTime {| t_column := ncol ++ " over " ++ dcol; t_xColumn := dcol;
                                     t_yColumn := ncol; t_points := points;
                                     t_granularity := granularity |};
                  c_score := qnat (length points) * 2 + rt_log10 rt (range + 1) * 12;
                  c_purpose := Trend |}
      end) numericCols.

(** The pairs [(numericCols[i], numericCols[j])] with [i < j], in loop order. *)
Fixpoint ordered_pairs (l : list string) : list (string * string) :=
  match l with
  | [] => []
  | x :: r => map (fun y => (x, y)) r ++ ordered_pairs r
  end.

(** A scatter candidate of [buildScatter(data, xCol, yCol)]. *)
Definition scatter_candidate (data : list row) (xy : string * string) : option Candidate :=
  let '(xCol, yCol) := xy in
  match buildScatter data xCol yCol with
  | None => None
  | Some (points, correlation, n, sx, sy) =>
      let rAbs := qabs (match correlation with Some r => r | None => 0 end) in
      let varScore := rt_log10 rt (sx + sy + 1) * 10 in
      Some {| c_spec := CScatter {| s_column := yCol ++ " vs " ++ xCol; s_xColumn := xCol;
                                    s_yColumn := yCol; s_points := points;
                                    s_correlation := correlation |};
              c_score := qnat n * (2 # 100) + rAbs * 80 + varScore;
              c_purpose := Relationship |}
  end.

(** NUMERIC + NUMERIC -> SCATTER (best 1) *)
Definition scatter_best (data : list row) (numericCols : list string) : list Candidate :=
  let scatterCandidates := filter_map (scatter_candidate data) (ordered_pairs numericCols) in
  match sort_by (fun x e => qltb (c_score e) (c_score x)) scatterCandidates with
  | c :: _ => [c]
  | [] => []
  end.

(** [maxOff]: the largest off-diagonal [|matrix[i][j]|]. *)
Definition max_off (matrix : list (list Q)) (k : nat) : Q :=
  fold_left (fun m i =>
    fold_left (fun m j => if Nat.eqb i j then m
                          else qmax m (qabs (nth j (nth i matrix []) 0)))
              (seq 0 k) m) (seq 0 k) 0.

(** The ranking of the CORR HEATMAP block. *)
Definition corr_ranked (eda : EDAResult) (numericCols : list string) : list string :=
  let scored := map (fun c =>
    let info := lookup c (columns eda) in
    let sd := match info with Some i => match ce_stdev i with Some s => s | None => 0 end
                              | None => 0 end in
    let uniq := match info with Some i => ce_uniqueCount i | None => 0%nat end in
    (c, rt_log10 rt (sd + 1) * 10 + rt_log10 rt (qnat uniq + 1) * 2)) numericCols in
  slice0 10 (map fst (sort_by (fun x e => qltb (snd e) (snd x)) scored)).

(** CORR HEATMAP *)
Definition corr_candidates (data : list row) (eda : EDAResult) (numericCols : list string)
    : list Candidate :=
  if Nat.ltb (length numericCols) 4 then []
  else
    let ranked := corr_ranked eda numericCols in
    if Nat.ltb (length ranked) 4 then []
    else match buildCorrMatrix data ranked with
         | None => []
         | Some (matrix, n) =>
             let maxOff := max_off matrix (length ranked) in
             [ {| c_spec := CCorr {| corr_column := "Correlation (numeric)"; corr_columns := ranked;
                                     corr_matrix := matrix |};
                  c_score := qnat (length ranked) * 10 + qnat n * (3 # 100) + maxOff * 120;
                  c_purpose := Relationship |} ]
         end.

(** The column sets of [generateCharts]: [numericCols], [dateCols], [catCols]. *)
Definition chart_columns (data : list row) (eda : EDAResult)
    : list string * list string * list string :=
  let entries := columns eda in
  let rowCount := length data in
  let allCols := map fst entries in
  let numericColsFromEDA :=
    map fst (filter (fun e => (ColType_eqb (ce_type (snd e)) TNumeric
                               && negb (isIdLikeNumeric (fst e) (Some (snd e)) rowCount))%bool)
                    entries) in
  let dateColsFromEDA := map fst (filter (fun e => ColType_eqb (ce_type (snd e)) TDate) entries) in
  let catColsFromEDA :=
    map fst (filter (fun e => ColType_eqb (ce_type (snd e)) TCategorical) entries) in
  let inferredDateCols := detectDateLikeColumns data allCols dateColsFromEDA in
  let dateCols := dedup_str (dateColsFromEDA ++ inferredDateCols) in
  let inferredNumericCols := detectNumericLikeColumns data allCols numericColsFromEDA in
  let numericCols := dedup_str (numericColsFromEDA ++ inferredNumericCols) in
  let catFallback := filter (fun c => negb (mem_str c numericCols || mem_str c dateCols)%bool)
                            allCols in
  let catCols := dedup_str (catColsFromEDA ++ catFallback) in
  (numericCols, dateCols, catCols).

(** Every candidate pushed by [generateCharts], in push order. *)
Definition chart_candidates (data : list row) (eda : EDAResult) : list Candidate :=
  match data with
  | [] => []
  | _ =>
      let '(numericCols, dateCols, catCols) := chart_columns data eda in
      flat_map (numeric_candidates data eda) numericCols
      ++ flat_map (bar_candidates data eda numericCols dateCols) catCols
      ++ flat_map (time_candidates data numericCols) dateCols
      ++ scatter_best data numericCols
      ++ corr_candidates data eda numericCols
  end.

(** [generateCharts] *)
Definition generateCharts (data : list row) (eda : EDAResult) : list ChartSpec :=
  match data with
  | [] => []
  | _ => pickDiverse (chart_candidates data eda) 4 8
  end.



(* ------------------------------------------------------------------ *)
(** ** insights.ts *)

Inductive Severity := SInfo | SWarning | SPositive.

Inductive Action := AInvestigate | ASegment | AClean | AMonitor | AReport.

Record Insight := {
  i_id : string; i_text : string; i_severity : Severity;
  i_column : option string; i_action : Action; i_suggestedQuestions : list string }.

(** A one-character string holding a double quote. *)
Definition dq : string := String (ascii_of_nat 34) EmptyString.

(** [normalizeKey] of insights.ts and ask.ts: lower-case, trim, keep [a-z0-9]. *)
Definition normalizeKey (s : string) : string := str_filter is_lower_alnum (trim (lower s)).

(** [resolveColumn(raw, columns)] *)
Definition resolveColumn (raw : string) (cols : list string) : option string :=
  let target := normalizeKey raw in
  if str_is_empty target then None
  else find (fun c => String.eqb (normalizeKey c) target) cols.

(** [pushUnique] *)
Definition pushUnique (into : list Insight) (item : Insight) : list Insight :=
  if existsb (fun x => String.eqb (i_id x) (i_id item)) into then into else into ++ [item].

Definition severity_weight (s : Severity) : nat :=
  match s with SWarning => 0 | SPositive => 1 | SInfo => 2 end.

(** [sortBusiness]: stable sort by severity weight. *)
Definition sortBusiness (l : list Insight) : list Insight :=
  sort_by (fun x e => Nat.ltb (severity_weight (i_severity x)) (severity_weight (i_severity e))) l.

Inductive SuggestKind := KOutlier | KDominance | KMissing | KTimeKind | KHeadline.

(** [suggest(col, kind)] *)
Definition suggest (col : option string) (kind : SuggestKind) : list string :=
  let c := match col with Some s => s | None => ""%string end in
  let base :=
    match kind with
    | KOutlier => ["explain " ++ c; "distribution of " ++ c; "should i use mean or median";
                   "are there any outliers"; "what risks do the outliers pose"]
    | KDominance => ["top " ++ c; "distribution of " ++ c; "what stands out";
                     "what decisions could be misleading"; "what would you investigate next"]
    | KMissing => ["missing by column"; "is this dataset clean"; "are there any data quality risks";
                   if str_is_empty c then "summarise dataset" else "explain " ++ c]
    | KTimeKind => ["what is the time coverage of this dataset";
                    "are there enough dates to analyse trends"; "is this data seasonal";
                    "what would a time trend reveal here"]
    | KHeadline => ["summarise dataset"; "what is the main metric"; "what stands out";
                    "what would you highlight to executives"]
    end%string in
  dedup_str (filter (fun s => negb (str_is_empty s)) (map trim base)).

(** [list.slice(0, 4).join(", ")] followed by the ellipsis when longer. *)
Fixpoint join_comma (l : list string) : string :=
  match l with
  | [] => ""
  | [x] => x
  | x :: r => x ++ ", " ++ join_comma r
  end.

Definition list_preview (l : list string) : string :=
  join_comma (slice0 4 l) ++ if Nat.ltb 4 (length l) then "…" else "".

(** A pushed candidate of stages 3 and 4: column, score, insight. *)
Definition Scored := (string * Q * Insight)%type.

(** Stage 3, the body of the loop for one column: the candidates it pushes. *)
Definition outlier_candidates (mainMetricCol : option string) (col : string) (info : ColumnEDA)
    : list Scored :=
  if negb (ColType_eqb (ce_type info) TNumeric) then []
  else
    match ce_max info, ce_mean info with
    | Some mx, Some mean =>
        if qeqb mean 0 then []
        else
          let ratio := mx / qmax (1 # 1000000000) mean in
          let meanMedianGap :=
            match ce_median info with
            | Some md => if qltb 0 md then Some (mean / qmax (1 # 1000000000) md) else None
            | None => None
            end in
          let skewHint := match meanMedianGap with Some g => qleb (11 # 10) g | None => false end in
          if negb (qleb 3 ratio) then []
          else
            let isMain := match mainMetricCol with Some m => String.eqb m col | None => false end in
            let metricTag := if isMain then "Main metric"%string else "Metric"%string in
            let baseText : string :=
              (metricTag ++ " " ++ dq ++ col ++ dq ++ " has extreme values that may distort averages. "
              ++ "Use median/percentiles and segment (e.g., by category/country) before making decisions.")%string in
            let score := (if isMain then 100 else 0) + ratio * 10 in
            [(col, score, {| i_id := "outlier-" ++ normalizeKey col; i_text := baseText;
                             i_severity := SWarning; i_column := Some col;
                             i_action := AInvestigate;
                             i_suggestedQuestions := suggest (Some col) KOutlier |})]
            ++ (match ce_min info with
                | Some mn =>
                    if qltb mn 0
                    then [(col, score - 20,
                           {| i_id := "negatives-" ++ normalizeKey col;
                              i_text := dq ++ col ++ dq ++ " includes negative values. Confirm whether negatives represent refunds/credits or data errors.";
                              i_severity := SInfo; i_column := Some col; i_action := AInvestigate;
                              i_suggestedQuestions := (["explain " ++ col; "distribution of " ++ col;
                                                       "are there any data quality risks"])%string |})]
                    else []
                | None => []
                end)
            ++ (if skewHint
                then [(col, score - 25,
                       {| i_id := "skew-" ++ normalizeKey col;
                          i_text := dq ++ col ++ dq ++ " appears right-skewed (mean > median). Median-based KPIs may be more stable for reporting.";
                          i_severity := SInfo; i_column := Some col; i_action := AMonitor;
                          i_suggestedQuestions := (["should i use mean or median"; "distribution of " ++ col;
                                                   "are extreme values affecting averages"])%string |})]
                else [])
    | _, _ => []
    end.

(** Sort by score descending (stable) and keep the first [k]. *)
Definition top_scored (k : nat) (l : list Scored) : list Scored :=
  slice0 k (sort_by (fun x e => qltb (snd (fst e)) (snd (fst x))) l).

(** Stage 4, for one column. *)
Definition dominance_candidates (col : string) (info : ColumnEDA) : list Scored :=
  if negb (ColType_eqb (ce_type info) TCategorical) then []
  else
    match ce_topValues info with
    | Some (top :: _) =>
        let pct := tv_pct top in
        let uniqueCount := ce_uniqueCount info in
        if (qleb 70 pct && Nat.leb 2 uniqueCount)%bool
        then [(col, pct * 2 - qnat uniqueCount,
               {| i_id := "dominance-" ++ normalizeKey col;
                  i_text := "Column " ++ dq ++ col ++ dq ++ " is highly concentrated: " ++ dq ++ tv_value top
                            ++ dq ++ " accounts for ~" ++ rt_num_string rt (qround pct) ++ "%. "
                            ++ "This can hide smaller segments—break down key metrics by " ++ dq ++ col
                            ++ dq ++ " before concluding.";
                  i_severity := SInfo; i_column := Some col; i_action := ASegment;
                  i_suggestedQuestions := suggest (Some col) KDominance |})]
        else []
    | _ => []
    end.

(** Stage 2, for one column. *)
Definition missing_insight (col : string) (info : ColumnEDA) : list Insight :=
  let missing := ce_missing info in
  let totalApprox := (missing + ce_nonMissingCount info)%nat in
  if Nat.eqb totalApprox 0 then []
  else
    let missPct := ratio missing totalApprox * 100 in
    if qleb 25 missPct
    then [ {| i_id := col ++ "-missing";
              i_severity := if qleb 40 missPct then SWarning else SInfo;
              i_column := Some col; i_action := AClean;
              i_text := "Column " ++ dq ++ col ++ dq ++ " has ~" ++ rt_num_string rt (qround missPct)
                        ++ "% missing values. Any conclusions involving this column may be biased.";
              i_suggestedQuestions := suggest (Some col) KMissing |} ]
    else [].

(** [kpis.find((k) => k.type === t && k.column)] *)
Definition find_kpi (t : KpiType) (kpis : list KPI) : option KPI :=
  find (fun k => (KpiType_eqb (k_type k) t
                  && match k_column k with Some c => negb (str_is_empty c) | None => false end)%bool)
       kpis.

(** The insights list before the final [sortBusiness] and cap. *)
Definition insights_before_rank (eda : EDAResult) (kpis : list KPI) : list Insight :=
  let cols := columns eda in
  let names := map fst cols in
  let mainMetric := match find_kpi KSum kpis with Some k => Some k | None => find_kpi KMean kpis end in
  let mainMetricCol := match mainMetric with
                       | Some k => match k_column k with Some c => resolveColumn c names | None => None end
                       | None => None
                       end in
  let ins := [] in
  let ins := if Nat.ltb 0 (duplicates eda)
             then pushUnique ins {| i_id := "duplicates"; i_severity := SWarning; i_action := AClean;
                                    i_column := None;
                                    i_text := "Dataset contains " ++ rt_locale_string rt (qnat (duplicates eda))
                                              ++ " duplicate row(s). Consider de-duplicating before analysis.";
                                    i_suggestedQuestions := suggest None KMissing |}
             else ins in
  let ins := match emptyColumns eda with
             | [] => ins
             | ec => pushUnique ins {| i_id := "empty-cols"; i_severity := SWarning; i_action := AClean;
                                       i_column := None;
                                       i_text := "Some columns are empty (all missing): " ++ list_preview ec
                                                 ++ ". Remove or fix them.";
                                       i_suggestedQuestions := suggest None KMissing |}
             end in
  let ins := match constantColumns eda with
             | [] => ins
             | cc => pushUnique ins {| i_id := "constant-cols"; i_severity := SInfo; i_action := AClean;
                                       i_column := None;
                                       i_text := "Some columns are constant (no variation): " ++ list_preview cc
                                                 ++ ". They won’t help explain differences.";
                                       i_suggestedQuestions := (["summarise dataset";
                                         "what columns are most important"; "what would you investigate next"])%string |}
             end in
  let ins := fold_left pushUnique (flat_map (fun p => missing_insight (fst p) (snd p)) cols) ins in
  let outlierCandidates := flat_map (fun p => outlier_candidates mainMetricCol (fst p) (snd p)) cols in
  let ins := fold_left pushUnique (map snd (top_scored 2 outlierCandidates)) ins in
  let dominanceCandidates := flat_map (fun p => dominance_candidates (fst p) (snd p)) cols in
  let ins := fold_left pushUnique (map snd (top_scored 1 dominanceCandidates)) ins in
  let ins :=
    match find (fun p => ColType_eqb (ce_type (snd p)) TDate) cols with
    | Some (dateCol, info) =>
        match ce_dmin info, ce_dmax info with
        | Some mn, Some mx =>
            let mn := String.substring 0 10 mn in
            let mx := String.substring 0 10 mx in
            let uniq := ce_uniqueCount info in
            if (str_is_empty mn || str_is_empty mx)%bool then ins
            else pushUnique ins
              {| i_id := dateCol ++ "-coverage"; i_severity := SInfo; i_column := Some dateCol;
                 i_action := AMonitor;
                 i_text := "Time coverage: " ++ dq ++ dateCol ++ dq ++ " spans " ++ mn ++ " → " ++ mx ++ ". "
                           ++ (if Nat.leb 30 uniq
                               then "Enough granularity (" ++ rt_num_string rt (qnat uniq)
                                    ++ " unique dates) for trend/seasonality checks via weekly/monthly aggregation."
                               else "Date coverage exists but granularity is limited ("
                                    ++ rt_num_string rt (qnat uniq) ++ " unique dates).");
                 i_suggestedQuestions := suggest (Some dateCol) KTimeKind |}
        | _, _ => ins
        end
    | None => ins
    end in
  match find_kpi KSum kpis, find_kpi KMean kpis with
  | Some k, _ =>
      let c0 := match k_column k with Some c => c | None => ""%string end in
      let col := match resolveColumn c0 names with Some c => c | None => c0 end in
      pushUnique ins {| i_id := "headline-total-" ++ normalizeKey col; i_severity := SPositive;
                        i_column := Some col; i_action := AReport;
                        i_text := "Headline: Total " ++ col ++ " = " ++ k_value k
                                  ++ " (useful for top-line reporting).";
                        i_suggestedQuestions := suggest (Some col) KHeadline |}
  | None, Some k =>
      let c0 := match k_column k with Some c => c | None => ""%string end in
      let col := match resolveColumn c0 names with Some c => c | None => c0 end in
      pushUnique ins {| i_id := "headline-avg-" ++ normalizeKey col; i_severity := SPositive;
                        i_column := Some col; i_action := AReport;
                        i_text := "Headline: Average " ++ col ++ " = " ++ k_value k
                                  ++ " (useful for baseline reporting).";
                        i_suggestedQuestions := suggest (Some col) KHeadline |}
  | None, None => ins
  end.

(** [generateInsights] *)
Definition generateInsights (eda : EDAResult) (kpis : list KPI) : list Insight :=
  slice0 6 (sortBusiness (insights_before_rank eda kpis)).


(* ------------------------------------------------------------------ *)
(** ** ask.ts *)

(** [s] with the prefix [p] removed, if [s] starts with [p]. *)
Fixpoint strip_prefix (p s : string) : option string :=
  match p, s with
  | EmptyString, _ => Some s
  | String a p', String b s' => if Ascii.eqb a b then strip_prefix p' s' else None
  | _, _ => None
  end.

(** Some alternative of the regex [/(l1|l2|...)/] matches. *)
Definition contains_any (l : list string) (s : string) : bool := existsb (fun p => contains p s) l.

(** The line terminators [.] does not match. *)
Definition is_line_term (c : ascii) : bool :=
  (Nat.eqb (nat_of_ascii c) 10 || Nat.eqb (nat_of_ascii c) 13)%bool.

(** [/b/] after a [.*] that starts right here. *)
Fixpoint reach_no_nl (b s : string) : bool :=
  (String.prefix b s ||
   match s with
   | EmptyString => false
   | String c r => (negb (is_line_term c) && reach_no_nl b r)
   end)%bool.

(** [/a.*b/] *)
Fixpoint contains_gap (a b s : string) : bool :=
  (match strip_prefix a s with Some r => reach_no_nl b r | None => false end ||
   match s with
   | EmptyString => false
   | String _ r => contains_gap a b r
   end)%bool.

(** [/p\s+/] anchored here. *)
Definition prefix_then_ws (p s : string) : bool :=
  match strip_prefix p s with Some (String c _) => is_ws c | _ => false end.

(** [/(l1|l2|...)\s+/] *)
Fixpoint contains_then_ws (l : list string) (s : string) : bool :=
  (existsb (fun p => prefix_then_ws p s) l ||
   match s with
   | EmptyString => false
   | String _ r => contains_then_ws l r
   end)%bool.

(** [s.replace(/p/, "")]: the first occurrence removed. *)
Fixpoint replace_first (p s : string) : string :=
  match strip_prefix p s with
  | Some r => r
  | None => match s with
            | EmptyString => EmptyString
            | String c r => String c (replace_first p r)
            end
  end.

(** [s.replace(/^p\s+/, "")] *)
Definition strip_word (p s : string) : string :=
  if prefix_then_ws p s
  then match strip_prefix p s with Some r => ltrim r | None => s end
  else s.

Definition isSummary (q : string) : bool :=
  contains_any (["summarise"; "summarize"; "summary"; "overview"])%string q.
Definition isWhatStandsOut (q : string) : bool :=
  contains_any (["what stands out"; "stand out"])%string q.
Definition isMainMetric (q : string) : bool :=
  contains_any (["main metric"; "primary metric"; "key metric"])%string q.
Definition isTop (q : string) : bool := prefix_then_ws "top" (ltrim q).
Definition isExplain (q : string) : bool := prefix_then_ws "explain" (ltrim q).
Definition isDistribution (q : string) : bool :=
  contains_then_ws (["distribution of"; "distribution"; "dist of"])%string q.
Definition isOutliers (q : string) : bool := contains_any (["outlier"; "anomal"])%string q.
Definition isSkew (q : string) : bool :=
  contains_any (["skew"; "skewed"; "mean"; "median"; "average"; "robust"])%string q.
Definition isTime (q : string) : bool :=
  contains_any (["time coverage"; "time range"; "date range"; "time trend"; "trend";
                "time series"; "season"])%string q.
Definition isKpiGap (q : string) : bool :=
  (contains_any (["missing kpi"; "what kpis"; "kpi gaps"; "dashboard kpis"])%string q
   || contains_gap "kpi" "missing" q)%bool.
Definition isNextSteps (q : string) : bool :=
  contains_any (["what would you investigate next"; "investigate next"; "next steps"; "what next"])%string q.
Definition isNotAnswerable (q : string) : bool :=
  (contains_any (["cannot answer"; "can't answer"; "not answer"; "limitations"])%string q
   || contains_gap "what questions" "not" q)%bool.
Definition isDataImprove (q : string) : bool :=
  (contains_gap "what data" "improve" q || contains_gap "add" "improve" q
   || contains_any (["improve decision"; "what would you add"])%string q)%bool.
Definition isExec (q : string) : bool :=
  contains_any (["executive"; "stakeholder"; "highlight"; "warn"; "risk"; "assumption";
                "mislead"; "mistake"; "decision"])%string q.

(** [resolveColumn] of ask.ts: exact normalised match, then containment. *)
Definition ask_resolveColumn (raw : string) (cols : list string) : option string :=
  let rawStr := trim raw in
  if str_is_empty rawStr then None
  else
    let target := normalizeKey rawStr in
    if str_is_empty target then None
    else match find (fun c => String.eqb (normalizeKey c) target) cols with
         | Some c => Some c
         | None => find (fun c => let nk := normalizeKey c in
                                  (contains target nk || contains nk target)%bool) cols
         end.

Definition dash : string := "—".

(** [fmtNum] *)
Definition fmtNum (v : option Q) : string :=
  match v with
  | None => dash
  | Some x =>
      if qleb 1000000000 (qabs x) then rt_to_fixed2 rt (x / 1000000000) ++ "B"
      else if qleb 1000000 (qabs x) then rt_to_fixed2 rt (x / 1000000) ++ "M"
      else if qleb 1000 (qabs x) then rt_locale_string rt (qround x)
      else if qeqb (qfloor x) x then rt_locale_string rt x
      else rt_to_fixed2 rt x
  end.

(** [fmtPct] *)
Definition fmtPct (v : option Q) : string :=
  match v with None => dash | Some x => rt_num_string rt (qround x) ++ "%" end.

(** [meta]: the [rows] and [columns] fields read by the summary. *)
Record Meta := { meta_rows : value; meta_columns : value }.

(** [firstDateColumn] *)
Definition firstDateColumn (cols : list (string * ColumnEDA)) : option string :=
  option_map fst (find (fun p => ColType_eqb (ce_type (snd p)) TDate) cols).

(** [`• ${i.text}`] lines joined by newlines. *)
Fixpoint bullets (l : list Insight) : string :=
  match l with
  | [] => ""
  | [i] => "• " ++ i_text i
  | i :: r => "• " ++ i_text i ++ String (ascii_of_nat 10) EmptyString ++ bullets r
  end.

Definition no_date_sentence : string :=
  "This dataset does not contain a date column suitable for time analysis.".

Definition not_found (raw : string) : string :=
  "I couldn’t find a matching column for " ++ dq ++ raw ++ dq ++ ".".

Definition opt_num (o : option Q) : string :=
  match o with Some x => rt_num_string rt x | None => dash end.

(** [answerQuestion({ q, meta, eda, kpis, charts, insights })]; [charts] is unused. *)
Definition answerQuestion (q : string) (meta : Meta) (eda : EDAResult) (kpis : list KPI)
    (insights : list Insight) : string :=
  let query := trim q in
  let queryLower := lower query in
  let cols := columns eda in
  let names := map fst cols in
  let hasDate := existsb (fun p => ColType_eqb (ce_type (snd p)) TDate) cols in
  let numericCols := filter (fun p => ColType_eqb (ce_type (snd p)) TNumeric) cols in
  let categoricalCols := filter (fun p => ColType_eqb (ce_type (snd p)) TCategorical) cols in
  let mainNumeric := match find_kpi KSum kpis with Some k => Some k | None => find_kpi KMean kpis end in
  let mainCol := match mainNumeric with
                 | Some k => match k_column k with
                             | Some c => if str_is_empty c then None else Some c
                             | None => None
                             end
                 | None => None
                 end in
  let outlierInsights := filter (fun i => match i_severity i with SWarning => true | _ => false end)
                                insights in
  if isSummary queryLower then
    let main := (match mainCol with
                 | Some c => " The primary numeric signal appears to be " ++ dq ++ c ++ dq ++ "."
                 | None => ""
                 end)%string in
    let time := (if hasDate then ", with a time dimension present." else ".")%string in
    "This dataset contains " ++ js_string (meta_rows meta) ++ " rows and "
    ++ js_string (meta_columns meta) ++ " columns. It includes "
    ++ rt_num_string rt (qnat (length numericCols)) ++ " numeric columns and "
    ++ rt_num_string rt (qnat (length categoricalCols)) ++ " categorical columns" ++ time ++ main
  else if isWhatStandsOut queryLower then
    match insights with
    | [] => "No strong anomalies or dominant patterns were detected."
    | _ => bullets insights
    end
  else if isMainMetric queryLower then
    match mainCol with
    | Some c => "The main metric appears to be " ++ dq ++ c ++ dq ++ ", based on scale and variation."
    | None => "No clear primary metric could be identified without additional context."
    end
  else if isOutliers queryLower then
    match outlierInsights with
    | [] => "No significant outliers were detected based on basic statistical thresholds."
    | _ => bullets outlierInsights
    end
  else if isSkew queryLower then
    match outlierInsights with
    | _ :: _ => "The main numeric columns appear skewed due to extreme values. Median-based analysis is recommended."
    | [] => "The numeric distributions do not appear heavily skewed; mean-based summaries should be generally fine."
    end
  else if isExplain queryLower then
    let raw := trim (strip_word "explain" queryLower) in
    match ask_resolveColumn raw names with
    | None => not_found raw ++ " Try copying the column name from the EDA list."
    | Some col =>
        match lookup col cols with
        | None => dq ++ col ++ dq ++ " exists, but its type (unknown) isn’t supported for detailed explanation yet."
        | Some info =>
            let head := (dq ++ col ++ dq)%string in
            let uniq := rt_num_string rt (qnat (ce_uniqueCount info)) in
            let miss := rt_num_string rt (qnat (ce_missing info)) in
            match ce_type info with
            | TNumeric =>
                let mean := fmtNum (ce_mean info) in
                let median := fmtNum (ce_median info) in
                head ++ " is a numeric column with " ++ uniq ++ " unique values and " ++ miss
                ++ " missing values. It ranges from " ++ fmtNum (ce_min info) ++ " to "
                ++ fmtNum (ce_max info) ++ ". Mean: " ++ mean
                ++ (if String.eqb median dash then "" else ", Median: " ++ median) ++ "."
            | TCategorical =>
                let top := match ce_topValues info with Some (t :: _) => Some t | _ => None end in
                head ++ " is a categorical column with " ++ uniq ++ " unique values and " ++ miss
                ++ " missing values. The most common value is " ++ dq
                ++ match top with Some t => tv_value t | None => dash end ++ dq ++ " ("
                ++ fmtPct (option_map tv_pct top) ++ ")."
            | TDate =>
                head ++ " is a date column. It spans from "
                ++ match ce_dmin info with Some s => s | None => dash end ++ " to "
                ++ match ce_dmax info with Some s => s | None => dash end ++ " with "
                ++ uniq ++ " unique dates."
            end
        end
    end
  else if isDistribution queryLower then
    let raw := trim (replace_first "distribution"
                       (replace_first "dist of" (replace_first "distribution of" queryLower))) in
    match ask_resolveColumn raw names with
    | None => not_found raw ++ " Try: " ++ dq ++ "distribution of <exact column name>" ++ dq ++ "."
    | Some col =>
        let head := (dq ++ col ++ dq)%string in
        match lookup col cols with
        | Some info =>
            match ce_type info with
            | TNumeric =>
                let variation := (match ce_stdev info with
                                  | Some s => if qltb 0 s then "noticeable variation" else "low variation"
                                  | None => "low variation"
                                  end)%string in
                "The distribution of " ++ head ++ " spans from " ++ fmtNum (ce_min info) ++ " to "
                ++ fmtNum (ce_max info) ++ ". Mean: " ++ fmtNum (ce_mean info)
                ++ match ce_median info with
                   | Some _ => ", Median: " ++ fmtNum (ce_median info)
                   | None => ""
                   end
                ++ ", with " ++ variation ++ "."
            | TCategorical =>
                let top := match ce_topValues info with Some (t :: _) => Some t | _ => None end in
                head ++ " contains " ++ rt_num_string rt (qnat (ce_uniqueCount info))
                ++ " categories. The top category " ++ dq
                ++ match top with Some t => tv_value t | None => dash end ++ dq
                ++ " accounts for " ++ fmtPct (option_map tv_pct top) ++ "."
            | TDate => head ++ " does not have a distribution suitable for analysis."
            end
        | None => head ++ " does not have a distribution suitable for analysis."
        end
    end
  else if isTop queryLower then
    let raw := trim (strip_word "top" queryLower) in
    match ask_resolveColumn raw names with
    | None => not_found raw
    | Some col =>
        match match lookup col cols with Some info => ce_topValues info | None => None end with
        | Some (t :: ts) =>
            "Top values in " ++ dq ++ col ++ dq ++ ": "
            ++ join_comma (map (fun v => (tv_value v ++ " (" ++ fmtPct (Some (tv_pct v)) ++ ")")%string)
                               (slice0 5 (t :: ts)))
        | _ => "Top values could not be determined for " ++ dq ++ col ++ dq ++ "."
        end
    end
  else if isTime queryLower then
    if negb hasDate then no_date_sentence
    else
      match firstDateColumn cols with
      | None => "A date column was detected, but I couldn’t resolve it reliably."
      | Some dateCol =>
          let info := lookup dateCol cols in
          let span := ("The dataset spans from "
                      ++ match option_map ce_dmin info with Some (Some s) => s | _ => dash end
                      ++ " to "
                      ++ match option_map ce_dmax info with Some (Some s) => s | _ => dash end
                      ++ ".")%string in
          let uniq := (" With "
                      ++ match info with Some i => rt_num_string rt (qnat (ce_uniqueCount i))
                                    | None => dash end
                      ++ " unique dates, basic trend analysis is feasible.")%string in
          if contains "season" queryLower then
            span ++ uniq ++ " To confirm seasonality, you’d typically aggregate by week/month and compare recurring peaks across periods."
          else if (contains "reveal" queryLower || contains "appropriate" queryLower
                   || contains "trend analysis" queryLower)%bool then
            span ++ uniq ++ " A sensible approach is to aggregate the main numeric metric by week/month and compare changes over time, then segment by key categories (country/device/category) to see drivers."
          else span ++ uniq
      end
  else if isKpiGap queryLower then
    "Potential KPI gaps for a decision-ready dashboard include: growth rates (MoM/YoY), targets/benchmarks, profit or margin metrics, segmentation KPIs (by key categories), and trend KPIs (rolling averages). Without these, insights remain mostly descriptive."
  else if isNextSteps queryLower then
    "Recommended next steps: segment the main metric by key categories (e.g., country/device/category), investigate extreme values, compare mean vs median trends, analyse time trends for shifts, and identify top contributors vs the long tail."
  else if isNotAnswerable queryLower then
    "This dataset can describe what happened (totals, distributions, segments, trends), but it cannot reliably explain causality (why it happened), intent, or performance vs targets unless you add benchmarks, campaign context, or business rules."
  else if isDataImprove queryLower then
    "To improve decision-making, add: targets/quotas, product/region hierarchy, customer IDs with lifecycle info, discount/promo flags, channel/source, and a clear profit/margin field. These unlock performance vs target, attribution, and actionable segmentation."
  else if isExec queryLower then
    "Key considerations based on this dataset: outliers may distort averages (use medians + segmentation), dominant categories can hide minority behaviour, time trends are descriptive not explanatory, and this dataset supports monitoring and exploration—not causal claims."
  else
    "Based on the dataset structure and available statistics: the data supports descriptive analysis and high-level trend exploration. Outliers suggest caution when using averages, and dominant categories may hide smaller segments. If you want something specific, reference a column (e.g., "
    ++ dq ++ "explain cost" ++ dq ++ ", " ++ dq ++ "top country" ++ dq ++ ", "
    ++ dq ++ "distribution of order_value_EUR" ++ dq ++ ", " ++ dq ++ "time coverage" ++ dq ++ ").".

(* ------------------------------------------------------------------ *)
(** ** DatasetContext.tsx: meta helpers *)

(** The key [Set] of [computeMissingValues] and [computeColumnsCount]:
    [Object.keys] of every row, first occurrences in order. *)
Definition dataset_keys (data : list row) : list string :=
  dedup_str (flat_map (fun r => map fst r) data).

(** [computeMissingValues] *)
Definition computeMissingValues (data : list row) : nat :=
  match data with
  | [] => 0%nat
  | _ =>
    let keys := dataset_keys data in
    fold_left (fun missing r =>
                 fold_left (fun missing k => if isMissing (get r k) then S missing else missing)
                           keys missing) data 0%nat
  end.

(** [computeColumnsCount] *)
Definition computeColumnsCount (data : list row) : nat := length (dataset_keys data).

End Engine.

(* ------------------------------------------------------------------ *)
(** ** A concrete runtime

    [rt0] is the runtime of an ECMAScript engine whose [Date.parse] accepts
    only the standard date-time string format (for any other string the
    language leaves the result to the implementation; here it is NaN).  None
    of the cell values used below is a four-digit number, so none is in that
    format.  [rt0] agrees with JavaScript on integer strings and integer
    formatting below 1000; [Math.log10] and [Math.sqrt] are replaced by
    integer approximations (exact on powers of ten and on squares), which
    only move chart scores, never the presence of a candidate. *)

Fixpoint z_digits (fuel : nat) (z : Z) (acc : string) : string :=
  match fuel with
  | O => acc
  | S f =>
      let acc' := String (ascii_of_nat (48 + Z.to_nat (Z.modulo z 10))) acc in
      if Z.eqb (Z.div z 10) 0 then acc' else z_digits f (Z.div z 10) acc'
  end.

Definition z_to_string (z : Z) : string :=
  if Z.ltb z 0 then String "-"%char (z_digits 40 (- z) EmptyString) else z_digits 40 z EmptyString.

Definition q_to_string (q : Q) : string :=
  if Pos.eqb (Qden q) 1 then z_to_string (Qnum q)
  else z_to_string (Qnum q) ++ "/" ++ z_to_string (Zpos (Qden q)).

Fixpoint digits_acc (s : string) (acc : Z) : option Z :=
  match s with
  | EmptyString => Some acc
  | String c r => if is_digit c then digits_acc r (acc * 10 + Z.of_nat (nat_of_ascii c - 48))
                  else None
  end.

(** Integer strings, optionally signed with [-]. *)
Definition parse_int_str (s : string) : option Q :=
  match s with
  | EmptyString => None
  | String "-"%char EmptyString => None
  | String "-"%char r => option_map (fun z => inject_Z (- z)) (digits_acc r 0)
  | _ => option_map inject_Z (digits_acc s 0)
  end.

(** [floor(log10 q)] for [q >= 1], and 0 below. *)
Definition log10_floor (q : Q) : Q :=
  if qltb q 1 then 0
  else qnat (String.length (z_to_string (Qfloor q)) - 1).

(** [sqrt (a / b)] as [isqrt (a * b) / b]. *)
Definition sqrt_floor (q : Q) : Q :=
  if Z.ltb (Qnum q) 0 then 0 else Z.sqrt (Qnum q * Zpos (Qden q)) # Qden q.

Definition rt0 : Runtime := {|
  rt_str_to_num := parse_int_str;
  rt_looks_numeric := fun s => is_some (parse_int_str s);
  rt_date_parse := fun _ => None;
  rt_new_date := fun _ _ _ => None;
  rt_num_string := q_to_string;
  rt_iso_string := fun _ => EmptyString;
  rt_day_key := fun _ => EmptyString;
  rt_month_key := fun _ => EmptyString;
  rt_locale_compare := fun _ _ => 0%Z;
  rt_locale_string := q_to_string;
  rt_to_fixed2 := q_to_string;
  rt_log10 := log10_floor;
  rt_sqrt := sqrt_floor |}.

(** ** Concrete inputs *)

Definition one_col (c : string) (vs : list Z) : list row := map (fun z => [(c, VNum (inject_Z z))]) vs.

(** 4 zeros and 12 hundreds. *)
Definition box_rows : list row := one_col "v"%string (repeat 0%Z 4 ++ repeat 100%Z 12).

(** 500 rows: even rows hold a number, odd rows the text [x]. *)
Definition mixed_rows : list row :=
  map (fun i => if Nat.even i then [("v"%string, VNum (qnat (i mod 7)))] else [("v"%string, VStr "x")])
      (seq 0 500).

(** 20 rows: ten -100 and ten 5 (mean -47.5, max 5). *)
Definition neg_mean_rows : list row := one_col "v"%string (repeat (-20)%Z 10 ++ repeat 15%Z 10).

(** 41 rows of four numeric columns; [a] is 1 except on the last row, where
    [b] is missing. *)
Definition corr_rows : list row :=
  map (fun i => [("a"%string, VNum (if Nat.eqb i 41 then 2 else 1));
                 ("b"%string, if Nat.eqb i 41 then VNull else VNum (qnat (i mod 5)));
                 ("c"%string, VNum (qnat (i mod 7)));
                 ("d"%string, VNum (qnat (i mod 3)))]) (seq 1 41).

(** 40 orders: [order_id] runs 1..40, [amount] cycles through 10..60. *)
Definition order_rows : list row :=
  map (fun i => [("order_id"%string, VNum (qnat i)); ("amount"%string, VNum (qnat ((i mod 6 + 1) * 10)))])
      (seq 1 40).

(** 30 rows holding the constant 5. *)
Definition const_rows : list row := one_col "v"%string (repeat 5%Z 30).

(** 405 rows: -1..-101, 203 zeros, 1..101 (so q1 = q3 = 0). *)
Definition many_outlier_rows : list row :=
  one_col "v"%string (map (fun i => - Z.of_nat i)%Z (seq 1 101) ++ repeat 0%Z 203
               ++ map Z.of_nat (seq 1 101)).

(** The first histogram, box and correlation chart of a chart list. *)
Fixpoint first_hist (l : list ChartSpec) : option HistogramSpec :=
  match l with
  | [] => None
  | CHistogram h :: _ => Some h
  | _ :: r => first_hist r
  end.

Fixpoint first_box (l : list ChartSpec) : option BoxSpec :=
  match l with
  | [] => None
  | CBox b :: _ => Some b
  | _ :: r => first_box r
  end.

Fixpoint first_corr (l : list ChartSpec) : option CorrSpec :=
  match l with
  | [] => None
  | CCorr c :: _ => Some c
  | _ :: r => first_corr r
  end.

(* ================================================================== *)
(** * Lemmas *)

(** ** Lists, sorting and the generic helpers *)

Lemma ins_by_perm {A} (b : A -> A -> bool) x l : Permutation (ins_by b x l) (x :: l).
Proof.
  induction l as [|e r IH]; simpl; [auto|].
  destruct (b x e); [auto|].
  eapply perm_trans; [apply perm_skip, IH | apply perm_swap].
Qed.

Lemma sort_by_perm_acc {A} (b : A -> A -> bool) l acc :
  Permutation (fold_left (fun acc x => ins_by b x acc) l acc) (l ++ acc).
Proof.
  revert acc; induction l as [|x r IH]; intros acc; simpl; [auto|].
  eapply perm_trans; [apply IH|].
  eapply perm_trans; [apply Permutation_app_head, ins_by_perm|].
  apply Permutation_sym, Permutation_middle.
Qed.

Lemma sort_by_perm {A} (b : A -> A -> bool) l : Permutation (sort_by b l) l.
Proof.
  unfold sort_by. rewrite <- (app_nil_r l) at 2. apply sort_by_perm_acc.
Qed.

Lemma length_sort_by {A} (b : A -> A -> bool) l : length (sort_by b l) = length l.
Proof. apply Permutation_length, sort_by_perm. Qed.

Lemma in_sort_by {A} (b : A -> A -> bool) l x : In x (sort_by b l) -> In x l.
Proof. apply Permutation_in, sort_by_perm. Qed.

Lemma ins_num_sorted x l :
  Sorted Qle l -> Sorted Qle (ins_by (fun x e => qltb x e) x l).
Proof.
  induction 1 as [|e r Hs IH Hd]; simpl.
  - repeat constructor.
  - unfold qltb at 1. destruct (Qle_bool e x) eqn:E; simpl.
    + apply Qle_bool_iff in E. constructor; [exact IH|].
      destruct r as [|f r']; simpl; [constructor; exact E|].
      inversion Hd; subst. destruct (qltb x f); constructor; assumption.
    + constructor; [constructor; assumption|]. constructor.
      apply Qlt_le_weak, Qnot_le_lt. intro H. apply Qle_bool_iff in H. congruence.
Qed.

Lemma sort_num_sorted l : Sorted Qle (sort_num l).
Proof.
  unfold sort_num, sort_by.
  assert (H : forall acc, Sorted Qle acc ->
            Sorted Qle (fold_left (fun acc x => ins_by (fun x e => qltb x e) x acc) l acc)).
  { induction l as [|x r IH]; intros acc Hacc; simpl; [exact Hacc|].
    apply IH, ins_num_sorted, Hacc. }
  apply H. constructor.
Qed.

Lemma strongly_sorted_nth l d i j :
  StronglySorted Qle l -> (i <= j < length l)%nat -> nth i l d <= nth j l d.
Proof.
  revert i j; induction l as [|x r IH]; intros i j Hs Hij; simpl in *; [lia|].
  inversion Hs as [|? ? Hr Hall]; subst.
  destruct i as [|i'], j as [|j'].
  - apply Qle_refl.
  - rewrite Forall_forall in Hall. apply Hall, nth_In. lia.
  - lia.
  - apply IH; [exact Hr | lia].
Qed.

(** The sorted order of [sort_num], position by position. *)
Lemma sort_num_nth l i j :
  (i <= j < length (sort_num l))%nat -> nth i (sort_num l) 0 <= nth j (sort_num l) 0.
Proof.
  apply strongly_sorted_nth, Sorted_StronglySorted; [|apply sort_num_sorted].
  intros a b c; apply Qle_trans.
Qed.

Lemma in_filter_map {A B} (f : A -> option B) l y :
  In y (filter_map f l) <-> exists x, In x l /\ f x = Some y.
Proof.
  induction l as [|x r IH]; simpl.
  - split; [intros []|intros (x & [] & _)].
  - destruct (f x) as [z|] eqn:E; simpl; split.
    + intros [<-|H]; [eauto|]. apply IH in H as (x' & ? & ?); eauto.
    + intros (x' & [<-|Hin] & Hx); [left; congruence|right; apply IH; eauto].
    + intros H. apply IH in H as (x' & ? & ?); eauto.
    + intros (x' & [<-|Hin] & Hx); [congruence|apply IH; eauto].
Qed.

Lemma filter_map_map {A B C} (f : B -> option C) (g : A -> B) l :
  filter_map f (map g l) = filter_map (fun x => f (g x)) l.
Proof. induction l as [|x r IH]; simpl; [reflexivity|]. rewrite IH. reflexivity. Qed.

Lemma lookup_map_key {A} (f : string -> A) k l v :
  lookup k (map (fun c => (c, f c)) l) = Some v -> v = f k.
Proof.
  induction l as [|c r IH]; simpl; [discriminate|].
  destruct (String.eqb_spec k c) as [->|_]; [congruence|exact IH].
Qed.

Lemma fold_add_acc l a : fold_left Nat.add l a = (a + fold_left Nat.add l 0)%nat.
Proof.
  revert a; induction l as [|x r IH]; intros a; simpl; [lia|].
  rewrite (IH (a + x)%nat), (IH x). lia.
Qed.

Lemma sum_nat_cons x l : sum_nat (x :: l) = (x + sum_nat l)%nat.
Proof. unfold sum_nat; simpl. apply fold_add_acc. Qed.

Lemma sum_nat_repeat0 n : sum_nat (repeat 0%nat n) = 0%nat.
Proof. induction n as [|n IH]; [reflexivity|]. simpl repeat. rewrite sum_nat_cons. lia. Qed.

Lemma incr_at_spec i l :
  (i < length l)%nat -> length (incr_at i l) = length l /\ sum_nat (incr_at i l) = S (sum_nat l).
Proof.
  revert i; induction l as [|x r IH]; intros i Hi; simpl in *; [lia|].
  destruct i as [|j]; simpl.
  - rewrite !sum_nat_cons. split; [reflexivity|lia].
  - destruct (IH j) as [H1 H2]; [lia|]. rewrite !sum_nat_cons, H2. split; [lia|lia].
Qed.

Lemma nth_map_seq {A} (g : nat -> A) n i d :
  (i < n)%nat -> nth i (map g (seq 0 n)) d = g i.
Proof.
  intros H. rewrite nth_indep with (d' := g 0%nat) by (rewrite length_map, length_seq; lia).
  rewrite map_nth, seq_nth by lia. reflexivity.
Qed.

Lemma nth_map_seq_out {A} (g : nat -> A) n i d :
  (n <= i)%nat -> nth i (map g (seq 0 n)) d = d.
Proof. intros H. apply nth_overflow. rewrite length_map, length_seq. lia. Qed.

(** ** [pickDiverse] *)

Lemma greedy_sub mx sorted picks pc tc x :
  In x (greedy mx sorted picks pc tc) -> In x picks \/ In x sorted.
Proof.
  revert picks pc tc; induction sorted as [|c r IH]; intros picks pc tc; simpl; [auto|].
  destruct (Nat.leb mx (length picks)); [auto|].
  destruct (canTake pc tc (snd c)); intros H; apply IH in H as [H|H]; auto.
  apply in_app_or in H as [H|[<-|[]]]; auto.
Qed.

Lemma backfill_sub mn sorted picks x :
  In x (backfill mn sorted picks) -> In x picks \/ In x sorted.
Proof.
  revert picks; induction sorted as [|c r IH]; intros picks; simpl; [auto|].
  destruct (Nat.leb mn (length picks)); [auto|].
  destruct (picked picks c); intros H; apply IH in H as [H|H]; auto.
  apply in_app_or in H as [H|[<-|[]]]; auto.
Qed.

Lemma in_tag cands k c : In (k, c) (tag cands) -> In c cands.
Proof. apply in_combine_r. Qed.

Lemma in_firstn {A} n (l : list A) x : In x (firstn n l) -> In x l.
Proof.
  intros H. rewrite <- (firstn_skipn n l). apply in_or_app. left; exact H.
Qed.

(** Every chart [pickDiverse] returns is the spec of one of its candidates. *)
Lemma pickDiverse_sub cands mn mx s :
  In s (pickDiverse cands mn mx) -> exists c, In c cands /\ c_spec c = s.
Proof.
  unfold pickDiverse, slice0. intros H.
  apply in_map_iff in H as ([k c] & <- & H).
  apply in_firstn in H. exists c. split; [|reflexivity].
  set (sorted := sort_by (fun x e : Tagged => qltb (c_score (snd e)) (c_score (snd x)))
                          (tag cands)) in H.
  assert (Hs : In (k, c) sorted -> In c cands).
  { intros Hin. apply in_sort_by in Hin. eapply in_tag; exact Hin. }
  destruct (Nat.ltb _ mn) in H.
  - apply backfill_sub in H as [H|H]; [|auto].
    apply greedy_sub in H as [[]|H]; auto.
  - apply greedy_sub in H as [[]|H]; auto.
Qed.

Lemma length_pickDiverse cands mn mx : (length (pickDiverse cands mn mx) <= mx)%nat.
Proof. unfold pickDiverse, slice0. rewrite length_map. apply firstn_le_length. Qed.

Lemma picked_app picks c x :
  picked (picks ++ [c]) x = (picked picks x || Nat.eqb (fst c) (fst x))%bool.
Proof. unfold picked. rewrite existsb_app. simpl. rewrite orb_false_r. reflexivity. Qed.

(** The backfill loop reaches [mn] or takes every candidate not yet picked. *)
Lemma backfill_length mn sorted picks :
  NoDup (map fst sorted) ->
  (Nat.min mn (length picks + length (filter (fun c => negb (picked picks c)) sorted))
   <= length (backfill mn sorted picks))%nat.
Proof.
  revert picks; induction sorted as [|c r IH]; intros picks Hnd; simpl.
  - lia.
  - inversion Hnd as [|? ? Hc Hr]; subst.
    destruct (Nat.leb_spec mn (length picks)) as [Hle|Hlt]; [destruct (picked picks c); simpl; lia|].
    destruct (picked picks c) eqn:Ep; cbn [negb filter].
    + apply IH, Hr.
    + eapply Nat.le_trans; [|apply IH, Hr].
      rewrite length_app. cbn [length].
      match goal with |- context [filter ?f r] =>
        match f with context [picked (_ ++ _)] =>
          assert (Hf : filter f r = filter (fun x : Tagged => negb (picked picks x)) r) end end.
      { apply filter_ext_in. intros x Hx. rewrite picked_app.
        destruct (Nat.eqb_spec (fst c) (fst x)) as [He|He]; [|rewrite orb_false_r; reflexivity].
        exfalso. apply Hc. rewrite He. apply in_map, Hx. }
      rewrite Hf. lia.
Qed.

Lemma NoDup_map_filter {A B} (f : A -> B) p l : NoDup (map f l) -> NoDup (map f (filter p l)).
Proof.
  induction l as [|x r IH]; simpl; intros H; [constructor|].
  inversion H as [|? ? Hx Hr]; subst.
  destruct (p x); simpl; [constructor|]; auto.
  intro Hin. apply Hx. apply in_map_iff in Hin as (y & Hy & Hy').
  apply filter_In in Hy' as [Hy' _]. rewrite <- Hy. apply in_map, Hy'.
Qed.

Lemma filter_picked_length picks sorted :
  NoDup (map fst sorted) -> (length (filter (picked picks) sorted) <= length picks)%nat.
Proof.
  intros Hnd.
  rewrite <- (length_map (A:=Tagged) fst (filter (picked picks) sorted)).
  rewrite <- (length_map (A:=Tagged) fst picks).
  apply NoDup_incl_length.
  - apply NoDup_map_filter, Hnd.
  - intros k Hk. apply in_map_iff in Hk as (x & <- & Hx).
    apply filter_In in Hx as [_ Hx]. unfold picked in Hx.
    apply existsb_exists in Hx as (p & Hp & He). apply Nat.eqb_eq in He.
    rewrite <- He. apply in_map, Hp.
Qed.

Lemma filter_negb_length {A} (p : A -> bool) l :
  (length (filter p l) + length (filter (fun x => negb (p x)) l))%nat = length l.
Proof. induction l as [|x r IH]; simpl; [reflexivity|]. destruct (p x); simpl; lia. Qed.

Lemma map_fst_combine {A B} (l : list A) (l' : list B) :
  length l = length l' -> map fst (combine l l') = l.
Proof.
  revert l'; induction l as [|x r IH]; intros [|y r'] H; simpl in *; try lia; [reflexivity|].
  f_equal. apply IH. lia.
Qed.

Lemma tag_sorted_nodup (b : Tagged -> Tagged -> bool) cands :
  NoDup (map fst (sort_by b (tag cands))).
Proof.
  eapply Permutation_NoDup; [apply Permutation_map; symmetry; apply sort_by_perm|].
  unfold tag. rewrite map_fst_combine by (rewrite length_seq; reflexivity).
  apply seq_NoDup.
Qed.

Lemma backfill_enough mn sorted picks :
  NoDup (map fst sorted) -> (mn <= length sorted)%nat ->
  (mn <= length (backfill mn sorted picks))%nat.
Proof.
  intros Hnd Hl.
  pose proof (backfill_length mn sorted picks Hnd) as H1.
  pose proof (filter_picked_length picks sorted Hnd) as H2.
  assert (H3 : (length (filter (picked picks) sorted)
                + length (filter (fun c => negb (picked picks c)) sorted))%nat = length sorted)
    by apply filter_negb_length.
  lia.
Qed.

(** With at least [mn] candidates and [mn <= mx], [pickDiverse] returns at
    least [mn] charts. *)
Lemma pickDiverse_min cands mn mx :
  (mn <= mx)%nat -> (mn <= length cands)%nat ->
  (mn <= length (pickDiverse cands mn mx))%nat.
Proof.
  intros Hm Hc. unfold pickDiverse, slice0. rewrite length_map, length_firstn.
  set (sorted := sort_by (fun x e : nat * Candidate => qltb (c_score (snd e)) (c_score (snd x)))
                          (tag cands)).
  set (g := greedy mx sorted [] (fun _ => 0%nat) (fun _ => 0%nat)).
  destruct (Nat.ltb_spec (length g) mn) as [Hlt|Hge]; [|lia].
  assert (Hs : length sorted = length cands).
  { unfold sorted. rewrite length_sort_by. unfold tag.
    rewrite length_combine, length_seq. lia. }
  pose proof (backfill_enough mn sorted g (tag_sorted_nodup _ cands)) as H.
  lia.
Qed.

(** ** KPI lemmas *)

Lemma numeric_triad_in rt data cands k :
  In k (numeric_triad rt data cands) ->
  exists c i s, In (c, i, s) cands /\ k_column k = Some c.
Proof.
  induction cands as [|[[c i] s] r IH]; simpl; [intros []|].
  destruct (Nat.ltb _ 25).
  - intros H. apply IH in H as (c' & i' & s' & Hin & Hk). exists c', i', s'. auto.
  - intros [<-|[<-|[<-|[]]]]; exists c, i, s; auto.
Qed.

Lemma numericCandidates_in rt e rc c i s :
  In (c, i, s) (numericCandidates rt e rc) ->
  In (c, i) (columns e) /\ ce_type i = TNumeric /\ s = scoreNumericCol rt c (Some i) rc /\ 0 < s.
Proof.
  unfold numericCandidates, slice0. intros H.
  apply in_firstn, in_sort_by, filter_In in H as [H Hs].
  apply in_map_iff in H as ([c' i'] & Heq & H). simpl in Heq. injection Heq as Hc Hi Hs'. subst c' i' s.
  apply filter_In in H as [H Ht]. simpl in Ht.
  repeat split; auto.
  - destruct (ce_type i); simpl in Ht; congruence.
  - unfold qltb in Hs. apply negb_true_iff in Hs.
    apply Qnot_le_lt. intros Hle. apply Qle_bool_iff in Hle. simpl in Hs. congruence.
Qed.

Lemma generateKPIs_triad rt d ds e k :
  In k (generateKPIs rt (d :: ds) (Some e)) ->
  (k_type k = KSum \/ k_type k = KMean \/ k_type k = KRange) ->
  exists c i s, In (c, i, s) (numericCandidates rt e (length (d :: ds))) /\ k_column k = Some c.
Proof.
  unfold generateKPIs, slice0. intros H Ht.
  apply in_firstn in H as [<-|H]; [simpl in Ht; intuition discriminate|].
  apply in_app_or in H as [H|H].
  { destruct (Nat.ltb _ _) in H; simpl in H; [|contradiction].
    destruct H as [<-|[]]; simpl in Ht; intuition discriminate. }
  apply in_app_or in H as [H|H].
  { destruct (Nat.ltb _ _) in H; simpl in H; [|contradiction].
    destruct H as [<-|[]]; simpl in Ht; intuition discriminate. }
  apply in_app_or in H as [H|H]; [eapply numeric_triad_in; exact H|].
  apply in_app_or in H as [H|H].
  { destruct (pickBestCategorical e _) as [[[? ?] ?]|] in H; simpl in H; [|contradiction].
    destruct H as [<-|[]]; simpl in Ht; intuition discriminate. }
  { destruct (pickBestDate rt e) as [[[[? ?] ?] ?]|] in H; simpl in H; [|contradiction].
    destruct H as [<-|[]]; simpl in Ht; intuition discriminate. }
Qed.

(** ** answerQuestion lemmas *)

Lemma bullets_nonempty i r : bullets (i :: r) <> EmptyString.
Proof. destruct r; simpl; discriminate. Qed.

Ltac branch_nonempty :=
  repeat match goal with
  | |- context [if ?b then _ else _] => destruct b
  | |- context [match ?x with _ => _ end] => destruct x
  end;
  try apply bullets_nonempty; cbn; discriminate.

Lemma answerQuestion_nonempty rt q meta eda kpis insights :
  answerQuestion rt q meta eda kpis insights <> EmptyString.
Proof.
  unfold answerQuestion. cbv zeta.
  branch_nonempty.
Qed.

Lemma answer_time_no_date rt q meta eda kpis insights :
  existsb (fun p => ColType_eqb (ce_type (snd p)) TDate) (columns eda) = false ->
  (isSummary (lower (trim q)) || isWhatStandsOut (lower (trim q)) || isMainMetric (lower (trim q))
   || isOutliers (lower (trim q)) || isSkew (lower (trim q)) || isExplain (lower (trim q))
   || isDistribution (lower (trim q)) || isTop (lower (trim q)))%bool = false ->
  isTime (lower (trim q)) = true ->
  answerQuestion rt q meta eda kpis insights = no_date_sentence.
Proof.
  intros Hd Hn Ht.
  repeat rewrite orb_false_iff in Hn.
  destruct Hn as [[[[[[[H1 H2] H3] H4] H5] H6] H7] H8].
  unfold answerQuestion. cbv zeta.
  rewrite H1, H2, H3, H4, H5, H6, H7, H8, Ht, Hd. reflexivity.
Qed.

(** ** pickDiverse bounds at the [generateCharts] level *)

Lemma generateCharts_nil rt eda : generateCharts rt [] eda = [].
Proof. reflexivity. Qed.

(** ** The kinds of the chart candidates *)

Ltac split_in H :=
  repeat match type of H with
  | In _ (if ?b then _ else _) => destruct b
  | In _ (match ?x with _ => _ end) => destruct x
  | In _ (_ ++ _) => apply in_app_or in H as [H|H]
  | In _ [] => destruct H
  | In _ [_] => destruct H as [<-|[]]
  end.

Lemma bar_candidates_kind rt data eda nc dc col c :
  In c (bar_candidates rt data eda nc dc col) -> exists b, c_spec c = CBar b.
Proof.
  unfold bar_candidates. cbv zeta. intros H.
  split_in H; eexists; reflexivity.
Qed.

Lemma time_candidates_kind rt data nc dcol c :
  In c (time_candidates rt data nc dcol) -> exists t, c_spec c = CTime t.
Proof.
  unfold time_candidates. destruct (nameHintsId dcol); [intros []|].
  intros H. apply in_filter_map in H as (ncol & _ & H).
  destruct (buildTimeSeries rt data dcol ncol) as [[points g]|]; [|discriminate].
  injection H as <-. eexists; reflexivity.
Qed.

Lemma scatter_best_kind rt data nc c :
  In c (scatter_best rt data nc) -> exists s, c_spec c = CScatter s.
Proof.
  unfold scatter_best.
  match goal with |- context [sort_by ?b ?l] =>
    assert (Hs : forall x, In x (sort_by b l) -> exists s, c_spec x = CScatter s) end.
  { intros x Hx. apply in_sort_by, in_filter_map in Hx as ([xc yc] & _ & Hx).
    unfold scatter_candidate in Hx.
    destruct (buildScatter rt data xc yc) as [[[[[p r] n] sx] sy]|]; [|discriminate].
    injection Hx as <-. eexists; reflexivity. }
  destruct (sort_by _ _) as [|x r] eqn:E; [intros []|].
  intros [<-|[]]. apply Hs. left; reflexivity.
Qed.

Lemma corr_candidates_kind rt data eda nc c :
  In c (corr_candidates rt data eda nc) ->
  exists cs ranked matrix n,
    c_spec c = CCorr cs /\ corr_columns cs = ranked /\ corr_matrix cs = matrix /\
    buildCorrMatrix rt data ranked = Some (matrix, n).
Proof.
  unfold corr_candidates. intros H.
  destruct (Nat.ltb _ 4); [destruct H|].
  destruct (Nat.ltb _ 4); [destruct H|].
  destruct (buildCorrMatrix rt data (corr_ranked rt eda nc)) as [[matrix n]|] eqn:E; [|destruct H].
  destruct H as [<-|[]]. do 4 eexists. split; [reflexivity|]. split; [reflexivity|].
  split; [reflexivity|]. exact E.
Qed.

(** The histogram and box candidates come from [numeric_candidates]. *)
Lemma chart_candidates_numeric rt data eda c :
  In c (chart_candidates rt data eda) ->
  match c_spec c with
  | CHistogram _ | CBox _ => exists col, In c (numeric_candidates rt data eda col)
  | _ => True
  end.
Proof.
  unfold chart_candidates. destruct data as [|d ds]; [intros []|].
  destruct (chart_columns rt (d :: ds) eda) as [[nc dc] cc]. intros H.
  apply in_app_or in H as [H|H].
  { apply in_flat_map in H as (col & _ & H). destruct (c_spec c); eauto. }
  apply in_app_or in H as [H|H].
  { apply in_flat_map in H as (col & _ & H). apply bar_candidates_kind in H as (b & ->). exact I. }
  apply in_app_or in H as [H|H].
  { apply in_flat_map in H as (col & _ & H). apply time_candidates_kind in H as (t & ->). exact I. }
  apply in_app_or in H as [H|H].
  { apply scatter_best_kind in H as (s & ->). exact I. }
  { apply corr_candidates_kind in H as (cs & ? & ? & ? & -> & _). exact I. }
Qed.

(** The correlation candidates come from [buildCorrMatrix]. *)
Lemma chart_candidates_corr rt data eda c cs :
  In c (chart_candidates rt data eda) -> c_spec c = CCorr cs ->
  exists n, buildCorrMatrix rt data (corr_columns cs) = Some (corr_matrix cs, n).
Proof.
  unfold chart_candidates. destruct data as [|d ds]; [intros []|].
  destruct (chart_columns rt (d :: ds) eda) as [[nc dc] cc]. intros H Hc.
  apply in_app_or in H as [H|H].
  { apply in_flat_map in H as (col & _ & H).
    unfold numeric_candidates in H. cbv zeta in H. split_in H; discriminate. }
  apply in_app_or in H as [H|H].
  { apply in_flat_map in H as (col & _ & H). apply bar_candidates_kind in H as (b & Hb). congruence. }
  apply in_app_or in H as [H|H].
  { apply in_flat_map in H as (col & _ & H). apply time_candidates_kind in H as (t & Ht). congruence. }
  apply in_app_or in H as [H|H].
  { apply scatter_best_kind in H as (s & Hs). congruence. }
  { apply corr_candidates_kind in H as (cs' & ranked & matrix & n & Hc' & <- & <- & E).
    rewrite Hc in Hc'. injection Hc' as ->. eauto. }
Qed.

(** What a histogram or box candidate of column [col] carries. *)
Lemma numeric_candidates_spec rt data eda col c :
  In c (numeric_candidates rt data eda col) ->
  (forall h, c_spec c = CHistogram h ->
     h_column h = col /\ h_bins h = chooseBins (length (parsed_numbers rt data col)) /\
     computeHistogram (parsed_numbers rt data col) (h_bins h)
       = Some (h_min h, h_max h, h_edges h, h_counts h, h_total h)) /\
  (forall b, c_spec c = CBox b ->
     exists bx, computeBox (parsed_numbers rt data col) = Some bx /\
       b_column b = col /\ b_min b = b_min bx /\ b_q1 b = b_q1 bx /\ b_median b = b_median bx /\
       b_q3 b = b_q3 bx /\ b_max b = b_max bx /\ b_iqr b = b_iqr bx /\
       b_outliers b = slice0 200 (b_outliers bx) /\ b_total b = b_total bx).
Proof.
  unfold numeric_candidates. cbv zeta.
  destruct (isIdLikeNumeric col _ _); [intros []|].
  destruct (Nat.ltb _ 12); [intros []|].
  intros H. apply in_app_or in H as [H|H].
  - destruct (computeHistogram _ _) as [[[[[mn mx] edges] counts] total]|] eqn:E; [|destruct H].
    destruct H as [<-|[]]. split; [|intros b Hb; discriminate].
    intros h Hh. injection Hh as <-. simpl. auto.
  - destruct (computeBox _) as [bx|] eqn:E; [|destruct H].
    destruct H as [<-|[]]. split; [intros h Hh; discriminate|].
    intros b Hb. injection Hb as <-. exists bx. simpl. auto 11.
Qed.

Lemma generateCharts_sub rt data eda s :
  In s (generateCharts rt data eda) ->
  exists c, In c (chart_candidates rt data eda) /\ c_spec c = s.
Proof.
  unfold generateCharts. destruct data as [|d ds]; [intros []|].
  apply pickDiverse_sub.
Qed.

(** ** Histograms *)

Lemma chooseBins_pos n : (0 < chooseBins n)%nat.
Proof. unfold chooseBins. repeat destruct (Nat.leb _ _); lia. Qed.

Lemma bin_index_lt mn span bins v : (0 < bins)%nat -> (bin_index mn span bins v < bins)%nat.
Proof.
  intros H. unfold bin_index.
  assert (H1 : (Z.min (Z.of_nat bins - 1) (Z.max 0 (Qfloor ((v - mn) / span * qnat bins)))
               <= Z.of_nat bins - 1)%Z) by apply Z.le_min_l.
  assert (H2 : (0 <= Z.min (Z.of_nat bins - 1) (Z.max 0 (Qfloor ((v - mn) / span * qnat bins))))%Z)
    by (apply Z.min_glb; lia).
  lia.
Qed.

Lemma fold_incr_spec mn span bins l acc :
  (0 < bins)%nat -> length acc = bins ->
  length (fold_left (fun cs v => incr_at (bin_index mn span bins v) cs) l acc) = bins /\
  sum_nat (fold_left (fun cs v => incr_at (bin_index mn span bins v) cs) l acc)
    = (sum_nat acc + length l)%nat.
Proof.
  revert acc; induction l as [|v r IH]; intros acc Hb Hl; simpl; [split; [exact Hl|lia]|].
  destruct (incr_at_spec (bin_index mn span bins v) acc) as [E1 E2];
    [rewrite Hl; apply bin_index_lt, Hb|].
  destruct (IH (incr_at (bin_index mn span bins v) acc)) as [F1 F2]; [exact Hb|lia|].
  split; [exact F1|]. rewrite F2, E2. lia.
Qed.

Lemma computeHistogram_counts values bins mn mx edges counts total :
  computeHistogram values bins = Some (mn, mx, edges, counts, total) ->
  exists a span, counts = fold_left (fun cs v => incr_at (bin_index a span bins v) cs)
                                    (sort_num values) (repeat 0%nat bins)
                 /\ total = length (sort_num values).
Proof.
  unfold computeHistogram. cbv zeta.
  destruct (sort_num values) as [|x r]; [discriminate|].
  intros H. injection H as _ _ _ <- <-.
  eexists _, _. split; reflexivity.
Qed.

Lemma computeHistogram_sum values bins mn mx edges counts total :
  (0 < bins)%nat ->
  computeHistogram values bins = Some (mn, mx, edges, counts, total) ->
  sum_nat counts = total /\ total = length values.
Proof.
  intros Hb H. apply computeHistogram_counts in H as (a & span & -> & ->).
  destruct (fold_incr_spec a span bins (sort_num values) (repeat 0%nat bins) Hb
              (repeat_length 0%nat bins)) as [_ H2].
  unfold sort_num in *. rewrite length_sort_by in *.
  rewrite H2, sum_nat_repeat0. split; reflexivity.
Qed.

(** The profile of a numeric column counts the parsed values. *)
Lemma runEDA_numeric_count rt data col i :
  lookup col (columns (runEDA rt data)) = Some i -> ce_type i = TNumeric ->
  ce_nonMissingCount i = length (parsed_numbers rt data col).
Proof.
  unfold runEDA. destruct data as [|d ds]; [discriminate|]. cbv zeta. simpl columns.
  intros H Ht. apply lookup_map_key in H. subst i.
  unfold column_eda in *. cbv zeta in *.
  destruct (decideType rt col (column_values (d :: ds) col));
    try (unfold categorical_eda in Ht; discriminate);
    destruct (mem_str col _); try (unfold categorical_eda in Ht; discriminate);
    try (unfold date_eda in Ht; discriminate).
  unfold numeric_eda. cbv zeta. simpl ce_nonMissingCount.
  unfold sort_num. rewrite length_sort_by. unfold parsed_numbers, column_values.
  rewrite filter_map_map. reflexivity.
Qed.

(** ** Box plots *)

Lemma computeBox_spec values bx :
  computeBox values = Some bx ->
  let s := sort_num values in
  let low := b_q1 bx - (3 # 2) * b_iqr bx in
  let high := b_q3 bx + (3 # 2) * b_iqr bx in
  (12 <= length s)%nat /\
  quantileSorted s (1 # 4) = Some (b_q1 bx) /\
  quantileSorted s (1 # 2) = Some (b_median bx) /\
  quantileSorted s (3 # 4) = Some (b_q3 bx) /\
  b_iqr bx = b_q3 bx - b_q1 bx /\
  b_outliers bx = filter (fun v => qltb v low || qltb high v)%bool s /\
  b_min bx = match find (fun v => qleb low v) s with Some v => v | None => nth 0 s 0 end /\
  b_max bx = match find (fun v => qleb v high) (rev s) with
             | Some v => v | None => nth (length s - 1) s 0 end.
Proof.
  unfold computeBox. cbv zeta.
  destruct (Nat.ltb_spec (length (sort_num values)) 12) as [Hl|Hl]; [discriminate|].
  destruct (quantileSorted (sort_num values) (1 # 4)) as [q1|] eqn:E1; [|discriminate].
  destruct (quantileSorted (sort_num values) (1 # 2)) as [m|] eqn:E2; [|discriminate].
  destruct (quantileSorted (sort_num values) (3 # 4)) as [q3|] eqn:E3; [|discriminate].
  intros H. injection H as <-. simpl. repeat split; assumption.
Qed.

Lemma qfloor_frac N a b : Qfloor (inject_Z N * (a # b)) = (N * a / Zpos b)%Z.
Proof. reflexivity. Qed.

Lemma sort_num_strongly l : StronglySorted Qle (sort_num l).
Proof.
  apply Sorted_StronglySorted; [|apply sort_num_sorted].
  intros a b c; apply Qle_trans.
Qed.

Lemma quantile_formula s q v :
  (2 <= length s)%nat -> quantileSorted s q = Some v ->
  let N := (length s - 1)%nat in
  let pos := qnat N * q in
  let k := Z.to_nat (Qfloor pos) in
  v = nth k s 0 + (nth (Nat.min N (k + 1)) s 0 - nth k s 0) * (pos - inject_Z (Qfloor pos)).
Proof.
  intros Hn. unfold quantileSorted.
  destruct (length s) as [|[|n']]; [lia|lia|].
  intros H. injection H as <-. reflexivity.
Qed.

(** The interpolated quantile lies between the two order statistics it
    interpolates. *)
Lemma quantile_between l q v :
  0 <= q <= 1 -> (2 <= length (sort_num l))%nat ->
  quantileSorted (sort_num l) q = Some v ->
  let N := (length (sort_num l) - 1)%nat in
  let k := Z.to_nat (Qfloor (qnat N * q)) in
  (k <= N)%nat /\
  nth k (sort_num l) 0 <= v <= nth (Nat.min N (k + 1)) (sort_num l) 0.
Proof.
  intros Hq Hn H. apply quantile_formula in H; [|exact Hn].
  cbv zeta in *.
  set (s := sort_num l) in *.
  set (N := (length s - 1)%nat) in *.
  set (pos := qnat N * q) in *.
  assert (Hp0 : 0 <= pos).
  { unfold pos, qnat. apply Qmult_le_0_compat; [|tauto].
    change 0 with (inject_Z 0). rewrite <- Zle_Qle. lia. }
  assert (HpN : pos <= qnat N).
  { unfold pos. rewrite <- (Qmult_1_r (qnat N)) at 2. apply Qmult_le_l; [|tauto].
    unfold qnat. change 0 with (inject_Z 0). rewrite <- Zlt_Qlt. unfold N. lia. }
  assert (Hf0 : (0 <= Qfloor pos)%Z).
  { rewrite <- (Qfloor_Z 0). apply Qfloor_resp_le. exact Hp0. }
  assert (HfN : (Qfloor pos <= Z.of_nat N)%Z).
  { rewrite <- (Qfloor_Z (Z.of_nat N)). apply Qfloor_resp_le. exact HpN. }
  assert (Hk : (Z.to_nat (Qfloor pos) <= N)%nat) by lia.
  split; [exact Hk|].
  set (a := nth (Z.to_nat (Qfloor pos)) s 0) in *.
  set (b := nth (Nat.min N (Z.to_nat (Qfloor pos) + 1)) s 0) in *.
  assert (Hab : a <= b).
  { unfold a, b, s. apply sort_num_nth. fold s. unfold N in *.
    revert Hk. generalize (Z.to_nat (Qfloor pos)). intros k Hk.
    destruct (Nat.min_spec (length s - 1) (k + 1)) as [[? ->]|[? ->]]; lia. }
  assert (Hr0 : 0 <= pos - inject_Z (Qfloor pos)).
  { generalize (Qfloor_le pos). intros. lra. }
  assert (Hr1 : pos - inject_Z (Qfloor pos) <= 1).
  { generalize (Qlt_floor pos). rewrite inject_Z_plus. change (inject_Z 1) with 1. intros. lra. }
  rewrite H. split.
  - assert (0 <= (b - a) * (pos - inject_Z (Qfloor pos)))
      by (apply Qmult_le_0_compat; lra). lra.
  - assert ((pos - inject_Z (Qfloor pos)) * (b - a) <= 1 * (b - a))
      by (apply Qmult_le_compat_r; lra). lra.
Qed.

Lemma quartile_indices N :
  (11 <= N)%nat ->
  let k1 := Z.to_nat (Qfloor (qnat N * (1 # 4))) in
  let km := Z.to_nat (Qfloor (qnat N * (1 # 2))) in
  let k3 := Z.to_nat (Qfloor (qnat N * (3 # 4))) in
  (Nat.min N (k1 + 1) <= km)%nat /\ (Nat.min N (km + 1) <= k3)%nat /\ (k3 <= N)%nat.
Proof.
  intros H. cbv zeta. unfold qnat. rewrite !qfloor_frac.
  destruct (Nat.min_spec N (Z.to_nat (Z.of_nat N * 1 / 4) + 1)) as [[? ->]|[? ->]];
  destruct (Nat.min_spec N (Z.to_nat (Z.of_nat N * 1 / 2) + 1)) as [[? ->]|[? ->]];
  Z.div_mod_to_equations; lia.
Qed.

Lemma find_first_R (R : Q -> Q -> Prop) (p : Q -> bool) l v x :
  (forall a, R a a) -> StronglySorted R l -> find p l = Some v -> In x l -> p x = true -> R v x.
Proof.
  intros Hr. induction l as [|a r IH]; simpl; [discriminate|].
  intros Hs. inversion Hs as [|? ? Hs' Hall]; subst. rewrite Forall_forall in Hall.
  destruct (p a) eqn:Ep.
  - intros Hv. injection Hv as <-. intros [<-|Hx] _; [apply Hr|apply Hall, Hx].
  - intros Hv [<-|Hx] Hp; [congruence|]. apply IH; assumption.
Qed.

Lemma SS_snoc (R : Q -> Q -> Prop) l a :
  StronglySorted R l -> (forall x, In x l -> R x a) -> StronglySorted R (l ++ [a]).
Proof.
  induction l as [|b r IH]; simpl; intros Hs Ha.
  - repeat constructor.
  - inversion Hs as [|? ? Hs' Hall]; subst. constructor.
    + apply IH; auto.
    + apply Forall_app. split; [exact Hall|]. constructor; [apply Ha; left; reflexivity|constructor].
Qed.

Lemma SS_rev (R : Q -> Q -> Prop) l :
  StronglySorted R l -> StronglySorted (fun a b => R b a) (rev l).
Proof.
  induction l as [|a r IH]; simpl; intros Hs; [constructor|].
  inversion Hs as [|? ? Hs' Hall]; subst. rewrite Forall_forall in Hall.
  apply SS_snoc; [apply IH, Hs'|]. intros x Hx. apply Hall, in_rev, Hx.
Qed.

Lemma find_exists (p : Q -> bool) l x :
  In x l -> p x = true -> exists v, find p l = Some v.
Proof.
  intros Hx Hp. destruct (find p l) as [v|] eqn:E; [eauto|].
  rewrite (find_none p l E x Hx) in Hp. discriminate.
Qed.

(** Quartiles and whisker ends of [computeBox] are ordered around the
    median, and every outlier lies strictly outside the fences. *)
Lemma computeBox_order values bx :
  computeBox values = Some bx ->
  b_q1 bx <= b_median bx <= b_q3 bx /\ b_min bx <= b_median bx <= b_max bx /\
  b_iqr bx = b_q3 bx - b_q1 bx /\
  (forall x, In x (b_outliers bx) ->
     x < b_q1 bx - (3 # 2) * b_iqr bx \/ b_q3 bx + (3 # 2) * b_iqr bx < x).
Proof.
  intros H. apply computeBox_spec in H. cbv zeta in H.
  destruct H as (Hn & E1 & E2 & E3 & Hiqr & Hout & Hmin & Hmax).
  set (s := sort_num values) in *.
  assert (Hn2 : (2 <= length (sort_num values))%nat) by (fold s; lia).
  destruct (quantile_between values (1 # 4) (b_q1 bx)) as [K1 [A1 B1]]; [split; discriminate|exact Hn2|exact E1|].
  destruct (quantile_between values (1 # 2) (b_median bx)) as [Km [Am Bm]]; [split; discriminate|exact Hn2|exact E2|].
  destruct (quantile_between values (3 # 4) (b_q3 bx)) as [K3 [A3 B3]]; [split; discriminate|exact Hn2|exact E3|].
  fold s in K1, A1, B1, Km, Am, Bm, K3, A3, B3.
  destruct (quartile_indices (length s - 1)) as (I1 & I2 & I3); [lia|].
  set (N := (length s - 1)%nat) in *.
  set (k1 := Z.to_nat (Qfloor (qnat N * (1 # 4)))) in *.
  set (km := Z.to_nat (Qfloor (qnat N * (1 # 2)))) in *.
  set (k3 := Z.to_nat (Qfloor (qnat N * (3 # 4)))) in *.
  assert (S1 : nth (Nat.min N (k1 + 1)) s 0 <= nth km s 0) by (apply sort_num_nth; fold s; lia).
  assert (S2 : nth (Nat.min N (km + 1)) s 0 <= nth k3 s 0) by (apply sort_num_nth; fold s; lia).
  assert (Q1 : b_q1 bx <= b_median bx) by lra.
  assert (Q3 : b_median bx <= b_q3 bx) by lra.
  split; [split; assumption|].
  assert (Hss : StronglySorted Qle s) by apply sort_num_strongly.
  split; [split|split; [exact Hiqr|]].
  - set (low := b_q1 bx - (3 # 2) * b_iqr bx) in *.
    assert (Hlow : qleb low (nth km s 0) = true).
    { apply Qle_bool_iff. unfold low. rewrite Hiqr. lra. }
    assert (Hin : In (nth km s 0) s) by (apply nth_In; lia).
    destruct (find_exists (fun v => qleb low v) _ _ Hin Hlow) as [v Hv].
    rewrite Hmin, Hv.
    assert (v <= nth km s 0) by (apply (find_first_R Qle (fun v => qleb low v) s); auto; apply Qle_refl).
    lra.
  - set (high := b_q3 bx + (3 # 2) * b_iqr bx) in *.
    set (j := Nat.min N (km + 1)) in *.
    assert (Hhigh : qleb (nth j s 0) high = true).
    { apply Qle_bool_iff. unfold high. rewrite Hiqr. lra. }
    assert (Hin : In (nth j s 0) (rev s)) by (apply in_rev; rewrite rev_involutive; apply nth_In; unfold j; lia).
    destruct (find_exists (fun v => qleb v high) _ _ Hin Hhigh) as [w Hw].
    rewrite Hmax, Hw.
    assert (nth j s 0 <= w).
    { apply (find_first_R (fun a b => b <= a) (fun v => qleb v high) (rev s)); auto.
      - intros a; apply Qle_refl.
      - apply SS_rev, Hss. }
    lra.
  - intros x Hx. rewrite Hout in Hx. apply filter_In in Hx as [_ Hx].
    unfold qltb in Hx. apply orb_true_iff in Hx as [Hx|Hx]; apply negb_true_iff in Hx;
      [left|right]; apply Qnot_le_lt; intros Hle; apply Qle_bool_iff in Hle; congruence.
Qed.

Lemma first_hist_in l h : first_hist l = Some h -> In (CHistogram h) l.
Proof.
  induction l as [|s r IH]; simpl; [discriminate|].
  destruct s; try (intros H; right; apply IH, H). intros H; injection H as <-; left; reflexivity.
Qed.

Lemma first_box_in l b : first_box l = Some b -> In (CBox b) l.
Proof.
  induction l as [|s r IH]; simpl; [discriminate|].
  destruct s; try (intros H; right; apply IH, H). intros H; injection H as <-; left; reflexivity.
Qed.

Lemma first_corr_in l c : first_corr l = Some c -> In (CCorr c) l.
Proof.
  induction l as [|s r IH]; simpl; [discriminate|].
  destruct s; try (intros H; right; apply IH, H). intros H; injection H as <-; left; reflexivity.
Qed.

(** A box chart of [generateCharts] is the box of one column's parsed
    values, with its outliers cut to 200. *)
Lemma generateCharts_box rt data eda b :
  In (CBox b) (generateCharts rt data eda) ->
  exists col bx, computeBox (parsed_numbers rt data col) = Some bx /\
    b_column b = col /\ b_min b = b_min bx /\ b_q1 b = b_q1 bx /\ b_median b = b_median bx /\
    b_q3 b = b_q3 bx /\ b_max b = b_max bx /\ b_iqr b = b_iqr bx /\
    b_outliers b = slice0 200 (b_outliers bx) /\ b_total b = b_total bx.
Proof.
  intros H. apply generateCharts_sub in H as (c & Hc & Hs).
  pose proof (chart_candidates_numeric rt data eda c Hc) as Hn. rewrite Hs in Hn.
  destruct Hn as [col Hcol].
  destruct (proj2 (numeric_candidates_spec rt data eda col c Hcol) b Hs) as (bx & Hbx).
  exists col, bx. exact Hbx.
Qed.

(** A histogram chart of [generateCharts] is the histogram of its column's
    parsed values. *)
Lemma generateCharts_hist rt data eda h :
  In (CHistogram h) (generateCharts rt data eda) ->
  h_bins h = chooseBins (length (parsed_numbers rt data (h_column h))) /\
  computeHistogram (parsed_numbers rt data (h_column h)) (h_bins h)
    = Some (h_min h, h_max h, h_edges h, h_counts h, h_total h).
Proof.
  intros H. apply generateCharts_sub in H as (c & Hc & Hs).
  pose proof (chart_candidates_numeric rt data eda c Hc) as Hn. rewrite Hs in Hn.
  destruct Hn as [col Hcol].
  destruct (proj1 (numeric_candidates_spec rt data eda col c Hcol) h Hs) as (-> & Hb & E).
  split; assumption.
Qed.

(** ** Outlier insights *)

Lemma ins_key_sorted {A} (key : A -> Q) x l :
  Sorted (fun a b => key b <= key a) l ->
  Sorted (fun a b => key b <= key a) (ins_by (fun x e => qltb (key e) (key x)) x l).
Proof.
  induction 1 as [|e r Hs IH Hd]; simpl.
  - repeat constructor.
  - unfold qltb at 1. destruct (Qle_bool (key x) (key e)) eqn:E; simpl.
    + apply Qle_bool_iff in E. constructor; [exact IH|].
      destruct r as [|f r']; simpl; [constructor; exact E|].
      inversion Hd; subst. destruct (qltb (key f) (key x)); constructor; assumption.
    + constructor; [constructor; assumption|]. constructor.
      apply Qlt_le_weak, Qnot_le_lt. intro H. apply Qle_bool_iff in H. congruence.
Qed.

Lemma sort_key_sorted {A} (key : A -> Q) l :
  StronglySorted (fun a b => key b <= key a) (sort_by (fun x e => qltb (key e) (key x)) l).
Proof.
  apply Sorted_StronglySorted; [intros a b c H1 H2; eapply Qle_trans; eassumption|].
  unfold sort_by.
  assert (H : forall acc, Sorted (fun a b => key b <= key a) acc ->
            Sorted (fun a b => key b <= key a)
              (fold_left (fun acc x => ins_by (fun x e => qltb (key e) (key x)) x acc) l acc)).
  { induction l as [|x r IH]; intros acc Hacc; simpl; [exact Hacc|].
    apply IH, ins_key_sorted, Hacc. }
  apply H. constructor.
Qed.

Lemma SS_app_rel {A} (R : A -> A -> Prop) a b x y :
  StronglySorted R (a ++ b) -> In x a -> In y b -> R x y.
Proof.
  induction a as [|z r IH]; simpl; [intros _ []|].
  intros Hs. inversion Hs as [|? ? Hs' Hall]; subst. rewrite Forall_forall in Hall.
  intros [<-|Hx] Hy; [apply Hall, in_or_app; right; exact Hy|apply IH; assumption].
Qed.

(** [top_scored k] keeps at most [k] candidates, and none it drops scores
    above one it keeps. *)
Lemma top_scored_spec k (l : list Scored) :
  (length (top_scored k l) <= k)%nat /\
  (forall x, In x (top_scored k l) -> In x l) /\
  (forall x y, In x (top_scored k l) -> In y l -> ~ In y (top_scored k l) ->
     snd (fst y) <= snd (fst x)).
Proof.
  unfold top_scored, slice0.
  set (s := sort_by (fun x e : Scored => qltb (snd (fst e)) (snd (fst x))) l).
  split; [apply firstn_le_length|]. split.
  - intros x Hx. apply in_firstn, in_sort_by in Hx. exact Hx.
  - intros x y Hx Hy Hny.
    assert (Hy' : In y s) by (eapply Permutation_in; [symmetry; apply sort_by_perm|exact Hy]).
    rewrite <- (firstn_skipn k s) in Hy'. apply in_app_or in Hy' as [Hy'|Hy']; [contradiction|].
    apply (SS_app_rel (fun a b : Scored => snd (fst b) <= snd (fst a)) (firstn k s) (skipn k s));
      [rewrite firstn_skipn; apply (sort_key_sorted (fun a : Scored => snd (fst a)))|assumption|assumption].
Qed.

Lemma outlier_candidates_warning m col info c s i :
  In (c, s, i) (outlier_candidates m col info) -> i_severity i = SWarning ->
  c = col /\ i_id i = ("outlier-" ++ normalizeKey col)%string /\
  exists mx mean, ce_type info = TNumeric /\ ce_max info = Some mx /\ ce_mean info = Some mean /\
    ~ mean == 0 /\ 3 <= mx / qmax (1 # 1000000000) mean /\
    s = (if match m with Some mm => String.eqb mm col | None => false end then 100 else 0)
        + mx / qmax (1 # 1000000000) mean * 10.
Proof.
  unfold outlier_candidates. cbv zeta.
  destruct (ce_type info) eqn:Et; simpl; try (intros []).
  destruct (ce_max info) as [mx|]; [|intros []].
  destruct (ce_mean info) as [mean|]; [|intros []].
  destruct (qeqb mean 0) eqn:Eq; [intros []|].
  destruct (qleb 3 (mx / qmax (1 # 1000000000) mean)) eqn:Er; simpl; [|intros []].
  intros H Hs. destruct H as [H|H].
  - injection H as <- <- <-. simpl. split; [reflexivity|]. split; [reflexivity|].
    exists mx, mean. repeat split; try reflexivity.
    + intros He. apply Qeq_bool_iff in He. unfold qeqb in Eq. congruence.
    + apply Qle_bool_iff, Er.
  - apply in_app_or in H as [H|H].
    + destruct (ce_min info) as [mn|]; [|destruct H].
      destruct (qltb mn 0); [|destruct H].
      destruct H as [H|[]]. injection H as _ _ <-. discriminate.
    + match type of H with In _ (if ?b then _ else _) => destruct b end; [|destruct H].
      destruct H as [H|[]]. injection H as _ _ <-. discriminate.
Qed.

Lemma outlier_candidates_complete m col info mx mean :
  ce_type info = TNumeric -> ce_max info = Some mx -> ce_mean info = Some mean ->
  ~ mean == 0 -> 3 <= mx / qmax (1 # 1000000000) mean ->
  exists s i, In (col, s, i) (outlier_candidates m col info) /\ i_severity i = SWarning.
Proof.
  intros Ht Hmx Hmean Hnz Hr. unfold outlier_candidates. cbv zeta.
  rewrite Ht, Hmx, Hmean. simpl.
  destruct (qeqb mean 0) eqn:Eq.
  { unfold qeqb in Eq. apply Qeq_bool_iff in Eq. contradiction. }
  assert (Er : qleb 3 (mx / qmax (1 # 1000000000) mean) = true) by (apply Qle_bool_iff, Hr).
  rewrite Er. simpl. eexists _, _. split; [left; reflexivity|reflexivity].
Qed.

(** ** Correlation matrices *)

Lemma Qmult_comm_eq (a b : Q) : a * b = b * a.
Proof. destruct a as [a1 a2], b as [b1 b2]. unfold Qmult. simpl. rewrite Z.mul_comm, Pos.mul_comm. reflexivity. Qed.

Lemma Qsq_nonneg (q : Q) : 0 <= q * q.
Proof. destruct q as [a b]. unfold Qle, Qmult. simpl. nia. Qed.

Lemma pearson_sums_fold_swap mx my x y n dx dy :
  fold_left (fun acc p => let '(num, dx, dy) := acc in
                          let a := fst p - my in let b := snd p - mx in
                          (num + a * b, dx + a * a, dy + b * b)) (combine y x) (n, dy, dx) =
  let '(n', dx', dy') :=
    fold_left (fun acc p => let '(num, dx, dy) := acc in
                            let a := fst p - mx in let b := snd p - my in
                            (num + a * b, dx + a * a, dy + b * b)) (combine x y) (n, dx, dy) in
  (n', dy', dx').
Proof.
  revert y n dx dy. induction x as [|u x IH]; intros [|v y] n dx dy; try reflexivity.
  cbn [combine fold_left fst snd]. rewrite (Qmult_comm_eq (v - my) (u - mx)). apply IH.
Qed.

Lemma pearson_sums_swap mx my x y :
  pearson_sums my mx (combine y x) =
  let '(n, dx, dy) := pearson_sums mx my (combine x y) in (n, dy, dx).
Proof. unfold pearson_sums. apply pearson_sums_fold_swap. Qed.

Lemma pearson_sym rt x y : pearson rt x y = pearson rt y x.
Proof.
  unfold pearson. rewrite Nat.eqb_sym.
  destruct (Nat.eqb (length y) (length x)) eqn:E; [|reflexivity].
  apply Nat.eqb_eq in E. rewrite E. cbn [negb orb].
  destruct (Nat.ltb (length x) 8); [reflexivity|].
  rewrite (pearson_sums_swap (mean y) (mean x) y x).
  destruct (pearson_sums (mean y) (mean x) (combine y x)) as [[n dx] dy].
  rewrite (Qmult_comm_eq dy dx). reflexivity.
Qed.

(** The sum of squared deviations that [pearson x x] accumulates. *)
Definition sq_dev (m : Q) (x : list Q) (t : Q) : Q :=
  fold_left (fun t v => t + (v - m) * (v - m)) x t.

Lemma pearson_sums_diag_fold m x t :
  fold_left (fun acc p => let '(num, dx, dy) := acc in
                          let a := fst p - m in let b := snd p - m in
                          (num + a * b, dx + a * a, dy + b * b)) (combine x x) (t, t, t) =
  (sq_dev m x t, sq_dev m x t, sq_dev m x t).
Proof.
  revert t. induction x as [|v x IH]; intros t; [reflexivity|].
  cbn [combine fold_left fst snd]. apply IH.
Qed.

Lemma sq_dev_ge m x t :
  t <= sq_dev m x t /\ (forall v, In v x -> t + (v - m) * (v - m) <= sq_dev m x t).
Proof.
  revert t. induction x as [|u x IH]; intros t; simpl.
  - split; [apply Qle_refl|intros _ []].
  - destruct (IH (t + (u - m) * (u - m))) as [H1 H2].
    assert (Hs := Qsq_nonneg (u - m)).
    split; [lra|]. intros v [<-|Hv]; [exact H1|].
    specialize (H2 v Hv). assert (Hs' := Qsq_nonneg (v - m)). lra.
Qed.

Lemma sq_dev_pos m x :
  (exists a b, In a x /\ In b x /\ ~ a == b) -> 0 < sq_dev m x 0.
Proof.
  intros (a & b & Ha & Hb & Hab).
  destruct (sq_dev_ge m x 0) as [H0 Hv].
  destruct (Qle_lt_or_eq 0 (sq_dev m x 0) H0) as [Hlt|Heq]; [exact Hlt|].
  exfalso. apply Hab.
  assert (Hza : (a - m) * (a - m) == 0).
  { specialize (Hv a Ha). assert (Hs := Qsq_nonneg (a - m)). lra. }
  assert (Hzb : (b - m) * (b - m) == 0).
  { specialize (Hv b Hb). assert (Hs := Qsq_nonneg (b - m)). lra. }
  apply Qmult_integral in Hza. apply Qmult_integral in Hzb.
  destruct Hza as [Hza|Hza]; destruct Hzb as [Hzb|Hzb]; lra.
Qed.

Lemma pearson_diag rt x :
  (forall q, 0 <= q -> rt_sqrt rt (q * q) == q) ->
  (8 <= length x)%nat -> (exists a b, In a x /\ In b x /\ ~ a == b) ->
  exists r, pearson rt x x = Some r /\ r == 1.
Proof.
  intros Hsq Hlen Hd. unfold pearson. rewrite Nat.eqb_refl.
  assert (Hl : Nat.ltb (length x) 8 = false) by (apply Nat.ltb_ge; exact Hlen).
  rewrite Hl. cbn [negb orb]. unfold pearson_sums. rewrite pearson_sums_diag_fold.
  assert (Hp := sq_dev_pos (mean x) x Hd).
  set (u := sq_dev (mean x) x 0) in *.
  assert (Hden : rt_sqrt rt (u * u) == u) by (apply Hsq; lra).
  destruct (qeqb (rt_sqrt rt (u * u)) 0) eqn:E.
  { unfold qeqb in E. apply Qeq_bool_iff in E. lra. }
  eexists. split; [reflexivity|].
  rewrite Hden. unfold Qdiv. apply Qmult_inv_r. lra.
Qed.

Lemma buildCorrMatrix_entries rt data cols matrix n :
  buildCorrMatrix rt data cols = Some (matrix, n) ->
  forall i j, (i < length cols)%nat -> (j < length cols)%nat ->
  (40 <= length (corr_complete rt data cols))%nat /\
  nth j (nth i matrix []) 0 =
  match pearson rt (corr_series (corr_complete rt data cols) i)
                   (corr_series (corr_complete rt data cols) j) with
  | Some r => r | None => 0 end.
Proof.
  unfold buildCorrMatrix. cbv zeta. intros H i j Hi Hj.
  match type of H with (if Nat.ltb ?n 40 then _ else _) = _ =>
    destruct (Nat.ltb n 40) eqn:E; [discriminate|] end.
  injection H as <- _. apply Nat.ltb_ge in E.
  rewrite nth_map_seq by exact Hi. rewrite nth_map_seq by exact Hj.
  split; [|reflexivity].
  destruct cols as [|c cs]; [simpl in Hi; lia|exact E].
Qed.

Lemma sqrt_floor_square q : 0 <= q -> sqrt_floor (q * q) == q.
Proof.
  destruct q as [a b]. unfold Qle. simpl. intros Ha.
  unfold sqrt_floor, Qmult. simpl.
  destruct (Z.ltb (a * a) 0) eqn:E; [apply Z.ltb_lt in E; nia|].
  rewrite Pos2Z.inj_mul.
  replace (a * a * (Z.pos b * Z.pos b))%Z with ((a * Z.pos b) * (a * Z.pos b))%Z by ring.
  rewrite Z.sqrt_square by nia.
  unfold Qeq. simpl. rewrite Pos2Z.inj_mul. ring.
Qed.

(** ** Chart helpers: shapes and bounds *)

Lemma match_nonnil {A B} (l : list A) (b d : B) :
  l <> [] -> match l with [] => d | _ :: _ => b end = b.
Proof. destruct l; [congruence|reflexivity]. Qed.

Lemma length_incr_at i l : length (incr_at i l) = length l.
Proof. revert i; induction l as [|x r IH]; intros [|i]; simpl; auto. Qed.

Lemma length_fold_incr (f : Q -> nat) vs cs :
  length (fold_left (fun cs v => incr_at (f v) cs) vs cs) = length cs.
Proof.
  revert cs; induction vs as [|v r IH]; intros cs; simpl; [reflexivity|].
  rewrite IH. apply length_incr_at.
Qed.

Lemma sort_num_in l x : In x (sort_num l) <-> In x l.
Proof.
  split; intros H; [apply in_sort_by in H; exact H|].
  eapply Permutation_in; [symmetry; apply sort_by_perm|exact H].
Qed.

Lemma length_sort_num l : length (sort_num l) = length l.
Proof. apply length_sort_by. Qed.

(** The first and last entries of [sort_num l] bound every value of [l]. *)
Lemma sort_num_bounds l x :
  In x l -> nth 0 (sort_num l) 0 <= x <= nth (length l - 1) (sort_num l) 0.
Proof.
  intros Hx. apply sort_num_in in Hx.
  destruct (In_nth _ _ 0 Hx) as (i & Hi & <-).
  rewrite length_sort_num in Hi.
  split; apply sort_num_nth; rewrite length_sort_num; lia.
Qed.

Lemma sort_num_ends_in l :
  l <> [] -> In (nth 0 (sort_num l) 0) l /\ In (nth (length l - 1) (sort_num l) 0) l.
Proof.
  intros Hne. assert (Hl : (0 < length l)%nat) by (destruct l; [congruence|simpl; lia]).
  split; apply sort_num_in, nth_In; rewrite length_sort_num; lia.
Qed.

Lemma SS_filter {A} (R : A -> A -> Prop) (f : A -> bool) l :
  StronglySorted R l -> StronglySorted R (filter f l).
Proof.
  induction 1 as [|a r Hs IH Hall]; simpl; [constructor|].
  destruct (f a); [|exact IH]. constructor; [exact IH|].
  rewrite Forall_forall in *. intros x Hx. apply filter_In in Hx as [Hx _]. auto.
Qed.

Lemma Permutation_filter_l {A} (f : A -> bool) l l' :
  Permutation l l' -> Permutation (filter f l) (filter f l').
Proof.
  induction 1; simpl.
  - constructor.
  - destruct (f x); [constructor|]; assumption.
  - destruct (f x), (f y); try constructor; try apply Permutation_refl.
  - eapply Permutation_trans; eassumption.
Qed.

Lemma computeBox_total values bx :
  computeBox values = Some bx -> b_total bx = length values.
Proof.
  unfold computeBox. cbv zeta.
  destruct (Nat.ltb (length (sort_num values)) 12); [discriminate|].
  destruct (quantileSorted (sort_num values) (1 # 4)); [|discriminate].
  destruct (quantileSorted (sort_num values) (1 # 2)); [|discriminate].
  destruct (quantileSorted (sort_num values) (3 # 4)); [|discriminate].
  intros H. injection H as <-. simpl. apply length_sort_num.
Qed.

Lemma computeBox_short values : (length values < 12)%nat -> computeBox values = None.
Proof.
  intros H. unfold computeBox. rewrite length_sort_num.
  destruct (Nat.ltb_spec (length values) 12); [reflexivity|lia].
Qed.

Lemma computeBox_whiskers values bx :
  computeBox values = Some bx ->
  In (b_min bx) values /\ In (b_max bx) values /\
  b_q1 bx - (3 # 2) * b_iqr bx <= b_min bx /\ b_max bx <= b_q3 bx + (3 # 2) * b_iqr bx.
Proof.
  intros H. assert (Hord := computeBox_order values bx H).
  apply computeBox_spec in H. cbv zeta in H.
  destruct H as (Hn & E1 & E2 & E3 & Hiqr & Hout & Hmin & Hmax).
  destruct Hord as ([Q1 Q3] & _ & _ & _).
  set (s := sort_num values) in *.
  assert (Hn2 : (2 <= length (sort_num values))%nat) by (fold s; lia).
  destruct (quantile_between values (1 # 4) (b_q1 bx)) as [K1 [A1 B1]]; [split; discriminate|exact Hn2|exact E1|].
  destruct (quantile_between values (3 # 4) (b_q3 bx)) as [K3 [A3 B3]]; [split; discriminate|exact Hn2|exact E3|].
  fold s in K1, A1, B1, K3, A3, B3.
  set (N := (length s - 1)%nat) in *.
  set (k1 := Z.to_nat (Qfloor (qnat N * (1 # 4)))) in *.
  set (k3 := Z.to_nat (Qfloor (qnat N * (3 # 4)))) in *.
  set (low := b_q1 bx - (3 # 2) * b_iqr bx) in *.
  set (high := b_q3 bx + (3 # 2) * b_iqr bx) in *.
  assert (Hlow : qleb low (nth (Nat.min N (k1 + 1)) s 0) = true).
  { apply Qle_bool_iff. unfold low. rewrite Hiqr. lra. }
  assert (Hin1 : In (nth (Nat.min N (k1 + 1)) s 0) s) by (apply nth_In; lia).
  destruct (find_exists (fun v => qleb low v) _ _ Hin1 Hlow) as [v Hv].
  assert (Hhigh : qleb (nth k3 s 0) high = true).
  { apply Qle_bool_iff. unfold high. rewrite Hiqr. lra. }
  assert (Hin3 : In (nth k3 s 0) (rev s)) by (apply in_rev; rewrite rev_involutive; apply nth_In; lia).
  destruct (find_exists (fun v => qleb v high) _ _ Hin3 Hhigh) as [w Hw].
  rewrite Hmin, Hv, Hmax, Hw.
  apply find_some in Hv as [Hv1 Hv2]. apply find_some in Hw as [Hw1 Hw2].
  apply in_rev in Hw1.
  split; [apply sort_num_in, Hv1|]. split; [apply sort_num_in, Hw1|].
  split; apply Qle_bool_iff; assumption.
Qed.

Lemma quantileSorted_some l q v :
  0 <= q <= 1 -> quantileSorted (sort_num l) q = Some v ->
  nth 0 (sort_num l) 0 <= v <= nth (length l - 1) (sort_num l) 0.
Proof.
  intros Hq H.
  destruct (Nat.le_gt_cases 2 (length (sort_num l))) as [H2|H2].
  - destruct (quantile_between l q v Hq H2 H) as (Hk & A & B).
    assert (Hlen := length_sort_num l).
    remember (length (sort_num l) - 1)%nat as N eqn:HN.
    remember (Z.to_nat (Qfloor (qnat N * q))) as k eqn:Hkq.
    assert (nth 0 (sort_num l) 0 <= nth k (sort_num l) 0) by (apply sort_num_nth; lia).
    assert (nth (Nat.min N (k + 1)) (sort_num l) 0 <= nth (length l - 1) (sort_num l) 0)
      by (apply sort_num_nth; lia).
    lra.
  - unfold quantileSorted in H. rewrite length_sort_num in *.
    destruct (length l) as [|[|m]] eqn:El; [discriminate| |lia].
    injection H as <-. simpl. split; apply Qle_refl.
Qed.

Lemma quantileSorted_none l q : quantileSorted (sort_num l) q = None <-> l = [].
Proof.
  unfold quantileSorted. rewrite length_sort_num.
  destruct l as [|x r]; [split; reflexivity|].
  simpl. destruct (length r); split; discriminate.
Qed.

Lemma sum_nat_app a b : sum_nat (a ++ b) = (sum_nat a + sum_nat b)%nat.
Proof.
  unfold sum_nat. rewrite fold_left_app. rewrite fold_add_acc. reflexivity.
Qed.

Lemma sumQ_acc l a : fold_left Qplus l a == a + sumQ l.
Proof.
  unfold sumQ. revert a. induction l as [|x r IH]; intros a; simpl.
  - ring.
  - rewrite (IH (a + x)), (IH (0 + x)). ring.
Qed.

Lemma sumQ_cons x l : sumQ (x :: l) == x + sumQ l.
Proof. unfold sumQ at 1. simpl. rewrite sumQ_acc. ring. Qed.

Lemma sumQ_app a b : sumQ (a ++ b) == sumQ a + sumQ b.
Proof. unfold sumQ at 1. rewrite fold_left_app, sumQ_acc. fold (sumQ a). reflexivity. Qed.

Lemma sumQ_perm l l' : Permutation l l' -> sumQ l == sumQ l'.
Proof.
  induction 1.
  - reflexivity.
  - rewrite !sumQ_cons, IHPermutation. reflexivity.
  - rewrite !sumQ_cons. ring.
  - rewrite IHPermutation1. exact IHPermutation2.
Qed.

Lemma agg_add_keys k y m : NoDup (map fst m) -> NoDup (map fst (agg_add k y m)).
Proof.
  assert (Hk : forall m, In k (map fst (agg_add k y m)) /\
             (forall x, In x (map fst (agg_add k y m)) -> x = k \/ In x (map fst m))).
  { clear m. intros m. induction m as [|[k' v] r [IH1 IH2]]; simpl.
    - split; [left; reflexivity|]. intros x [<-|[]]; left; reflexivity.
    - destruct (String.eqb_spec k k') as [<-|Hne]; simpl.
      + split; [left; reflexivity|]. intros x [<-|Hx]; [right; left|right; right]; auto.
      + split; [right; exact IH1|]. intros x [<-|Hx]; [right; left; reflexivity|].
        destruct (IH2 x Hx) as [H|H]; [left; exact H|right; right; exact H]. }
  induction m as [|[k' v] r IH]; simpl; intros Hnd.
  - constructor; [intros []|constructor].
  - inversion Hnd as [|? ? Hnin Hnd']; subst.
    destruct (String.eqb_spec k k') as [<-|Hne]; simpl; constructor; auto.
    intros Hx. destruct (proj2 (Hk r) k' Hx) as [H|H]; [congruence|contradiction].
Qed.

Lemma agg_add_sum k y m : sumQ (map snd (agg_add k y m)) == sumQ (map snd m) + y.
Proof.
  induction m as [|[k' v] r IH]; simpl.
  - rewrite sumQ_cons. unfold sumQ. simpl. ring.
  - destruct (String.eqb k k'); simpl; rewrite !sumQ_cons; [ring|]. rewrite IH. ring.
Qed.

Lemma fold_agg_add (key : Z -> string) (l : list (Z * Q)) m :
  NoDup (map fst m) ->
  NoDup (map fst (fold_left (fun m p => agg_add (key (fst p)) (snd p) m) l m)) /\
  sumQ (map snd (fold_left (fun m p => agg_add (key (fst p)) (snd p) m) l m))
    == sumQ (map snd m) + sumQ (map snd l).
Proof.
  revert m. induction l as [|p r IH]; intros m Hnd; simpl.
  - split; [exact Hnd|]. unfold sumQ at 3. simpl. ring.
  - destruct (IH (agg_add (key (fst p)) (snd p) m)) as [H1 H2]; [apply agg_add_keys, Hnd|].
    split; [exact H1|]. rewrite H2, agg_add_sum, sumQ_cons. ring.
Qed.

Lemma combine_fst_snd {A B} (l : list (A * B)) : combine (map fst l) (map snd l) = l.
Proof. induction l as [|[a b] r IH]; simpl; [reflexivity|]. rewrite IH. reflexivity. Qed.

Lemma range_step_in fuel start stop step i :
  In i (range_step fuel start stop step) -> (i < stop)%nat.
Proof.
  revert start. induction fuel as [|f IH]; intros start; simpl; [intros []|].
  destruct (Nat.ltb_spec start stop) as [Hlt|Hge]; [|intros []].
  intros [<-|Hi]; [assumption|eapply IH; exact Hi].
Qed.

Lemma range_step_length fuel start stop step m :
  (forall k, (k < m)%nat -> (start + k * step < stop)%nat) -> (m <= fuel)%nat ->
  (m <= length (range_step fuel start stop step))%nat.
Proof.
  revert fuel start. induction m as [|m IH]; intros fuel start Hk Hf; [lia|].
  destruct fuel as [|f]; [lia|]. simpl.
  assert (H0 := Hk 0%nat ltac:(lia)). rewrite Nat.add_0_r in H0. simpl in H0.
  destruct (Nat.ltb_spec start stop); [|lia]. simpl.
  apply le_n_S, IH; [|lia].
  intros k Hk'. specialize (Hk (S k) ltac:(lia)). simpl in Hk. lia.
Qed.

Lemma sumQ_const l c : (forall x, In x l -> x == c) -> sumQ l == qnat (length l) * c.
Proof.
  induction l as [|x r IH]; intros H.
  - unfold sumQ. simpl. change (qnat 0) with 0. ring.
  - rewrite sumQ_cons, IH by (intros y Hy; apply H; right; exact Hy).
    assert (Hx : x == c) by (apply H; left; reflexivity). simpl length. rewrite Hx.
    unfold qnat. rewrite Nat2Z.inj_succ. unfold Z.succ. rewrite inject_Z_plus. ring.
Qed.

Lemma mean_const l c : l <> [] -> (forall x, In x l -> x == c) -> mean l == c.
Proof.
  intros Hne H. unfold mean. rewrite (sumQ_const l c H).
  assert (Hl : (1 <= length l)%nat) by (destruct l; [congruence|simpl; lia]).
  rewrite Nat.max_r by exact Hl.
  assert (Hq : ~ qnat (length l) == 0).
  { unfold qnat, Qeq. simpl. lia. }
  field. exact Hq.
Qed.

Lemma sq_dev_acc m x t : sq_dev m x t == t + sq_dev m x 0.
Proof.
  unfold sq_dev. revert t. induction x as [|v r IH]; intros t; simpl; [ring|].
  rewrite (IH (t + (v - m) * (v - m))), (IH (0 + (v - m) * (v - m))). ring.
Qed.

Lemma sq_dev_zero m x : (forall v, In v x -> v == m) -> sq_dev m x 0 == 0.
Proof.
  induction x as [|v r IH]; intros H; [reflexivity|].
  unfold sq_dev. simpl. fold (sq_dev m r (0 + (v - m) * (v - m))).
  rewrite sq_dev_acc, IH by (intros w Hw; apply H; right; exact Hw).
  assert (Hv : v == m) by (apply H; left; reflexivity). rewrite Hv. ring.
Qed.

Lemma pearson_const rt x :
  (forall q, 0 <= q -> rt_sqrt rt (q * q) == q) ->
  (forall a b, In a x -> In b x -> a == b) -> pearson rt x x = None.
Proof.
  intros Hsq Hc. unfold pearson. rewrite Nat.eqb_refl. cbn [negb orb].
  destruct (Nat.ltb (length x) 8) eqn:El; [reflexivity|].
  destruct x as [|a r]; [discriminate|].
  unfold pearson_sums. rewrite pearson_sums_diag_fold.
  assert (Hm : mean (a :: r) == a)
    by (apply mean_const; [discriminate|intros y Hy; apply Hc; [exact Hy|left; reflexivity]]).
  assert (Hz : sq_dev (mean (a :: r)) (a :: r) 0 == 0).
  { apply sq_dev_zero. intros v Hv. rewrite Hm. apply Hc; [exact Hv|left; reflexivity]. }
  set (u := sq_dev (mean (a :: r)) (a :: r) 0) in *.
  assert (Hden : rt_sqrt rt (u * u) == 0) by (rewrite (Hsq u) by (rewrite Hz; apply Qle_refl); exact Hz).
  assert (E : qeqb (rt_sqrt rt (u * u)) 0 = true) by (apply Qeq_bool_iff, Hden).
  rewrite E. reflexivity.
Qed.

Lemma NoDup_map_fst_filter_map {A B} (f : A -> option (A * B)) l :
  (forall x y, f x = Some y -> fst y = x) -> NoDup l -> NoDup (map fst (filter_map f l)).
Proof.
  intros Hf. induction 1 as [|x r Hx Hnd IH]; simpl; [constructor|].
  destruct (f x) as [y|] eqn:E; [|exact IH]. simpl. constructor; [|exact IH].
  rewrite (Hf x y E). intros Hin. apply in_map_iff in Hin as (z & Hz & Hin).
  apply in_filter_map in Hin as (w & Hw & Ew). apply Hf in Ew. congruence.
Qed.

Lemma detector_results_gen (f : string -> option (string * Q)) (b : string * Q -> string * Q -> bool) cols :
  (forall c y, f c = Some y -> fst y = c) ->
  (NoDup cols -> NoDup (map fst (sort_by b (filter_map f cols)))) /\
  (forall c, In c (map fst (sort_by b (filter_map f cols))) -> In c cols /\ exists s, f c = Some (c, s)).
Proof.
  intros Hf. split.
  - intros Hnd. eapply Permutation_NoDup.
    + symmetry. apply Permutation_map, sort_by_perm.
    + apply NoDup_map_fst_filter_map; assumption.
  - intros c Hc. apply in_map_iff in Hc as ([c' s] & Ec & Hin). simpl in Ec. subst c'.
    eapply Permutation_in in Hin; [|apply sort_by_perm].
    apply in_filter_map in Hin as (x & Hx & Efx).
    assert (Hfx := Hf x _ Efx). simpl in Hfx. subst x. split; [exact Hx|exists s; exact Efx].
Qed.

Lemma nth_pair_In (l : list (Q * Q)) k :
  (k < length l)%nat -> In (nth k (map fst l) 0, nth k (map snd l) 0) l.
Proof.
  intros Hk.
  replace (nth k (map fst l) 0) with (fst (nth k l (0, 0))) by (symmetry; apply (map_nth fst l (0, 0) k)).
  replace (nth k (map snd l) 0) with (snd (nth k l (0, 0))) by (symmetry; apply (map_nth snd l (0, 0) k)).
  rewrite <- surjective_pairing. apply nth_In, Hk.
Qed.

(** ** EDA helpers: sets of strings, counting maps, numeric summaries *)

Lemma mem_str_true s l : mem_str s l = true <-> In s l.
Proof.
  unfold mem_str. rewrite existsb_exists. split.
  - intros (x & Hx & E). apply String.eqb_eq in E. subst x. exact Hx.
  - intros H. exists s. split; [exact H|apply String.eqb_refl].
Qed.

Lemma mem_str_false s l : mem_str s l = false <-> ~ In s l.
Proof.
  rewrite <- mem_str_true. destruct (mem_str s l); split; congruence.
Qed.

Lemma dedup_str_acc_in seen l x :
  In x (dedup_str_acc seen l) <-> In x l /\ ~ In x seen.
Proof.
  revert seen; induction l as [|y r IH]; intros seen; simpl; [tauto|].
  destruct (mem_str y seen) eqn:E.
  - rewrite IH. apply mem_str_true in E. split; [tauto|].
    intros [[<-|H] Hn]; [contradiction|tauto].
  - simpl. rewrite IH. simpl. apply mem_str_false in E. split.
    + intros [<-|[H Hn]]; tauto.
    + intros [[<-|H] Hn]; [left; reflexivity|].
      destruct (String.eqb_spec y x) as [<-|Hne]; [left; reflexivity|right].
      split; [exact H|]. intros [Hc|Hc]; [exact (Hne Hc)|exact (Hn Hc)].
Qed.

Lemma dedup_str_acc_nodup seen l : NoDup (dedup_str_acc seen l).
Proof.
  revert seen; induction l as [|y r IH]; intros seen; simpl; [constructor|].
  destruct (mem_str y seen); [apply IH|]. constructor; [|apply IH].
  rewrite dedup_str_acc_in. intros [_ H]. apply H. left. reflexivity.
Qed.

Lemma dedup_str_acc_ext s1 s2 l :
  (forall x, In x s1 <-> In x s2) -> dedup_str_acc s1 l = dedup_str_acc s2 l.
Proof.
  revert s1 s2; induction l as [|y r IH]; intros s1 s2 H; simpl; [reflexivity|].
  assert (E : mem_str y s1 = mem_str y s2).
  { destruct (mem_str y s2) eqn:E2.
    - apply mem_str_true, H, mem_str_true. exact E2.
    - apply mem_str_false. intros Hin. apply H, mem_str_true in Hin. congruence. }
  rewrite E. destruct (mem_str y s2); [apply IH, H|]. f_equal. apply IH.
  intros x. simpl. rewrite H. tauto.
Qed.

Lemma count_repeats_length seen l :
  (count_repeats seen l + length (dedup_str_acc seen l))%nat = length l.
Proof.
  revert seen; induction l as [|y r IH]; intros seen; simpl; [reflexivity|].
  destruct (mem_str y seen).
  - specialize (IH seen). lia.
  - specialize (IH (y :: seen)). simpl. lia.
Qed.

Lemma count_repeats_zero seen l :
  count_repeats seen l = 0%nat <-> NoDup l /\ forall x, In x l -> ~ In x seen.
Proof.
  revert seen; induction l as [|y r IH]; intros seen; simpl.
  - split; [intros _; split; [constructor|intros x []]|reflexivity].
  - destruct (mem_str y seen) eqn:E.
    + split; [discriminate|]. intros [_ H]. exfalso.
      apply (H y (or_introl eq_refl)). apply mem_str_true, E.
    + rewrite IH. apply mem_str_false in E. split.
      * intros [Hnd H]. split.
        -- constructor; [|exact Hnd]. intros Hin. apply (H y Hin). left. reflexivity.
        -- intros x [<-|Hx]; [exact E|]. intros Hs. apply (H x Hx). right. exact Hs.
      * intros [Hnd H]. inversion Hnd as [|? ? Hy Hnd']; subst. split; [exact Hnd'|].
        intros x Hx [<-|Hs]; [exact (Hy Hx)|]. exact (H x (or_intror Hx) Hs).
Qed.

Lemma NoDup_all_eq {A} (l : list A) s :
  NoDup l -> (forall x, In x l -> x = s) -> (length l <= 1)%nat.
Proof.
  intros Hnd H. destruct l as [|a [|b r]]; simpl; [lia|lia|].
  inversion Hnd as [|? ? Ha _]; subst. exfalso. apply Ha. left.
  rewrite (H b (or_intror (or_introl eq_refl))). symmetry. apply H. left. reflexivity.
Qed.

Lemma dedup_str_single l :
  length (dedup_str l) = 1%nat <-> exists s, l <> [] /\ forall x, In x l -> x = s.
Proof.
  unfold dedup_str. split.
  - intros H. destruct (dedup_str_acc [] l) as [|s [|t r]] eqn:E; simpl in H; try lia.
    exists s. split.
    + intros ->. simpl in E. discriminate.
    + intros x Hx. assert (Hd : In x (dedup_str_acc [] l)) by (apply dedup_str_acc_in; tauto).
      rewrite E in Hd. destruct Hd as [<-|[]]. reflexivity.
  - intros (s & Hne & H). destruct l as [|y r]; [congruence|].
    assert (Hy : In y (dedup_str_acc [] (y :: r))) by (apply dedup_str_acc_in; simpl; tauto).
    assert (Hle := NoDup_all_eq _ s (dedup_str_acc_nodup [] (y :: r))
                     (fun x Hx => H x (proj1 (proj1 (dedup_str_acc_in _ _ _) Hx)))).
    destruct (dedup_str_acc [] (y :: r)); [destruct Hy|simpl in *; lia].
Qed.

Lemma map_fst_bump k m :
  map fst (bump k m) = if mem_str k (map fst m) then map fst m else map fst m ++ [k].
Proof.
  unfold mem_str. induction m as [|[k' c] r IH]; simpl; [reflexivity|].
  destruct (String.eqb k k') eqn:E; simpl; [reflexivity|].
  rewrite IH. destruct (existsb _ _); reflexivity.
Qed.

Lemma uniques_keys_fold (f : value -> string) l m :
  map fst (fold_left (fun m v => bump (f v) m) l m) = map fst m ++ dedup_str_acc (map fst m) (map f l).
Proof.
  revert m; induction l as [|v r IH]; intros m; simpl; [rewrite app_nil_r; reflexivity|].
  rewrite IH, map_fst_bump. destruct (mem_str (f v) (map fst m)) eqn:E; [reflexivity|].
  rewrite <- app_assoc. simpl. f_equal. f_equal. apply dedup_str_acc_ext.
  intros x. rewrite in_app_iff. simpl. tauto.
Qed.

Definition count_of (o : option nat) : nat := match o with Some c => c | None => 0%nat end.

Lemma lookup_bump k k' m :
  lookup k (bump k' m) = if String.eqb k k' then Some (S (count_of (lookup k m))) else lookup k m.
Proof.
  induction m as [|[k0 c] r IH]; simpl.
  - destruct (String.eqb k k'); reflexivity.
  - destruct (String.eqb_spec k' k0) as [->|Hne]; simpl.
    + destruct (String.eqb k k0); reflexivity.
    + rewrite IH. destruct (String.eqb_spec k k0) as [->|Hne2].
      * destruct (String.eqb_spec k0 k') as [->|_]; [congruence|reflexivity].
      * reflexivity.
Qed.

Lemma uniques_count_fold (f : value -> string) l m k :
  count_of (lookup k (fold_left (fun m v => bump (f v) m) l m)) =
  (count_of (lookup k m) + count_if (fun v => String.eqb k (f v)) l)%nat.
Proof.
  revert m; induction l as [|v r IH]; intros m; simpl; [unfold count_if; simpl; lia|].
  rewrite IH, lookup_bump. unfold count_if. simpl.
  destruct (String.eqb k (f v)); simpl; lia.
Qed.

Lemma lookup_In_nodup {A} k (v : A) m :
  NoDup (map fst m) -> In (k, v) m -> lookup k m = Some v.
Proof.
  induction m as [|[k' w] r IH]; simpl; [intros _ []|].
  intros Hnd [E|Hin]; inversion Hnd as [|? ? Hk Hnd']; subst.
  - injection E as -> ->. rewrite String.eqb_refl. reflexivity.
  - destruct (String.eqb_spec k k') as [->|_]; [|apply IH; assumption].
    exfalso. apply Hk. apply in_map_iff. exists (k', v). auto.
Qed.

Lemma count_if_le {A} (f : A -> bool) l : (count_if f l <= length l)%nat.
Proof. unfold count_if. apply filter_length_le. Qed.

Lemma count_if_excl {A} (f g : A -> bool) l :
  (forall x, f x = true -> g x = false) -> (count_if f l + count_if g l <= length l)%nat.
Proof.
  intros H. unfold count_if. induction l as [|x r IH]; simpl; [lia|].
  destruct (f x) eqn:Ef; [rewrite (H x Ef)|destruct (g x)]; simpl; lia.
Qed.

Lemma filter_map_present_le {B} (f : value -> option B) l :
  (forall v, isMissing v = true -> f v = None) ->
  (length (filter_map f l) <= length (filter (fun v => negb (isMissing v)) l))%nat.
Proof.
  intros H. induction l as [|v r IH]; simpl; [lia|].
  destruct (isMissing v) eqn:E; simpl.
  - rewrite (H v E). exact IH.
  - destruct (f v); simpl; lia.
Qed.

Lemma ins_by_sorted {A} (R : A -> A -> Prop) (b : A -> A -> bool) x l :
  (forall e, b x e = true -> R x e) -> (forall e, b x e = false -> R e x) ->
  Sorted R l -> Sorted R (ins_by b x l).
Proof.
  intros Ht Hf. induction 1 as [|e r Hs IH Hd]; simpl.
  - repeat constructor.
  - destruct (b x e) eqn:E.
    + constructor; [constructor; assumption|]. constructor. apply Ht, E.
    + constructor; [exact IH|].
      destruct r as [|g r']; simpl; [constructor; apply Hf, E|].
      inversion Hd; subst. destruct (b x g); constructor; [apply Hf, E|assumption].
Qed.

Lemma sort_by_sorted {A} (R : A -> A -> Prop) (b : A -> A -> bool) l :
  (forall x e, b x e = true -> R x e) -> (forall x e, b x e = false -> R e x) ->
  Sorted R (sort_by b l).
Proof.
  intros Ht Hf. unfold sort_by.
  assert (H : forall acc, Sorted R acc -> Sorted R (fold_left (fun acc x => ins_by b x acc) l acc)).
  { induction l as [|x r IH]; intros acc Hacc; simpl; [exact Hacc|].
    apply IH, ins_by_sorted; auto. }
  apply H. constructor.
Qed.

Lemma Sorted_firstn {A} (R : A -> A -> Prop) n l : Sorted R l -> Sorted R (firstn n l).
Proof.
  revert n; induction l as [|x r IH]; intros n H; destruct n; simpl; try constructor.
  - apply IH. inversion H; assumption.
  - inversion H as [|? ? Hs Hd]; subst. destruct n, r; simpl; constructor.
    inversion Hd; assumption.
Qed.

Lemma Sorted_map {A B} (R : A -> A -> Prop) (R' : B -> B -> Prop) (f : A -> B) l :
  (forall x y, R x y -> R' (f x) (f y)) -> Sorted R l -> Sorted R' (map f l).
Proof.
  intros Hf. induction 1 as [|x r Hs IH Hd]; simpl; constructor; [exact IH|].
  destruct Hd; simpl; constructor. apply Hf. assumption.
Qed.

Lemma NoDup_firstn {A} n (l : list A) : NoDup l -> NoDup (firstn n l).
Proof. intros H. rewrite <- (firstn_skipn n l) in H. eapply NoDup_app_remove_r, H. Qed.

Lemma map_fst_pairs {B} (f : string -> B) l : map fst (map (fun c => (c, f c)) l) = l.
Proof. rewrite map_map. simpl. apply map_id. Qed.

Lemma hd_error_some {A} (l : list A) d : l <> [] -> hd_error l = Some (nth 0 l d).
Proof. destruct l; [congruence|reflexivity]. Qed.

Lemma last_opt_some {A} (l : list A) d : l <> [] -> last_opt l = Some (nth (length l - 1) l d).
Proof.
  induction l as [|x r IH]; [congruence|]. intros _.
  destruct r as [|y r']; [reflexivity|].
  change (last_opt (x :: y :: r')) with (last_opt (y :: r')).
  rewrite IH by discriminate. f_equal. simpl. rewrite Nat.sub_0_r. reflexivity.
Qed.

Lemma median_some s : s <> [] -> exists m, median s = Some m.
Proof.
  intros Hne. unfold median. cbv zeta. destruct (length s) eqn:E.
  - apply length_zero_iff_nil in E. contradiction.
  - destruct (Nat.even (S n)); eexists; reflexivity.
Qed.

Lemma median_between s lo hi m :
  (forall x, In x s -> lo <= x <= hi) -> median s = Some m -> lo <= m <= hi.
Proof.
  intros H. unfold median. cbv zeta. destruct (length s) as [|k] eqn:En; [discriminate|].
  assert (Hmid : (S k / 2 < length s)%nat) by (rewrite En; apply Nat.Div0.div_lt_upper_bound; lia).
  assert (Hmid' : (S k / 2 - 1 < length s)%nat) by lia.
  assert (B1 := H _ (nth_In s 0 Hmid)). assert (B2 := H _ (nth_In s 0 Hmid')).
  remember (S k / 2)%nat as mid eqn:Emid.
  destruct (Nat.even (S k)); intros E; injection E as <-; [|exact B1].
  unfold Qdiv. change (/ 2) with (1 # 2). lra.
Qed.

Lemma qnat_succ n : qnat (S n) == qnat n + 1.
Proof. unfold qnat. rewrite Nat2Z.inj_succ. unfold Z.succ. rewrite inject_Z_plus. reflexivity. Qed.

Lemma qnat_pos n : (0 < n)%nat -> 0 < qnat n.
Proof. intros H. unfold qnat, Qlt. simpl. lia. Qed.

Lemma sumQ_bounds l lo hi :
  (forall x, In x l -> lo <= x <= hi) -> qnat (length l) * lo <= sumQ l <= qnat (length l) * hi.
Proof.
  induction l as [|x r IH]; intros H.
  - simpl length. change (qnat 0) with 0. unfold sumQ. simpl. lra.
  - assert (Hx := H x (or_introl eq_refl)).
    assert (Hr := IH (fun y Hy => H y (or_intror Hy))).
    rewrite sumQ_cons. simpl length. rewrite qnat_succ. nra.
Qed.

Lemma mean_between l lo hi :
  l <> [] -> (forall x, In x l -> lo <= x <= hi) -> lo <= sumQ l / qnat (length l) <= hi.
Proof.
  intros Hne H. assert (Hb := sumQ_bounds l lo hi H).
  assert (Hp : 0 < qnat (length l)) by (apply qnat_pos; destruct l; [congruence|simpl; lia]).
  split.
  - apply Qle_shift_div_l; [exact Hp|]. rewrite Qmult_comm. apply Hb.
  - apply Qle_shift_div_r; [exact Hp|]. rewrite Qmult_comm. apply Hb.
Qed.

Lemma uniques_of_keys rt values :
  map fst (uniques_of rt values) =
  dedup_str (map (js_string rt) (filter (fun v => negb (isMissing v)) values)).
Proof. unfold uniques_of. rewrite (uniques_keys_fold (js_string rt)). reflexivity. Qed.

Lemma topValues_of_props rt values nm :
  let present := filter (fun v => negb (isMissing v)) values in
  let tv := topValues_of (uniques_of rt values) nm in
  (length tv <= 8)%nat /\ NoDup (map tv_value tv) /\
  Sorted (fun a b => (tv_count b <= tv_count a)%nat) tv /\
  forall t, In t tv ->
    (exists v, In v present /\ js_string rt v = tv_value t) /\
    tv_count t = count_if (fun v => String.eqb (tv_value t) (js_string rt v)) present.
Proof.
  cbv zeta. set (u := uniques_of rt values).
  assert (Hk := uniques_of_keys rt values). fold u in Hk.
  assert (Hnd : NoDup (map fst u)) by (rewrite Hk; apply dedup_str_acc_nodup).
  assert (Hcnt : forall k n, In (k, n) u ->
            n = count_if (fun v => String.eqb k (js_string rt v))
                         (filter (fun v => negb (isMissing v)) values)).
  { intros k n Hin. assert (Hl := lookup_In_nodup k n u Hnd Hin).
    assert (Hf : count_of (lookup k u) =
                 (count_of (lookup k []) +
                  count_if (fun v => String.eqb k (js_string rt v))
                           (filter (fun v => negb (isMissing v)) values))%nat)
      by apply uniques_count_fold.
    rewrite Hl in Hf. simpl in Hf. lia. }
  unfold topValues_of. rewrite length_map.
  set (sorted := sort_by (fun x e => Nat.ltb (snd e) (snd x)) u).
  assert (Hperm : Permutation sorted u) by apply sort_by_perm.
  split; [unfold slice0; apply firstn_le_length|].
  split.
  { rewrite map_map. unfold slice0. rewrite <- firstn_map. apply NoDup_firstn.
    eapply Permutation_NoDup; [symmetry; apply Permutation_map, Hperm|exact Hnd]. }
  split.
  { apply (Sorted_map (fun p q : string * nat => (snd q <= snd p)%nat)).
    - intros x y H. simpl. exact H.
    - unfold slice0. apply Sorted_firstn. apply sort_by_sorted.
      + intros x e H. apply Nat.ltb_lt in H. lia.
      + intros x e H. apply Nat.ltb_ge in H. lia. }
  intros t Ht. apply in_map_iff in Ht as ([k n] & <- & Hin). simpl.
  unfold slice0 in Hin. apply in_firstn in Hin. apply (Permutation_in _ Hperm) in Hin.
  split.
  - assert (Hkin : In k (map fst u)) by (apply in_map_iff; exists (k, n); auto).
    rewrite Hk in Hkin. unfold dedup_str in Hkin. apply dedup_str_acc_in in Hkin as [Hkin _].
    apply in_map_iff in Hkin as (v & Ev & Hv). exists v. split; [exact Hv|exact Ev].
  - apply Hcnt, Hin.
Qed.

(** ** Key normalisation helpers *)

Local Open Scope string_scope.

Lemma str_app_assoc (x y z : string) : (x ++ y) ++ z = x ++ (y ++ z).
Proof. induction x as [|c x IH]; simpl; [reflexivity|]. rewrite IH. reflexivity. Qed.

Lemma str_app_nil (x : string) : x ++ "" = x.
Proof. induction x as [|c x IH]; simpl; [reflexivity|]. rewrite IH. reflexivity. Qed.

Lemma rev_str_app s a : rev_str s a = rev_str s "" ++ a.
Proof.
  revert a; induction s as [|c s IH]; intros a; simpl; [reflexivity|].
  rewrite IH, (IH (String c "")). rewrite str_app_assoc. reflexivity.
Qed.

Lemma rev_str_app2 x y a : rev_str (x ++ y) a = rev_str y (rev_str x a).
Proof. revert a; induction x as [|c x IH]; intros a; simpl; [reflexivity|]. apply IH. Qed.

Lemma rev_str_rev s a b : rev_str (rev_str s a) b = rev_str a (s ++ b).
Proof. revert a b; induction s as [|c s IH]; intros a b; simpl; [reflexivity|]. apply IH. Qed.

Lemma str_forall_rev f s a :
  str_forall f (rev_str s a) = (str_forall f s && str_forall f a)%bool.
Proof.
  revert a; induction s as [|c s IH]; intros a; simpl; [reflexivity|].
  rewrite IH. simpl. destruct (f c), (str_forall f s), (str_forall f a); reflexivity.
Qed.

Lemma ltrim_split s : exists p, str_forall is_ws p = true /\ s = p ++ ltrim s.
Proof.
  induction s as [|c s IH]; simpl; [exists ""; split; reflexivity|].
  destruct (is_ws c) eqn:E.
  - destruct IH as (p & Hp & Hs). exists (String c p). simpl. rewrite E, Hp.
    split; [reflexivity|]. rewrite <- Hs. reflexivity.
  - exists "". split; reflexivity.
Qed.

Lemma trim_split s :
  exists p q, str_forall is_ws p = true /\ str_forall is_ws q = true /\ s = p ++ trim s ++ q.
Proof.
  destruct (ltrim_split s) as (p & Hp & Hs).
  destruct (ltrim_split (rev_str (ltrim s) "")) as (p2 & Hp2 & Hr).
  exists p, (rev_str p2 ""). split; [exact Hp|]. split.
  - rewrite str_forall_rev, Hp2. reflexivity.
  - unfold trim. rewrite <- rev_str_app.
    rewrite <- rev_str_app2, <- Hr, rev_str_rev. simpl. rewrite str_app_nil. exact Hs.
Qed.

Lemma str_filter_app f x y : str_filter f (x ++ y) = str_filter f x ++ str_filter f y.
Proof.
  induction x as [|c x IH]; simpl; [reflexivity|]. rewrite IH. destruct (f c); reflexivity.
Qed.

Lemma lower_app x y : lower (x ++ y) = lower x ++ lower y.
Proof. induction x as [|c x IH]; simpl; [reflexivity|]. rewrite IH. reflexivity. Qed.

Ltac ascii_bool :=
  repeat match goal with
         | H : context [is_ws ?c] |- _ => unfold is_ws in H
         | H : context [is_lower_alnum ?c] |- _ => unfold is_lower_alnum, is_digit in H
         | |- context [is_lower_alnum ?c] => unfold is_lower_alnum, is_digit
         end;
  repeat rewrite ?Bool.orb_true_iff, ?Bool.andb_true_iff, ?Nat.eqb_eq, ?Nat.leb_le in *.

Lemma ws_not_alnum c : is_ws c = true -> is_lower_alnum c = false.
Proof.
  intros H. destruct (is_lower_alnum c) eqn:E; [|reflexivity]. exfalso.
  ascii_bool. lia.
Qed.

Lemma lower_char_ws c : is_ws c = true -> lower_char c = c.
Proof.
  intros H. unfold lower_char.
  destruct (Nat.leb 65 (nat_of_ascii c) && Nat.leb (nat_of_ascii c) 90)%bool eqn:E; [|reflexivity].
  exfalso. ascii_bool. lia.
Qed.

Lemma lower_char_alnum c : is_lower_alnum c = true -> lower_char c = c.
Proof.
  intros H. unfold lower_char.
  destruct (Nat.leb 65 (nat_of_ascii c) && Nat.leb (nat_of_ascii c) 90)%bool eqn:E; [|reflexivity].
  exfalso. ascii_bool. lia.
Qed.

Lemma filter_ws p : str_forall is_ws p = true -> str_filter is_lower_alnum p = "".
Proof.
  induction p as [|c p IH]; simpl; [reflexivity|]. intros H.
  apply andb_prop in H as [Hc Hp]. rewrite (ws_not_alnum c Hc). apply IH, Hp.
Qed.

Lemma lower_ws p : str_forall is_ws p = true -> lower p = p.
Proof.
  induction p as [|c p IH]; simpl; [reflexivity|]. intros H.
  apply andb_prop in H as [Hc Hp]. rewrite (lower_char_ws c Hc), (IH Hp). reflexivity.
Qed.

Lemma normalizeKey_filter s : normalizeKey s = str_filter is_lower_alnum (lower s).
Proof.
  unfold normalizeKey. destruct (trim_split (lower s)) as (p & q & Hp & Hq & E).
  transitivity (str_filter is_lower_alnum (p ++ trim (lower s) ++ q)).
  - rewrite !str_filter_app, (filter_ws p Hp), (filter_ws q Hq). simpl.
    rewrite str_app_nil. reflexivity.
  - rewrite <- E. reflexivity.
Qed.

Lemma str_forall_filter f s : str_forall f (str_filter f s) = true.
Proof.
  induction s as [|c s IH]; simpl; [reflexivity|]. destruct (f c) eqn:E; simpl; [rewrite E|]; auto.
Qed.

Lemma filter_lower_id s : str_forall is_lower_alnum s = true ->
  str_filter is_lower_alnum (lower s) = s.
Proof.
  induction s as [|c s IH]; simpl; [reflexivity|]. intros H.
  apply andb_prop in H as [Hc Hs]. rewrite (lower_char_alnum c Hc), Hc, (IH Hs). reflexivity.
Qed.

Close Scope string_scope.

Lemma normalizeKey_trim s : normalizeKey (trim s) = normalizeKey s.
Proof.
  rewrite !normalizeKey_filter. destruct (trim_split s) as (p & q & Hp & Hq & E).
  symmetry. transitivity (str_filter is_lower_alnum (lower (p ++ trim s ++ q))).
  - f_equal. f_equal. exact E.
  - rewrite !lower_app, !str_filter_app, (lower_ws p Hp), (lower_ws q Hq), (filter_ws p Hp),
      (filter_ws q Hq). simpl. rewrite str_app_nil. reflexivity.
Qed.

(** ** Insight list helpers *)

Lemma pushUnique_nodup l x : NoDup (map i_id l) -> NoDup (map i_id (pushUnique l x)).
Proof.
  intros H. unfold pushUnique. destruct (existsb _ l) eqn:E; [exact H|].
  rewrite map_app. simpl. eapply Permutation_NoDup; [apply Permutation_cons_append|].
  constructor; [|exact H]. intros Hin. apply in_map_iff in Hin as (y & Ey & Hy).
  assert (Ht : existsb (fun y => String.eqb (i_id y) (i_id x)) l = true)
    by (apply existsb_exists; exists y; split; [exact Hy|apply String.eqb_eq, Ey]).
  congruence.
Qed.

Lemma fold_pushUnique_nodup xs l :
  NoDup (map i_id l) -> NoDup (map i_id (fold_left pushUnique xs l)).
Proof.
  revert l; induction xs as [|x r IH]; intros l H; simpl; [exact H|].
  apply IH, pushUnique_nodup, H.
Qed.

Lemma pushUnique_hd l x d : hd_error l = Some d -> hd_error (pushUnique l x) = Some d.
Proof.
  intros H. unfold pushUnique. destruct (existsb _ l); [exact H|].
  destruct l; [discriminate|exact H].
Qed.

Lemma fold_pushUnique_hd xs l d :
  hd_error l = Some d -> hd_error (fold_left pushUnique xs l) = Some d.
Proof.
  revert l; induction xs as [|x r IH]; intros l H; simpl; [exact H|].
  apply IH, pushUnique_hd, H.
Qed.

Ltac nodup_stages :=
  repeat match goal with
         | |- NoDup (map i_id (pushUnique _ _)) => apply pushUnique_nodup
         | |- NoDup (map i_id (fold_left pushUnique _ _)) => apply fold_pushUnique_nodup
         | |- NoDup (map i_id (match ?x with _ => _ end)) => destruct x
         | |- NoDup (map i_id []) => constructor
         end.

Ltac hd_stages :=
  repeat match goal with
         | |- hd_error (pushUnique [] _) = _ => reflexivity
         | |- hd_error (pushUnique _ _) = _ => apply pushUnique_hd
         | |- hd_error (fold_left pushUnique _ _) = _ => apply fold_pushUnique_hd
         | |- hd_error (match ?x with _ => _ end) = _ => destruct x
         end.

Lemma insights_before_rank_nodup rt eda kpis : NoDup (map i_id (insights_before_rank rt eda kpis)).
Proof. unfold insights_before_rank. cbv zeta. nodup_stages. Qed.

Lemma insights_before_rank_dup rt eda kpis :
  (0 < duplicates eda)%nat ->
  exists i, hd_error (insights_before_rank rt eda kpis) = Some i /\
            i_id i = "duplicates"%string /\ i_severity i = SWarning.
Proof.
  intros H. apply Nat.ltb_lt in H. unfold insights_before_rank. cbv zeta. rewrite H.
  cbv beta iota. eexists. split; [hd_stages|split; reflexivity].
Qed.

Lemma sortBusiness_hd l d :
  hd_error l = Some d -> severity_weight (i_severity d) = 0%nat ->
  exists t, sortBusiness l = d :: t.
Proof.
  intros H Hw. destruct l as [|d' r]; [discriminate|]. injection H as ->.
  unfold sortBusiness, sort_by. simpl.
  assert (G : forall t, exists t',
             fold_left (fun acc x => ins_by (fun x e => Nat.ltb (severity_weight (i_severity x))
                                                                (severity_weight (i_severity e))) x acc)
                       r (d :: t) = d :: t').
  { induction r as [|x r IH]; intros t; simpl; [exists t; reflexivity|].
    rewrite Hw. simpl. destruct (Nat.ltb (severity_weight (i_severity x)) 0) eqn:E.
    - apply Nat.ltb_lt in E. lia.
    - apply IH. }
  apply G.
Qed.

Lemma sortBusiness_sorted l :
  Sorted (fun a b => (severity_weight (i_severity a) <= severity_weight (i_severity b))%nat)
         (sortBusiness l).
Proof.
  apply sort_by_sorted.
  - intros x e H. apply Nat.ltb_lt in H. lia.
  - intros x e H. apply Nat.ltb_ge in H. lia.
Qed.

(** ** Dataset meta helpers *)

Lemma count_if_cons {A} (f : A -> bool) x l :
  count_if f (x :: l) = ((if f x then 1 else 0) + count_if f l)%nat.
Proof. unfold count_if. simpl. destruct (f x); reflexivity. Qed.

Lemma count_if_map {A B} (f : B -> bool) (g : A -> B) l :
  count_if f (map g l) = count_if (fun x => f (g x)) l.
Proof.
  induction l as [|x r IH]; [reflexivity|]. simpl map. rewrite !count_if_cons, IH. reflexivity.
Qed.

Lemma sum_nat_map_plus {A} (g h : A -> nat) l :
  sum_nat (map (fun x => g x + h x)%nat l) = (sum_nat (map g l) + sum_nat (map h l))%nat.
Proof. induction l as [|x r IH]; [reflexivity|]. simpl map. rewrite !sum_nat_cons, IH. lia. Qed.

Lemma sum_nat_indicator {A} (f : A -> bool) l :
  sum_nat (map (fun x => if f x then 1 else 0)%nat l) = count_if f l.
Proof.
  induction l as [|x r IH]; [reflexivity|]. simpl map. rewrite sum_nat_cons, count_if_cons, IH.
  reflexivity.
Qed.

Lemma sum_nat_zero {A} (l : list A) : sum_nat (map (fun _ => 0%nat) l) = 0%nat.
Proof. induction l as [|x r IH]; [reflexivity|]. simpl map. rewrite sum_nat_cons, IH. reflexivity. Qed.

Lemma count_if_swap {A B} (f : A -> B -> bool) (xs : list A) (ys : list B) :
  sum_nat (map (fun x => count_if (f x) ys) xs) =
  sum_nat (map (fun y => count_if (fun x => f x y) xs) ys).
Proof.
  induction xs as [|x r IH]; simpl map.
  - symmetry. apply (sum_nat_zero ys).
  - rewrite sum_nat_cons, IH.
    rewrite (map_ext (fun y => count_if (fun x0 => f x0 y) (x :: r))
                     (fun y => (if f x y then 1 else 0) + count_if (fun x0 => f x0 y) r)%nat)
      by (intros y; cbv beta; rewrite count_if_cons; reflexivity).
    rewrite sum_nat_map_plus, sum_nat_indicator. reflexivity.
Qed.

Lemma fold_count_acc {A} (f : A -> bool) l m :
  fold_left (fun m k => if f k then S m else m) l m = (m + count_if f l)%nat.
Proof.
  revert m; induction l as [|x r IH]; intros m; cbn [fold_left]; [unfold count_if; simpl; lia|].
  rewrite IH, count_if_cons. destruct (f x); lia.
Qed.

Lemma fold_missing_acc (keys : list string) data m :
  fold_left (fun missing r =>
               fold_left (fun missing k => if isMissing (get r k) then S missing else missing)
                         keys missing) data m
  = (m + sum_nat (map (fun r => count_if (fun k => isMissing (get r k)) keys) data))%nat.
Proof.
  revert m; induction data as [|r rs IH]; intros m; cbn [fold_left map];
    [unfold sum_nat; simpl; lia|].
  rewrite IH, (fold_count_acc (fun k => isMissing (get r k))), sum_nat_cons. lia.
Qed.

Lemma column_eda_missing rt data ec c :
  ce_missing (column_eda rt data ec c) = count_if isMissing (column_values data c).
Proof.
  unfold column_eda. cbv zeta.
  destruct (decideType rt c _); [| destruct (mem_str c ec) | destruct (mem_str c ec) |]; reflexivity.
Qed.


(** ** Name-keyed correlation series *)

Lemma filter_eqb_seq s len i :
  filter (fun k => Nat.eqb k i) (seq s len) =
  if (Nat.leb s i && Nat.ltb i (s + len))%bool then [i] else [].
Proof.
  revert s; induction len as [|l IH]; intros s; cbn [seq filter].
  - destruct (Nat.leb s i) eqn:E1, (Nat.ltb i (s + 0)) eqn:E2; try reflexivity.
    apply Nat.leb_le in E1; apply Nat.ltb_lt in E2; lia.
  - rewrite IH. destruct (Nat.eqb_spec s i) as [->|Hne].
    + replace (Nat.leb (S i) i) with false by (symmetry; apply Nat.leb_gt; lia).
      replace (Nat.leb i i) with true by (symmetry; apply Nat.leb_le; lia).
      replace (Nat.ltb i (i + S l)) with true by (symmetry; apply Nat.ltb_lt; lia).
      reflexivity.
    + destruct (Nat.leb (S s) i) eqn:E1, (Nat.ltb i (S s + l)) eqn:E2,
               (Nat.leb s i) eqn:E3, (Nat.ltb i (s + S l)) eqn:E4; try reflexivity;
      repeat match goal with
             | H : Nat.leb _ _ = true |- _ => apply Nat.leb_le in H
             | H : Nat.leb _ _ = false |- _ => apply Nat.leb_gt in H
             | H : Nat.ltb _ _ = true |- _ => apply Nat.ltb_lt in H
             | H : Nat.ltb _ _ = false |- _ => apply Nat.ltb_ge in H
             end; cbn [andb] in *; try discriminate; lia.
Qed.

Lemma corr_series_named_nodup complete cols i :
  NoDup cols -> (i < length cols)%nat ->
  corr_series_named complete cols (nth i cols EmptyString) = corr_series complete i.
Proof.
  intros Hnd Hi. unfold corr_series_named, corr_series.
  rewrite (filter_ext_in _ (fun k => Nat.eqb k i)).
  2:{ intros k Hk. apply in_seq in Hk. destruct (Nat.eqb_spec k i) as [->|Hne].
      - apply String.eqb_refl.
      - apply String.eqb_neq. intros E. apply Hne.
        apply (proj1 (NoDup_nth cols EmptyString) Hnd k i); [lia|lia|exact E]. }
  rewrite filter_eqb_seq.
  replace (Nat.leb 0 i && Nat.ltb i (0 + length cols))%bool with true
    by (symmetry; apply andb_true_iff; split; [apply Nat.leb_le|apply Nat.ltb_lt]; lia).
  cbv iota.
  induction complete as [|v vs IH]; [reflexivity|]. simpl in IH |- *. rewrite IH. reflexivity.
Qed.

(* ================================================================== *)
(** * Main results *)

(** C3: [generateCharts] returns at most 8 charts, and at least 4 whenever
    at least 4 candidates were pushed (the backfill ignores the diversity
    caps). *)
Theorem generateCharts_between_4_and_8 rt data eda :
  (length (generateCharts rt data eda) <= 8)%nat /\
  ((4 <= length (chart_candidates rt data eda))%nat ->
   (4 <= length (generateCharts rt data eda))%nat).
Proof.
  destruct data as [|d ds].
  - simpl. split; [lia|intros H; inversion H].
  - unfold generateCharts. split.
    + apply length_pickDiverse.
    + intros H. apply pickDiverse_min; [lia|exact H].
Qed.

Lemma generateCharts_between_4_and_8_witness :
  (4 <= length (chart_candidates rt0 corr_rows (runEDA rt0 corr_rows)))%nat /\
  (4 <= length (generateCharts rt0 corr_rows (runEDA rt0 corr_rows)))%nat.
Proof.
  assert (H : (4 <= length (chart_candidates rt0 corr_rows (runEDA rt0 corr_rows)))%nat)
    by (vm_compute; lia).
  split; [exact H|].
  apply (proj2 (generateCharts_between_4_and_8 rt0 corr_rows (runEDA rt0 corr_rows))), H.
Defined.

(** C4 (corrected): for a non-empty row set the KPI list has at most 6
    entries and starts with the [Rows] KPI; for an empty row set it is
    empty. *)
Theorem generateKPIs_rows_first rt data eda :
  (length (generateKPIs rt data eda) <= 6)%nat /\
  (data <> [] -> exists k rest, generateKPIs rt data eda = k :: rest /\ k_label k = "Rows"%string) /\
  (data = [] -> generateKPIs rt data eda = []).
Proof.
  destruct data as [|d ds].
  - simpl. split; [lia|]. split; [intros H; congruence|reflexivity].
  - unfold generateKPIs, slice0. rewrite firstn_cons. split; [|split].
    + cbn [length]. apply le_n_S, firstn_le_length.
    + intros _. eexists _, _. split; [reflexivity|reflexivity].
    + discriminate.
Qed.

Lemma generateKPIs_rows_first_witness :
  box_rows <> [] /\
  exists k rest, generateKPIs rt0 box_rows (Some (runEDA rt0 box_rows)) = k :: rest
                 /\ k_label k = "Rows"%string.
Proof.
  assert (H : box_rows <> []) by discriminate.
  split; [exact H|].
  apply (proj1 (proj2 (generateKPIs_rows_first rt0 box_rows (Some (runEDA rt0 box_rows))))), H.
Defined.

(** C4: with no rows there is no [Rows] KPI. *)
Lemma generateKPIs_empty_rows_counterexample :
  generateKPIs rt0 [] (Some (runEDA rt0 [])) = [].
Proof. reflexivity. Qed.

(** C7: the profile flags [order_id] as an identifier, yet the numeric-like
    fallback of [generateCharts] brings it back and the emitted scatter plots
    [order_id] against [amount]. *)
Lemma order_id_scatter_counterexample :
  option_map (fun i => (ce_type i, ce_inferredAsId i))
             (lookup "order_id" (columns (runEDA rt0 order_rows))) = Some (TCategorical, true) /\
  existsb (fun s => match s with
                    | CScatter sc => String.eqb (s_yColumn sc) "order_id"
                    | _ => false
                    end) (generateCharts rt0 order_rows (runEDA rt0 order_rows)) = true.
Proof. split; vm_compute; reflexivity. Qed.

(** C8 (corrected): an identifier-like column, one with fewer than 25
    values, or one without min/max scores 0; a column with a degenerate
    range (max = min) scores 1 and stays eligible; and every
    total/average/range KPI comes from a numeric profile column with a
    positive score. *)
Theorem scoreNumericCol_exclusion rt col i rc :
  ((isIdLikeColumn col (Some i) rc = true \/ (ce_nonMissingCount i < 25)%nat
    \/ ce_min i = None \/ ce_max i = None) ->
   scoreNumericCol rt col (Some i) rc = 0) /\
  (forall mn mx, isIdLikeColumn col (Some i) rc = false -> (25 <= ce_nonMissingCount i)%nat ->
     ce_min i = Some mn -> ce_max i = Some mx -> mx == mn ->
     scoreNumericCol rt col (Some i) rc = 1) /\
  (forall d ds e k, In k (generateKPIs rt (d :: ds) (Some e)) ->
     (k_type k = KSum \/ k_type k = KMean \/ k_type k = KRange) ->
     exists c i', k_column k = Some c /\ In (c, i') (columns e) /\ ce_type i' = TNumeric
                  /\ 0 < scoreNumericCol rt c (Some i') (length (d :: ds))).
Proof.
  split; [|split].
  - intros H. unfold scoreNumericCol.
    destruct H as [H|[H|[H|H]]].
    + rewrite H. reflexivity.
    + destruct (isIdLikeColumn col (Some i) rc); [reflexivity|].
      apply Nat.ltb_lt in H. rewrite H. reflexivity.
    + destruct (isIdLikeColumn col (Some i) rc); [reflexivity|].
      destruct (Nat.ltb _ 25); [reflexivity|]. rewrite H. reflexivity.
    + destruct (isIdLikeColumn col (Some i) rc); [reflexivity|].
      destruct (Nat.ltb _ 25); [reflexivity|]. rewrite H. destruct (ce_min i); reflexivity.
  - intros mn mx Hid Hnn Hmn Hmx Heq. unfold scoreNumericCol.
    rewrite Hid. apply Nat.ltb_ge in Hnn. rewrite Hnn, Hmn, Hmx.
    assert (Hz : qeqb (qabs (mx - mn)) 0 = true).
    { unfold qeqb, qabs, qltb. apply Qeq_bool_iff.
      destruct (Qle_bool 0 (mx - mn)); simpl; rewrite Heq; ring. }
    rewrite Hz. reflexivity.
  - intros d ds e k Hk Ht.
    destruct (generateKPIs_triad rt d ds e k Hk Ht) as (c & i' & s & Hin & Hc).
    apply numericCandidates_in in Hin as (Hin & Hty & -> & Hs).
    exists c, i'. auto.
Qed.

Lemma scoreNumericCol_exclusion_witness :
  isIdLikeColumn "v" (Some (numeric_eda rt0 0 1 (repeat (VNum 5) 30))) 30 = false /\
  scoreNumericCol rt0 "v" (Some (numeric_eda rt0 0 1 (repeat (VNum 5) 30))) 30 = 1.
Proof.
  assert (H : isIdLikeColumn "v" (Some (numeric_eda rt0 0 1 (repeat (VNum 5) 30))) 30 = false)
    by (vm_compute; reflexivity).
  split; [exact H|].
  apply (proj1 (proj2 (scoreNumericCol_exclusion rt0 "v" (numeric_eda rt0 0 1 (repeat (VNum 5) 30)) 30))
           5 5 H); [vm_compute; lia|vm_compute; reflexivity|vm_compute; reflexivity|reflexivity].
Defined.

(** C8: a column of thirty 5s has max = min and still yields the
    total/average/range KPIs. *)
Lemma constant_column_kpi_counterexample :
  option_map (fun i => (ce_min i, ce_max i)) (lookup "v" (columns (runEDA rt0 const_rows)))
    = Some (Some 5, Some 5) /\
  map k_label (generateKPIs rt0 const_rows (Some (runEDA rt0 const_rows)))
    = ["Rows"; "Duplicates"; "Missing rate"; "Total v"; "Average v"; "v range"]%string.
Proof. split; vm_compute; reflexivity. Qed.

(** C9: [answerQuestion] always returns a non-empty sentence; when the
    profile has no date column, a time question (in particular
    ["time trend"]) gets the fixed no-date sentence. *)
Theorem answerQuestion_never_fails rt q meta eda kpis insights :
  answerQuestion rt q meta eda kpis insights <> EmptyString /\
  (existsb (fun p => ColType_eqb (ce_type (snd p)) TDate) (columns eda) = false ->
   answerQuestion rt "time trend" meta eda kpis insights = no_date_sentence) /\
  (existsb (fun p => ColType_eqb (ce_type (snd p)) TDate) (columns eda) = false ->
   (isSummary (lower (trim q)) || isWhatStandsOut (lower (trim q)) || isMainMetric (lower (trim q))
    || isOutliers (lower (trim q)) || isSkew (lower (trim q)) || isExplain (lower (trim q))
    || isDistribution (lower (trim q)) || isTop (lower (trim q)))%bool = false ->
   isTime (lower (trim q)) = true ->
   answerQuestion rt q meta eda kpis insights = no_date_sentence).
Proof.
  split; [apply answerQuestion_nonempty|split].
  - intros Hd. apply answer_time_no_date; [exact Hd|vm_compute; reflexivity|vm_compute; reflexivity].
  - apply answer_time_no_date.
Qed.

Lemma answerQuestion_never_fails_witness :
  existsb (fun p => ColType_eqb (ce_type (snd p)) TDate) (columns (runEDA rt0 box_rows)) = false /\
  answerQuestion rt0 "time trend" {| meta_rows := VNum 16; meta_columns := VNum 1 |}
                 (runEDA rt0 box_rows) [] [] = no_date_sentence.
Proof.
  assert (H : existsb (fun p => ColType_eqb (ce_type (snd p)) TDate) (columns (runEDA rt0 box_rows)) = false)
    by (vm_compute; reflexivity).
  split; [exact H|].
  apply (proj1 (proj2 (answerQuestion_never_fails rt0 "time trend" {| meta_rows := VNum 16; meta_columns := VNum 1 |}
                 (runEDA rt0 box_rows) [] []))), H.
Defined.

(** C1 (corrected): in every box chart of [generateCharts], [iqr = q3 - q1],
    every listed outlier lies strictly outside the fences
    [q1 - 1.5 iqr] and [q3 + 1.5 iqr], [q1 <= median <= q3], and the
    whisker ends satisfy [min <= median <= max]. *)
Theorem box_chart_fences rt data eda b :
  In (CBox b) (generateCharts rt data eda) ->
  b_iqr b = b_q3 b - b_q1 b /\
  (forall x, In x (b_outliers b) ->
     x < b_q1 b - (3 # 2) * b_iqr b \/ b_q3 b + (3 # 2) * b_iqr b < x) /\
  b_q1 b <= b_median b <= b_q3 b /\
  b_min b <= b_median b <= b_max b.
Proof.
  intros H. apply generateCharts_box in H
    as (col & bx & Hbx & _ & Emin & Eq1 & Emed & Eq3 & Emax & Eiqr & Eout & _).
  destruct (computeBox_order _ _ Hbx) as (HQ & HW & Hiqr & Hout).
  rewrite Emin, Eq1, Emed, Eq3, Emax, Eiqr, Eout.
  split; [exact Hiqr|]. split; [|split; assumption].
  intros x Hx. apply Hout. unfold slice0 in Hx. apply in_firstn in Hx. exact Hx.
Qed.

Lemma box_chart_fences_witness :
  exists b, In (CBox b) (generateCharts rt0 box_rows (runEDA rt0 box_rows)) /\
            b_q1 b <= b_median b <= b_q3 b.
Proof.
  destruct (first_box (generateCharts rt0 box_rows (runEDA rt0 box_rows))) as [b|] eqn:E;
    [|vm_compute in E; discriminate].
  exists b. assert (Hin := first_box_in _ _ E). split; [exact Hin|].
  apply (box_chart_fences rt0 box_rows (runEDA rt0 box_rows) b Hin).
Defined.

(** C1: four 0s and twelve 100s give a box chart whose lower whisker end
    (100, the smallest in-fence value) is above q1 (75). *)
Lemma box_whisker_above_q1_counterexample :
  exists b, In (CBox b) (generateCharts rt0 box_rows (runEDA rt0 box_rows)) /\
            b_q1 b == 75 /\ b_min b == 100 /\ b_q1 b < b_min b.
Proof.
  destruct (first_box (generateCharts rt0 box_rows (runEDA rt0 box_rows))) as [b|] eqn:E;
    [|vm_compute in E; discriminate].
  exists b. split; [apply first_box_in, E|].
  vm_compute in E. injection E as <-. vm_compute. repeat split; reflexivity.
Qed.

(** C2 (corrected): in every histogram chart of [generateCharts] the counts
    sum to [total], which is the number of the column's values parsed as
    numbers; when [runEDA] profiles that column as numeric, [total] is its
    [nonMissingCount]. *)
Theorem histogram_counts_total rt data eda h :
  In (CHistogram h) (generateCharts rt data eda) ->
  sum_nat (h_counts h) = h_total h /\
  h_total h = length (parsed_numbers rt data (h_column h)) /\
  (eda = runEDA rt data -> forall i, lookup (h_column h) (columns eda) = Some i ->
     ce_type i = TNumeric -> h_total h = ce_nonMissingCount i).
Proof.
  intros H. apply generateCharts_hist in H as [Hb E].
  assert (Hpos : (0 < h_bins h)%nat) by (rewrite Hb; apply chooseBins_pos).
  destruct (computeHistogram_sum _ _ _ _ _ _ _ Hpos E) as [Hs Ht].
  split; [exact Hs|]. split; [exact Ht|].
  intros -> i Hi Hty. rewrite Ht. symmetry. apply runEDA_numeric_count; assumption.
Qed.

Lemma histogram_counts_total_witness :
  exists h, In (CHistogram h) (generateCharts rt0 box_rows (runEDA rt0 box_rows)) /\
            sum_nat (h_counts h) = h_total h.
Proof.
  destruct (first_hist (generateCharts rt0 box_rows (runEDA rt0 box_rows))) as [h|] eqn:E;
    [|vm_compute in E; discriminate].
  exists h. assert (Hin := first_hist_in _ _ E). split; [exact Hin|].
  apply (histogram_counts_total rt0 box_rows (runEDA rt0 box_rows) h Hin).
Defined.

(** C2: 250 numbers and 250 texts in column [v] (the numeric-like fallback
    samples only the numbers): [runEDA] profiles [v] as categorical with 500
    non-missing values, while its histogram has total 250. *)
Lemma histogram_total_vs_profile_counterexample :
  exists h, In (CHistogram h) (generateCharts rt0 mixed_rows (runEDA rt0 mixed_rows)) /\
    h_column h = "v"%string /\ h_total h = 250%nat /\ sum_nat (h_counts h) = 250%nat /\
    option_map (fun i => (ce_type i, ce_nonMissingCount i))
               (lookup "v" (columns (runEDA rt0 mixed_rows))) = Some (TCategorical, 500%nat).
Proof.
  destruct (first_hist (generateCharts rt0 mixed_rows (runEDA rt0 mixed_rows))) as [h|] eqn:E;
    [|vm_compute in E; discriminate].
  exists h. split; [apply first_hist_in, E|].
  vm_compute in E. injection E as <-. vm_compute. repeat split; reflexivity.
Qed.

(** C10: every box chart of [generateCharts] lists at most 200 outliers,
    namely the first 200 out-of-fence values of its own column [b_column b]
    (the parsed numbers of that column) in ascending
    order; so with 202 outliers the largest one (101) is left out. *)
Theorem box_outliers_first_200 :
  (forall rt data eda b,
     In (CBox b) (generateCharts rt data eda) ->
     (length (b_outliers b) <= 200)%nat /\
     b_outliers b =
     firstn 200 (filter (fun v => qltb v (b_q1 b - (3 # 2) * b_iqr b)
                                  || qltb (b_q3 b + (3 # 2) * b_iqr b) v)%bool
                        (sort_num (parsed_numbers rt data (b_column b))))) /\
  (exists b, In (CBox b) (generateCharts rt0 many_outlier_rows (runEDA rt0 many_outlier_rows)) /\
     length (b_outliers b) = 200%nat /\
     In 101 (parsed_numbers rt0 many_outlier_rows "v") /\
     b_q3 b + (3 # 2) * b_iqr b < 101 /\
     existsb (Qeq_bool 101) (b_outliers b) = false).
Proof.
  split.
  - intros rt data eda b H. apply generateCharts_box in H
      as (col & bx & Hbx & Ecol & _ & Eq1 & _ & Eq3 & _ & Eiqr & Eout & _).
    apply computeBox_spec in Hbx. cbv zeta in Hbx.
    destruct Hbx as (_ & _ & _ & _ & _ & Hout & _).
    rewrite Eout. unfold slice0. split; [apply firstn_le_length|].
    rewrite Ecol, Eq1, Eq3, Eiqr, Hout. reflexivity.
  - destruct (first_box (generateCharts rt0 many_outlier_rows (runEDA rt0 many_outlier_rows)))
      as [b|] eqn:E; [|vm_compute in E; discriminate].
    exists b. split; [apply first_box_in, E|].
    vm_compute in E. injection E as <-.
    split; [vm_compute; reflexivity|].
    split; [apply in_filter_map; exists [("v"%string, VNum (inject_Z 101))]; split;
            [unfold many_outlier_rows, one_col; apply in_map_iff; exists 101%Z; split;
             [reflexivity|apply in_or_app; right; apply in_or_app; right;
              apply in_map_iff; exists 101%nat; split; [reflexivity|apply in_seq; lia]]
            |reflexivity]|].
    split; vm_compute; reflexivity.
Qed.

Lemma box_outliers_first_200_witness :
  exists b, In (CBox b) (generateCharts rt0 box_rows (runEDA rt0 box_rows)) /\
            (length (b_outliers b) <= 200)%nat.
Proof.
  destruct (first_box (generateCharts rt0 box_rows (runEDA rt0 box_rows))) as [b|] eqn:E;
    [|vm_compute in E; discriminate].
  exists b. assert (Hin := first_box_in _ _ E). split; [exact Hin|].
  apply (proj1 (proj1 box_outliers_first_200 rt0 box_rows (runEDA rt0 box_rows) b Hin)).
Defined.

(** C5 (negative mean). The column [v] of [neg_mean_rows] (ten values -20,
    ten values 15) is numeric with mean -2.5, yet [generateInsights] emits
    the outlier warning [outlier-v] for it: the rule only skips a zero mean,
    and [max / Math.max(1e-9, mean)] is then [15 / 1e-9].  The runtime [rt0]
    parses no string as a date, as V8's [Date.parse] does for "-20" and "15"
    (read as month 20 and month 15), so the column is not typed as a date. *)
Lemma negative_mean_outlier_counterexample :
  let eda := runEDA rt0 neg_mean_rows in
  match lookup "v"%string (columns eda) with
  | Some info => (ColType_eqb (ce_type info) TNumeric
                  && match ce_mean info with Some mn => qltb mn 0 | None => false end)%bool
  | None => false
  end = true /\
  existsb (fun i => String.eqb (i_id i) "outlier-v")
    (generateInsights rt0 eda (generateKPIs rt0 neg_mean_rows (Some eda))) = true.
Proof. vm_compute. split; reflexivity. Qed.

(** C6. Every correlation-matrix chart emitted by [generateCharts] has a
    symmetric matrix; when [Math.sqrt] is exact on squares, its diagonal
    entry [i] is 1 whenever the series [pearson] receives for column [i]
    (its values on the rows where every selected column parses) holds two
    distinct values. *)
Theorem corr_matrix_symmetric rt data eda cs :
  In (CCorr cs) (generateCharts rt data eda) ->
  (forall i j, (i < length (corr_columns cs))%nat -> (j < length (corr_columns cs))%nat ->
     nth j (nth i (corr_matrix cs) []) 0 = nth i (nth j (corr_matrix cs) []) 0) /\
  ((forall q, 0 <= q -> rt_sqrt rt (q * q) == q) ->
   forall i, (i < length (corr_columns cs))%nat ->
   (exists a b, In a (corr_series (corr_complete rt data (corr_columns cs)) i) /\
                In b (corr_series (corr_complete rt data (corr_columns cs)) i) /\ ~ a == b) ->
   nth i (nth i (corr_matrix cs) []) 0 == 1).
Proof.
  intros Hin.
  destruct (generateCharts_sub rt data eda _ Hin) as (c & Hc & Hspec).
  destruct (chart_candidates_corr rt data eda c cs Hc Hspec) as (n & Hb).
  assert (He := buildCorrMatrix_entries rt data (corr_columns cs) (corr_matrix cs) n Hb).
  split.
  - intros i j Hi Hj.
    rewrite (proj2 (He i j Hi Hj)), (proj2 (He j i Hj Hi)), pearson_sym. reflexivity.
  - intros Hsq i Hi Hd.
    destruct (He i i Hi Hi) as [H40 ->].
    assert (Hl : (8 <= length (corr_series (corr_complete rt data (corr_columns cs)) i))%nat)
      by (unfold corr_series; rewrite length_map; lia).
    destruct (pearson_diag rt _ Hsq Hl Hd) as (r & -> & Hr). exact Hr.
Qed.

Lemma corr_matrix_symmetric_witness :
  exists cs, In (CCorr cs) (generateCharts rt0 corr_rows (runEDA rt0 corr_rows)) /\
    nth 1 (nth 1 (corr_matrix cs) []) 0 == 1 /\
    nth 2 (nth 1 (corr_matrix cs) []) 0 = nth 1 (nth 2 (corr_matrix cs) []) 0.
Proof.
  destruct (first_corr (generateCharts rt0 corr_rows (runEDA rt0 corr_rows))) as [cs|] eqn:E;
    [|vm_compute in E; discriminate].
  assert (Hin := first_corr_in _ _ E).
  exists cs. split; [exact Hin|].
  destruct (corr_matrix_symmetric rt0 corr_rows (runEDA rt0 corr_rows) cs Hin) as [Hs Hd].
  vm_compute in E. injection E as <-.
  split.
  - apply (Hd sqrt_floor_square 1%nat).
    + apply Nat.ltb_lt. vm_compute. reflexivity.
    + eexists _, _. split; [vm_compute; left; reflexivity|].
      split; [vm_compute; right; left; reflexivity|].
      intro H. vm_compute in H. discriminate.
  - apply Hs; apply Nat.ltb_lt; vm_compute; reflexivity.
Defined.

(** C6 (diagonal). In the correlation chart of [corr_rows], column [a] holds
    the two distinct values 1 and 2, yet the diagonal entry for [a] is 0:
    the row with [a = 2] lacks [b], so the series [pearson] receives for [a]
    is constant and [pearson] returns null. *)
Lemma corr_diagonal_zero_counterexample :
  match first_corr (generateCharts rt0 corr_rows (runEDA rt0 corr_rows)) with
  | Some cs => (String.eqb (nth 0 (corr_columns cs) ""%string) "a"%string
                && qeqb (nth 0 (nth 0 (corr_matrix cs) []) 0) 0)%bool
  | None => false
  end = true /\
  (existsb (qeqb 1) (parsed_numbers rt0 corr_rows "a"%string)
   && existsb (qeqb 2) (parsed_numbers rt0 corr_rows "a"%string))%bool = true.
Proof. vm_compute. split; reflexivity. Qed.

(* ================================================================== *)
(** * Further properties of the code *)

(** [computeHistogram] returns null exactly on an empty input; otherwise
    its [min] and [max] are values of the input that bound all of it, it
    has one count per bin and [bins + 1] edges starting at [min], and the
    counts add up to [total], the number of values. *)
Theorem computeHistogram_shape values bins :
  (values = [] -> computeHistogram values bins = None) /\
  (values <> [] -> (0 < bins)%nat ->
   exists mn mx edges counts,
     computeHistogram values bins = Some (mn, mx, edges, counts, length values) /\
     In mn values /\ In mx values /\ (forall v, In v values -> mn <= v <= mx) /\
     length counts = bins /\ length edges = S bins /\ nth 0 edges 0 == mn /\
     sum_nat counts = length values).
Proof.
  split; [intros ->; reflexivity|].
  intros Hne Hb.
  destruct (sort_num_ends_in values Hne) as [Hmin Hmax].
  assert (Hl := length_sort_num values).
  unfold computeHistogram. cbv zeta.
  rewrite (match_nonnil (sort_num values)) by (intros E; rewrite E in Hl; destruct values; simpl in Hl; congruence).
  set (mn := nth 0 (sort_num values) 0) in *.
  set (mx := nth (length (sort_num values) - 1) (sort_num values) 0) in *.
  set (span := if qeqb (mx - mn) 0 then 1 else mx - mn) in *.
  set (counts := fold_left (fun cs v => incr_at (bin_index mn span bins v) cs)
                   (sort_num values) (repeat 0%nat bins)) in *.
  assert (Hsome : computeHistogram values bins =
                  Some (mn, mx, map (fun i => mn + span * qnat i / qnat bins) (seq 0 (S bins)),
                        counts, length values)).
  { unfold computeHistogram. cbv zeta.
    rewrite (match_nonnil (sort_num values)) by (intros E; rewrite E in Hl; destruct values; simpl in Hl; congruence).
    rewrite <- Hl. reflexivity. }
  exists mn, mx, (map (fun i => mn + span * qnat i / qnat bins) (seq 0 (S bins))), counts.
  rewrite Hl. split; [reflexivity|].
  unfold mx. rewrite Hl.
  split; [exact Hmin|]. split; [exact Hmax|].
  split; [intros v Hv; apply sort_num_bounds, Hv|].
  split; [unfold counts; rewrite length_fold_incr; apply repeat_length|].
  split; [rewrite length_map, length_seq; reflexivity|].
  split.
  - simpl. change (qnat 0) with 0. rewrite Qmult_0_r. unfold Qdiv. rewrite Qmult_0_l. ring.
  - destruct (computeHistogram_sum values bins _ _ _ _ _ Hb Hsome) as [Hs _]. exact Hs.
Qed.

(** [computeBox] returns null below 12 values. Otherwise [total] is the
    number of values; the whisker ends [min] and [max] are values of the
    input lying inside the fences [q1 - 1.5*iqr] and [q3 + 1.5*iqr]; and
    the outliers are, in ascending order, exactly the values outside the
    fences (with their multiplicities). *)
Theorem computeBox_shape values :
  ((length values < 12)%nat -> computeBox values = None) /\
  (forall bx, computeBox values = Some bx ->
     let low := b_q1 bx - (3 # 2) * b_iqr bx in
     let high := b_q3 bx + (3 # 2) * b_iqr bx in
     b_total bx = length values /\
     In (b_min bx) values /\ In (b_max bx) values /\ low <= b_min bx /\ b_max bx <= high /\
     Sorted Qle (b_outliers bx) /\
     Permutation (b_outliers bx) (filter (fun v => qltb v low || qltb high v)%bool values)).
Proof.
  split; [apply computeBox_short|].
  intros bx H. cbv zeta.
  destruct (computeBox_whiskers values bx H) as (W1 & W2 & W3 & W4).
  assert (Ht := computeBox_total values bx H).
  apply computeBox_spec in H. cbv zeta in H.
  destruct H as (_ & _ & _ & _ & _ & Hout & _ & _).
  split; [exact Ht|]. split; [exact W1|]. split; [exact W2|]. split; [exact W3|]. split; [exact W4|].
  rewrite Hout. split.
  - apply StronglySorted_Sorted, SS_filter, sort_num_strongly.
  - apply Permutation_filter_l, sort_by_perm.
Qed.

(** [quantileSorted] over the sorted values returns null exactly on an empty
    input, and for [0 <= q <= 1] its result lies between the smallest and
    the largest value. *)
Theorem quantileSorted_range l q :
  (quantileSorted (sort_num l) q = None <-> l = []) /\
  (0 <= q <= 1 -> forall v, quantileSorted (sort_num l) q = Some v ->
     exists a b, In a l /\ In b l /\ a <= v <= b /\ forall x, In x l -> a <= x <= b).
Proof.
  split; [apply quantileSorted_none|].
  intros Hq v Hv.
  assert (Hne : l <> []) by (intros ->; discriminate).
  destruct (sort_num_ends_in l Hne) as [Ha Hb].
  exists (nth 0 (sort_num l) 0), (nth (length l - 1) (sort_num l) 0).
  split; [exact Ha|]. split; [exact Hb|].
  split; [apply (quantileSorted_some l q v Hq Hv)|].
  intros x Hx. apply sort_num_bounds, Hx.
Qed.

(** [capTopValuesWithOther] returns at most [maxBars + 1] bars, and their
    counts add up to the larger of [nonMissingCount] and the counts of the
    shown top values: the [Other] bar makes up the difference when there
    is one. *)
Theorem capTopValuesWithOther_total i maxBars :
  let tops := match ce_topValues i with Some l => l | None => [] end in
  (length (capTopValuesWithOther i maxBars) <= maxBars + 1)%nat /\
  sum_nat (map snd (capTopValuesWithOther i maxBars)) =
  Nat.max (ce_nonMissingCount i) (sum_nat (map tv_count (slice0 maxBars tops))).
Proof.
  cbv zeta. unfold capTopValuesWithOther. cbv zeta.
  set (tops := match ce_topValues i with Some l => l | None => [] end).
  assert (Hs : map snd (map (fun t => (tv_value t, tv_count t)) (slice0 maxBars tops))
               = map tv_count (slice0 maxBars tops)) by (rewrite map_map; reflexivity).
  assert (Hl : (length (map (fun t => (tv_value t, tv_count t)) (slice0 maxBars tops)) <= maxBars)%nat)
    by (rewrite length_map; apply firstn_le_length).
  rewrite Hs.
  destruct (Nat.ltb_spec 0 (ce_nonMissingCount i - sum_nat (map tv_count (slice0 maxBars tops)))).
  - rewrite length_app, map_app, sum_nat_app, Hs. simpl. split; [lia|].
    unfold sum_nat at 2. simpl. lia.
  - rewrite Hs. split; lia.
Qed.

(** [buildTimeSeries] returns null below 20 rows with both a date and a
    number; when it returns points there are at least 8, their keys are
    distinct, and their values add up to the sum of the numbers over those
    rows (aggregation neither drops nor double-counts a row). *)
Theorem buildTimeSeries_total rt data dateCol numCol :
  let pairs := filter_map (fun r => match safeToDateLoose rt (get r dateCol),
                                          safeToNumberLoose rt (get r numCol) with
                                    | Some d, Some y => Some (d, y)
                                    | _, _ => None
                                    end) data in
  ((length pairs < 20)%nat -> buildTimeSeries rt data dateCol numCol = None) /\
  (forall points g, buildTimeSeries rt data dateCol numCol = Some (points, g) ->
     (8 <= length points)%nat /\ NoDup (map fst points) /\
     sumQ (map snd points) == sumQ (map snd pairs)).
Proof.
  cbv zeta. unfold buildTimeSeries. cbv zeta.
  set (pairs := filter_map _ data).
  split; [intros Hp; destruct (Nat.ltb_spec (length pairs) 20); [reflexivity|lia]|].
  intros points g.
  destruct (Nat.ltb (length pairs) 20); [discriminate|].
  set (sorted := sort_by (fun x e : Z * Q => Z.ltb (fst x) (fst e)) pairs).
  match goal with |- context [fold_left (fun m p => agg_add (?kf (fst p)) (snd p) m) sorted []] =>
    set (kf0 := kf); destruct (fold_agg_add kf0 sorted [] (NoDup_nil _)) as [Hnd Hsum] end.
  set (agg := fold_left (fun m p => agg_add (kf0 (fst p)) (snd p) m) sorted []) in *.
  set (pts := sort_by (fun x e : string * Q => Z.ltb (rt_locale_compare rt (fst x) (fst e)) 0) agg).
  destruct (Nat.ltb_spec (length pts) 8) as [H8|H8]; [discriminate|].
  intros Hb. injection Hb as <- _.
  assert (Hp : Permutation pts agg) by apply sort_by_perm.
  split; [assumption|]. split.
  - eapply Permutation_NoDup; [symmetry; apply Permutation_map, Hp|exact Hnd].
  - rewrite (sumQ_perm _ _ (Permutation_map snd Hp)), Hsum.
    rewrite (sumQ_perm (map snd sorted) (map snd pairs)) by (apply Permutation_map, sort_by_perm).
    unfold sumQ at 1. simpl. ring.
Qed.

(** [sampleRows] returns the data itself when it has at most [n] rows;
    otherwise it returns exactly [n] rows, each a row of the data. *)
Theorem sampleRows_size data n :
  ((length data <= n)%nat -> sampleRows data n = data) /\
  ((n < length data)%nat -> length (sampleRows data n) = n /\
                            forall r, In r (sampleRows data n) -> In r data).
Proof.
  unfold sampleRows. split.
  - intros H. destruct (Nat.leb_spec (length data) n); [reflexivity|lia].
  - intros H. destruct (Nat.leb_spec (length data) n); [lia|].
    set (L := length data) in *. set (step := Nat.max 1 (L / n)).
    split.
    + rewrite length_firstn, length_map.
      destruct n as [|n']; [lia|].
      assert (Hs : step = (L / S n')%nat).
      { unfold step. assert (1 <= L / S n')%nat by (apply Nat.div_le_lower_bound; lia). lia. }
      assert (Hm : (S n' * step <= L)%nat) by (rewrite Hs; apply Nat.Div0.mul_div_le).
      assert (S n' <= length (range_step L 0 L step))%nat.
      { apply range_step_length; [|lia]. intros k Hk. simpl.
        assert (1 <= step)%nat by (unfold step; lia). nia. }
      lia.
    + intros r Hr. apply in_firstn in Hr. apply in_map_iff in Hr as (i & <- & Hi).
      apply range_step_in in Hi. apply nth_In. exact Hi.
Qed.

(** [pearson] gives no coefficient for series of different lengths or of
    fewer than 8 values, and it is symmetric in its two series.  When the
    runtime's square root is exact on squares, a series with two distinct
    values of length at least 8 has coefficient 1 with itself, and a constant
    series has none. *)
Theorem pearson_props rt x y :
  ((length x <> length y \/ (length x < 8)%nat) -> pearson rt x y = None) /\
  pearson rt x y = pearson rt y x /\
  ((forall q, 0 <= q -> rt_sqrt rt (q * q) == q) ->
   ((8 <= length x)%nat -> (exists a b, In a x /\ In b x /\ ~ a == b) ->
    exists r, pearson rt x x = Some r /\ r == 1) /\
   ((forall a b, In a x -> In b x -> a == b) -> pearson rt x x = None)).
Proof.
  split; [|split].
  - intros H. unfold pearson.
    destruct H as [H|H].
    + apply Nat.eqb_neq in H. rewrite H. reflexivity.
    + apply Nat.ltb_lt in H. rewrite H, orb_true_r. reflexivity.
  - apply pearson_sym.
  - intros Hsq. split.
    + apply pearson_diag, Hsq.
    + apply pearson_const, Hsq.
Qed.

Lemma pearson_props_witness :
  exists r, pearson rt0 [1; 2; 3; 4; 5; 6; 7; 8] [1; 2; 3; 4; 5; 6; 7; 8] = Some r /\ r == 1.
Proof.
  apply (proj1 (proj2 (proj2 (pearson_props rt0 [1; 2; 3; 4; 5; 6; 7; 8] [1; 2; 3; 4; 5; 6; 7; 8]))
                 sqrt_floor_square)).
  - simpl. lia.
  - exists 1, 2. split; [simpl; auto|]. split; [simpl; auto|]. vm_compute. discriminate.
Defined.

(** [buildScatter] needs at least 30 rows where both columns parse; then it
    reports that count as [n], correlates exactly those pairs, and plots
    [min n 1200] points, each one of the parsed pairs. *)
Theorem buildScatter_points rt data xCol yCol :
  let pairs := filter_map (fun r => match safeToNumberLoose rt (get r xCol),
                                          safeToNumberLoose rt (get r yCol) with
                                    | Some x, Some y => Some (x, y)
                                    | _, _ => None
                                    end) data in
  ((length pairs < 30)%nat -> buildScatter rt data xCol yCol = None) /\
  (forall points r n sx sy, buildScatter rt data xCol yCol = Some (points, r, n, sx, sy) ->
     n = length pairs /\ (30 <= n)%nat /\ length points = Nat.min n 1200 /\
     r = pearson rt (map fst pairs) (map snd pairs) /\
     forall p, In p points -> In p pairs).
Proof.
  intros pairs. unfold buildScatter. cbv zeta. fold pairs. rewrite length_map. split.
  - intros H. apply Nat.ltb_lt in H. rewrite H. reflexivity.
  - intros points r n sx sy H.
    destruct (Nat.ltb (length pairs) 30) eqn:E30; [discriminate|]. apply Nat.ltb_ge in E30.
    remember (seq 0 1200) as idx eqn:Eidx.
    destruct (Nat.ltb 1200 (length pairs)) eqn:E12; injection H as <- <- <- _ _.
    + apply Nat.ltb_lt in E12. subst idx.
      split; [reflexivity|]. split; [exact E30|]. split.
      { rewrite length_map, length_seq. lia. }
      split; [reflexivity|].
      intros p Hp. apply in_map_iff in Hp as (i & <- & Hi). apply in_seq in Hi.
      apply nth_pair_In.
      change (fst (Nat.divmod (i * length pairs) 1199 0 1199)) with (i * length pairs / 1200)%nat.
      apply Nat.Div0.div_lt_upper_bound. nia.
    + apply Nat.ltb_ge in E12.
      split; [reflexivity|]. split; [exact E30|]. split.
      { rewrite length_combine, !length_map. lia. }
      split; [reflexivity|].
      intros p Hp. rewrite combine_fst_snd in Hp. exact Hp.
Qed.

(** For distinct column names, [buildCorrMatrix] gives no matrix for no
    columns or fewer than 40 fully parsed rows; otherwise [n] is the number
    of those rows (the length of the first column's series), and the matrix
    is square, one row and one column per column name, symmetric, and entry
    [(i, j)] is the coefficient of the series of columns [i] and [j] (0 when
    there is none). *)
Theorem buildCorrMatrix_shape rt data cols :
  NoDup cols ->
  ((cols = [] \/ (length (corr_complete rt data cols) < 40)%nat) ->
   buildCorrMatrix rt data cols = None) /\
  (forall m n, buildCorrMatrix rt data cols = Some (m, n) ->
     n = length (corr_complete rt data cols) /\
     n = length (corr_series_named (corr_complete rt data cols) cols (nth 0 cols EmptyString)) /\
     (40 <= n)%nat /\
     length m = length cols /\ Forall (fun row => length row = length cols) m /\
     forall i j, (i < length cols)%nat -> (j < length cols)%nat ->
       nth j (nth i m []) 0 = nth i (nth j m []) 0 /\
       nth j (nth i m []) 0 =
       match pearson rt (corr_series_named (corr_complete rt data cols) cols (nth i cols EmptyString))
                        (corr_series_named (corr_complete rt data cols) cols (nth j cols EmptyString)) with
       | Some r => r | None => 0 end).
Proof.
  intros Hnd. split.
  - unfold buildCorrMatrix. cbv zeta. intros [->|H]; [reflexivity|].
    destruct cols as [|c cs]; [reflexivity|].
    apply Nat.ltb_lt in H. rewrite H. reflexivity.
  - intros m n H. pose proof (buildCorrMatrix_entries rt data cols m n H) as He.
    assert (Hent : forall i j, (i < length cols)%nat -> (j < length cols)%nat ->
                     nth j (nth i m []) 0 = nth i (nth j m []) 0 /\
                     nth j (nth i m []) 0 =
                     match pearson rt (corr_series_named (corr_complete rt data cols) cols (nth i cols EmptyString))
                                      (corr_series_named (corr_complete rt data cols) cols (nth j cols EmptyString)) with
                     | Some r => r | None => 0 end).
    { intros i j Hi Hj. rewrite !corr_series_named_nodup by assumption.
      rewrite (proj2 (He i j Hi Hj)), (proj2 (He j i Hj Hi)).
      split; [rewrite pearson_sym|]; reflexivity. }
    unfold buildCorrMatrix in H. cbv zeta in H.
    destruct cols as [|c cs]; [discriminate|].
    match type of H with (if Nat.ltb ?k 40 then _ else _) = _ =>
      destruct (Nat.ltb k 40) eqn:E; [discriminate|] end.
    apply Nat.ltb_ge in E. remember (seq 0 (length (c :: cs))) as idx eqn:Eidx.
    injection H as <- <-.
    split; [reflexivity|]. split.
    { change (nth 0 (c :: cs) EmptyString) with (nth 0%nat (c :: cs) EmptyString).
      rewrite corr_series_named_nodup by (assumption || (simpl; lia)).
      unfold corr_series. rewrite length_map. reflexivity. }
    split; [exact E|]. split.
    { rewrite length_map, Eidx, length_seq. reflexivity. }
    split; [|exact Hent].
    apply Forall_forall. intros row Hr. apply in_map_iff in Hr as (i & <- & _).
    rewrite length_map, Eidx, length_seq. reflexivity.
Qed.

Lemma buildCorrMatrix_shape_witness :
  NoDup ["a"; "c"]%string /\
  exists m n, buildCorrMatrix rt0 corr_rows ["a"; "c"]%string = Some (m, n) /\
              (40 <= n)%nat /\ length m = 2%nat.
Proof.
  assert (Hnd : NoDup ["a"; "c"]%string)
    by (constructor; [simpl; intros [H|H]; [discriminate H|exact H]|constructor; [intros []|constructor]]).
  split; [exact Hnd|].
  destruct (buildCorrMatrix rt0 corr_rows ["a"; "c"]%string) as [[m n]|] eqn:E;
    [|vm_compute in E; discriminate].
  exists m, n. split; [reflexivity|].
  destruct (proj2 (buildCorrMatrix_shape rt0 corr_rows _ Hnd) m n E) as (_ & _ & H40 & Hm & _).
  split; [exact H40|exact Hm].
Defined.

(** [detectNumericLikeColumns] returns only columns of [cols] that are not in
    [alreadyNumeric] and that have at least 15 non-missing sampled values, at
    least 85% of which parse as numbers; it returns no column twice when
    [cols] has none twice. *)
Theorem detectNumericLikeColumns_sound rt data cols already :
  (NoDup cols -> NoDup (detectNumericLikeColumns rt data cols already)) /\
  (forall c, In c (detectNumericLikeColumns rt data cols already) ->
     In c cols /\ mem_str c already = false /\
     let '(seen, ok, _) := scan_column rt (sampleRows data 250) c
                             (fun v => is_some (safeToNumberLoose rt v)) in
     (15 <= seen)%nat /\ 85 # 100 <= ratio ok (Nat.max 1 seen)).
Proof.
  unfold detectNumericLikeColumns. cbv zeta.
  match goal with |- context [sort_by ?b (filter_map ?f cols)] =>
    pose proof (detector_results_gen f b cols) as G end.
  destruct G as [G1 G2].
  { intros c y Hf. cbv beta in Hf. destruct (mem_str c already); [discriminate|].
    revert Hf. destruct (scan_column _ _ c _) as [[seen ok] uniq].
    destruct (Nat.ltb seen 15); [discriminate|].
    destruct (qleb _ _); [|discriminate]. intros Hf. injection Hf as <-. reflexivity. }
  split; [exact G1|].
  intros c Hc. apply G2 in Hc as [Hc [s Hf]]. split; [exact Hc|].
  cbv beta in Hf. destruct (mem_str c already); [discriminate|]. split; [reflexivity|].
  revert Hf. destruct (scan_column _ _ c _) as [[seen ok] uniq].
  destruct (Nat.ltb seen 15) eqn:El; [discriminate|]. apply Nat.ltb_ge in El.
  destruct (qleb _ _) eqn:Eq; [|discriminate]. intros _.
  split; [exact El|]. apply Qle_bool_iff, Eq.
Qed.

(** [detectDateLikeColumns] returns only columns of [cols] that are not in
    [alreadyDateCols] and that have at least 15 non-missing sampled values,
    at least 70% of which parse as dates; it returns no column twice when
    [cols] has none twice. *)
Theorem detectDateLikeColumns_sound rt data cols already :
  (NoDup cols -> NoDup (detectDateLikeColumns rt data cols already)) /\
  (forall c, In c (detectDateLikeColumns rt data cols already) ->
     In c cols /\ mem_str c already = false /\
     let '(seen, ok, _) := scan_column rt (sampleRows data 250) c
                             (fun v => is_some (safeToDateLoose rt v)) in
     (15 <= seen)%nat /\ 7 # 10 <= ratio ok (Nat.max 1 seen)).
Proof.
  unfold detectDateLikeColumns. cbv zeta.
  match goal with |- context [sort_by ?b (filter_map ?f cols)] =>
    pose proof (detector_results_gen f b cols) as G end.
  destruct G as [G1 G2].
  { intros c y Hf. cbv beta in Hf. destruct (mem_str c already); [discriminate|].
    revert Hf. destruct (scan_column _ _ c _) as [[seen ok] uniq].
    destruct (Nat.ltb seen 15); [discriminate|].
    destruct (qleb _ _); [|discriminate]. intros Hf. injection Hf as <-. reflexivity. }
  split; [exact G1|].
  intros c Hc. apply G2 in Hc as [Hc [s Hf]]. split; [exact Hc|].
  cbv beta in Hf. destruct (mem_str c already); [discriminate|]. split; [reflexivity|].
  revert Hf. destruct (scan_column _ _ c _) as [[seen ok] uniq].
  destruct (Nat.ltb seen 15) eqn:El; [discriminate|]. apply Nat.ltb_ge in El.
  destruct (qleb _ _) eqn:Eq; [|discriminate]. intros _.
  split; [exact El|]. apply Qle_bool_iff, Eq.
Qed.

(** [pickDiverse] returns at most [maxCharts] charts, each the spec of one of
    its candidates, and at least [minCharts] of them when there are that many
    candidates and [minCharts <= maxCharts]. *)
Theorem pickDiverse_bounds cands mn mx :
  (length (pickDiverse cands mn mx) <= mx)%nat /\
  (forall s, In s (pickDiverse cands mn mx) -> exists c, In c cands /\ c_spec c = s) /\
  ((mn <= mx)%nat -> (mn <= length cands)%nat -> (mn <= length (pickDiverse cands mn mx))%nat).
Proof.
  split; [apply length_pickDiverse|]. split.
  - apply pickDiverse_sub.
  - apply pickDiverse_min.
Qed.

(** [runEDA] profiles each key that occurs in some row, exactly once each;
    its empty and constant columns are among the profiled ones, and no column
    is both empty and constant. *)
Theorem runEDA_column_names rt data :
  let names := map fst (columns (runEDA rt data)) in
  NoDup names /\
  (forall c, In c names <-> exists r, In r data /\ In c (map fst r)) /\
  (forall c, In c (emptyColumns (runEDA rt data)) -> In c names) /\
  (forall c, In c (constantColumns (runEDA rt data)) -> In c names) /\
  (forall c, In c (emptyColumns (runEDA rt data)) -> ~ In c (constantColumns (runEDA rt data))).
Proof.
  intros names. unfold names. unfold runEDA.
  destruct data as [|d ds].
  { simpl. split; [constructor|]. split; [intros c; split; [intros []|intros (r & [] & _)]|].
    split; [intros c []|]. split; intros c []. }
  cbv zeta. cbn [columns emptyColumns constantColumns]. rewrite map_fst_pairs.
  unfold eda_columns, dedup_str. split; [apply dedup_str_acc_nodup|]. split.
  { intros c. rewrite dedup_str_acc_in, in_flat_map. simpl. tauto. }
  split; [intros c Hc; apply filter_In in Hc; apply Hc|].
  split; [intros c Hc; apply filter_In in Hc; apply Hc|].
  intros c He Hk. apply filter_In in He as [_ He]. apply filter_In in Hk as [_ Hk].
  apply Nat.eqb_eq in Hk. unfold uniques_of, column_values in Hk.
  assert (Hnil : filter (fun v => negb (isMissing v)) (map (fun r => get r c) (d :: ds)) = []).
  { revert He. generalize (d :: ds) as l. induction l as [|r rs IH]; simpl; [reflexivity|].
    intros H. apply andb_prop in H as [H1 H2]. rewrite H1. simpl. apply IH, H2. }
  rewrite Hnil in Hk. discriminate.
Qed.

(** [duplicates] is the number of rows whose fingerprint (over the profiled
    columns) repeats an earlier row's: with the distinct fingerprints it adds
    up to the number of rows, and it is 0 exactly when all fingerprints are
    distinct. *)
Theorem runEDA_duplicates rt data :
  let fps := map (fun r => fingerprintRow rt r (map fst (columns (runEDA rt data)))) data in
  (duplicates (runEDA rt data) + length (dedup_str fps))%nat = length data /\
  (duplicates (runEDA rt data) = 0%nat <-> NoDup fps).
Proof.
  intros fps. unfold fps. unfold runEDA.
  destruct data as [|d ds]; [simpl; split; [reflexivity|split; intros; [constructor|reflexivity]]|].
  cbv zeta. cbn [columns duplicates]. rewrite map_fst_pairs. split.
  - unfold dedup_str. rewrite count_repeats_length, length_map. reflexivity.
  - rewrite count_repeats_zero. split; [tauto|]. intros H. split; [exact H|]. intros x _ [].
Qed.

(** For every profiled column, [missing] counts the rows whose value is
    missing, [missing + nonMissingCount] never exceeds the number of rows
    (and equals it for categorical columns), and outside date columns
    [uniqueCount] is the number of distinct [String] forms of the non-missing
    values. *)
Theorem runEDA_column_counts rt data c info :
  lookup c (columns (runEDA rt data)) = Some info ->
  let values := column_values data c in
  let present := filter (fun v => negb (isMissing v)) values in
  ce_missing info = count_if isMissing values /\
  (ce_missing info + ce_nonMissingCount info <= length data)%nat /\
  (ce_type info = TCategorical -> (ce_missing info + ce_nonMissingCount info)%nat = length data) /\
  (ce_type info <> TDate -> ce_uniqueCount info = length (dedup_str (map (js_string rt) present))).
Proof.
  intros H. unfold runEDA in H. destruct data as [|d ds]; [discriminate|].
  cbv zeta in H. cbn [columns] in H. apply lookup_map_key in H. subst info. cbv zeta.
  assert (Hsplit := filter_length isMissing (column_values (d :: ds) c)).
  assert (Hcv : length (column_values (d :: ds) c) = length (d :: ds)) by apply length_map.
  rewrite Hcv in Hsplit. fold (count_if isMissing (column_values (d :: ds) c)) in Hsplit.
  assert (Hu : length (uniques_of rt (column_values (d :: ds) c)) =
               length (dedup_str (map (js_string rt)
                         (filter (fun v => negb (isMissing v)) (column_values (d :: ds) c)))))
    by (rewrite <- (length_map fst), uniques_of_keys; reflexivity).
  assert (Hnum : (length (sort_num (filter_map (safeToNumberLoose rt) (column_values (d :: ds) c)))
                  <= length (filter (fun v => negb (isMissing v)) (column_values (d :: ds) c)))%nat).
  { rewrite length_sort_num. apply filter_map_present_le.
    intros v Hv. unfold safeToNumberLoose. rewrite Hv. reflexivity. }
  assert (Hdate : (length (sort_by (fun x e => Z.ltb x e)
                             (filter_map (safeToDateLoose rt) (column_values (d :: ds) c)))
                   <= length (filter (fun v => negb (isMissing v)) (column_values (d :: ds) c)))%nat).
  { rewrite length_sort_by. apply filter_map_present_le.
    intros v Hv. unfold safeToDateLoose. rewrite Hv. reflexivity. }
  unfold column_eda. cbv zeta.
  destruct (decideType rt c (column_values (d :: ds) c));
    [| destruct (mem_str c _) | destruct (mem_str c _) |];
    cbn [categorical_eda numeric_eda date_eda ce_missing ce_nonMissingCount ce_type ce_uniqueCount];
    (split; [reflexivity|]); (split; [lia|]);
    (split; [intros Ht; (discriminate || lia)|]);
    intros Ht; (exact Hu || (exfalso; apply Ht; reflexivity)).
Qed.

Lemma runEDA_column_counts_witness :
  exists info, lookup "v" (columns (runEDA rt0 const_rows)) = Some info /\
    ce_missing info = count_if isMissing (column_values const_rows "v").
Proof.
  destruct (lookup "v" (columns (runEDA rt0 const_rows))) as [info|] eqn:E;
    [|vm_compute in E; discriminate].
  exists info. split; [reflexivity|].
  apply (proj1 (runEDA_column_counts rt0 const_rows "v" info E)).
Defined.

(** A column is constant exactly when it is profiled, has a non-missing
    value, and all its non-missing values have the same [String] form. *)
Theorem runEDA_constant_columns rt data c :
  In c (constantColumns (runEDA rt data)) <->
  In c (map fst (columns (runEDA rt data))) /\
  exists s, filter (fun v => negb (isMissing v)) (column_values data c) <> [] /\
            forall v, In v (filter (fun v => negb (isMissing v)) (column_values data c)) ->
                      js_string rt v = s.
Proof.
  unfold runEDA. destruct data as [|d ds].
  { simpl. split; [intros []|intros [[] _]]. }
  cbv zeta. cbn [columns constantColumns]. rewrite map_fst_pairs, filter_In.
  rewrite Nat.eqb_eq, <- (length_map fst), uniques_of_keys, dedup_str_single.
  split; intros [Hc (s & Hne & Hs)]; split; try exact Hc; exists s; split.
  - intros E. apply Hne. rewrite E. reflexivity.
  - intros v Hv. apply Hs, in_map, Hv.
  - intros E. apply map_eq_nil in E. exact (Hne E).
  - intros x Hx. apply in_map_iff in Hx as (v & <- & Hv). apply Hs, Hv.
Qed.

(** The numeric profile of a column: [nonMissingCount] is the number of
    parsed numbers; with none, min, max, mean and median are all absent;
    otherwise min and max are the smallest and largest parsed numbers and
    the median and mean lie between them.  [stdev] is absent exactly below
    2 numbers, and [zeros + negatives] never exceeds [nonMissingCount]. *)
Theorem numeric_eda_profile rt missing u values :
  let e := numeric_eda rt missing u values in
  let parsed := filter_map (safeToNumberLoose rt) values in
  ce_nonMissingCount e = length parsed /\
  (ce_stdev e = None <-> (length parsed < 2)%nat) /\
  (parsed = [] -> ce_min e = None /\ ce_max e = None /\ ce_mean e = None /\ ce_median e = None) /\
  (parsed <> [] -> exists mn mx md av,
      ce_min e = Some mn /\ ce_max e = Some mx /\ ce_median e = Some md /\ ce_mean e = Some av /\
      In mn parsed /\ In mx parsed /\ (forall x, In x parsed -> mn <= x <= mx) /\
      mn <= md <= mx /\ mn <= av <= mx) /\
  (ce_zeros e + ce_negatives e <= ce_nonMissingCount e)%nat.
Proof.
  cbv zeta. unfold numeric_eda. cbv zeta.
  cbn [ce_nonMissingCount ce_stdev ce_min ce_max ce_mean ce_median ce_zeros ce_negatives].
  set (parsed := filter_map (safeToNumberLoose rt) values).
  assert (Hl := length_sort_num parsed).
  split; [exact Hl|]. split; [|split; [|split]].
  - clear -Hl. destruct (sort_num parsed) as [|a r] eqn:Es.
    + simpl in Hl. split; [intros _; lia|reflexivity].
    + unfold stdev_eda. destruct (Nat.ltb (length (a :: r)) 2) eqn:E.
      * apply Nat.ltb_lt in E. split; [intros _; lia|reflexivity].
      * apply Nat.ltb_ge in E. split; [discriminate|lia].
  - intros E. rewrite E. split; [reflexivity|]. split; [reflexivity|]. split; reflexivity.
  - intros Hne.
    assert (Hn : sort_num parsed <> []).
    { intros E. apply Hne, length_zero_iff_nil. rewrite <- Hl, E. reflexivity. }
    rewrite (match_nonnil (sort_num parsed) _ None Hn).
    destruct (median_some _ Hn) as [md Hmd]. rewrite Hmd.
    rewrite (hd_error_some _ 0 Hn), (last_opt_some _ 0 Hn).
    destruct (sort_num_ends_in parsed Hne) as [H0 H1].
    assert (Hb : forall x, In x parsed ->
                   nth 0 (sort_num parsed) 0 <= x <= nth (length (sort_num parsed) - 1) (sort_num parsed) 0)
      by (intros x Hx; rewrite Hl; apply sort_num_bounds, Hx).
    assert (Hb' : forall x, In x (sort_num parsed) ->
                   nth 0 (sort_num parsed) 0 <= x <= nth (length (sort_num parsed) - 1) (sort_num parsed) 0)
      by (intros x Hx; apply Hb, sort_num_in, Hx).
    do 4 eexists. split; [reflexivity|]. split; [reflexivity|]. split; [reflexivity|].
    split; [reflexivity|]. split; [exact H0|]. split; [rewrite Hl; exact H1|].
    split; [exact Hb|]. split.
    + apply (median_between _ _ _ _ Hb' Hmd).
    + apply mean_between; [exact Hn|exact Hb'].
  - rewrite Hl. apply count_if_excl. intros x Hx. unfold qeqb in Hx. apply Qeq_bool_iff in Hx.
    unfold qltb. apply negb_false_iff, Qle_bool_iff. lra.
Qed.

(** The top values of a profiled column: at most 8, distinct, by
    non-increasing count; each is the [String] form of a non-missing value of
    the column, and its count is the number of non-missing values with that
    form. *)
Theorem runEDA_topValues rt data c info tv :
  lookup c (columns (runEDA rt data)) = Some info -> ce_topValues info = Some tv ->
  let present := filter (fun v => negb (isMissing v)) (column_values data c) in
  (length tv <= 8)%nat /\ NoDup (map tv_value tv) /\
  Sorted (fun a b => (tv_count b <= tv_count a)%nat) tv /\
  forall t, In t tv ->
    (exists v, In v present /\ js_string rt v = tv_value t) /\
    tv_count t = count_if (fun v => String.eqb (tv_value t) (js_string rt v)) present.
Proof.
  intros H Ht. unfold runEDA in H. destruct data as [|d ds]; [discriminate|].
  cbv zeta in H. cbn [columns] in H. apply lookup_map_key in H. subst info.
  unfold column_eda in Ht. cbv zeta in Ht.
  destruct (decideType rt c (column_values (d :: ds) c));
    [| destruct (mem_str c _) | destruct (mem_str c _) |];
    cbn [categorical_eda numeric_eda date_eda ce_topValues] in Ht; try discriminate;
    injection Ht as <-; apply topValues_of_props.
Qed.

Lemma runEDA_topValues_witness :
  exists info tv, lookup "order_id" (columns (runEDA rt0 order_rows)) = Some info /\
    ce_topValues info = Some tv /\ (length tv <= 8)%nat.
Proof.
  destruct (lookup "order_id" (columns (runEDA rt0 order_rows))) as [info|] eqn:E;
    [|vm_compute in E; discriminate].
  destruct (ce_topValues info) as [tv|] eqn:Et;
    [|vm_compute in E; injection E as <-; vm_compute in Et; discriminate].
  exists info, tv. split; [reflexivity|]. split; [exact Et|].
  apply (proj1 (runEDA_topValues rt0 order_rows "order_id" info tv E Et)).
Defined.

(** [normalizeKey] keeps only lower-case letters and digits, normalising a
    normalised key changes nothing, and trimming the input first changes
    nothing. *)
Theorem normalizeKey_props s :
  str_forall is_lower_alnum (normalizeKey s) = true /\
  normalizeKey (normalizeKey s) = normalizeKey s /\
  normalizeKey (trim s) = normalizeKey s.
Proof.
  assert (Ha : str_forall is_lower_alnum (normalizeKey s) = true)
    by (unfold normalizeKey; apply str_forall_filter).
  split; [exact Ha|]. split; [|apply normalizeKey_trim].
  rewrite (normalizeKey_filter (normalizeKey s)). apply filter_lower_id, Ha.
Qed.

(** [resolveColumn] of insights.ts returns only a column of [columns] whose
    normalised key equals the (non-empty) normalised key of [raw]; it returns
    null exactly when that key is empty or no column has it. *)
Theorem resolveColumn_spec raw cols :
  (forall c, resolveColumn raw cols = Some c ->
     In c cols /\ normalizeKey c = normalizeKey raw /\ normalizeKey raw <> EmptyString) /\
  (resolveColumn raw cols = None <->
     normalizeKey raw = EmptyString \/ forall c, In c cols -> normalizeKey c <> normalizeKey raw).
Proof.
  unfold resolveColumn. cbv zeta.
  destruct (str_is_empty (normalizeKey raw)) eqn:E.
  - assert (Hk : normalizeKey raw = EmptyString)
      by (revert E; destruct (normalizeKey raw); intros E; [reflexivity|discriminate E]).
    split; [discriminate|]. split; [intros _; left; exact Hk|reflexivity].
  - assert (Hk : normalizeKey raw <> EmptyString) by (intros Hk; rewrite Hk in E; discriminate).
    split.
    + intros c Hc. apply find_some in Hc as [Hin Hc]. apply String.eqb_eq in Hc. auto.
    + split.
      * intros Hn. right. intros c Hin Hc. apply (find_none _ _ Hn) in Hin.
        rewrite Hc, String.eqb_refl in Hin. discriminate.
      * intros [Hc|Hall]; [contradiction|].
        destruct (find _ cols) as [c|] eqn:Ef; [|reflexivity].
        apply find_some in Ef as [Hin Hc]. apply String.eqb_eq in Hc. exfalso. exact (Hall c Hin Hc).
Qed.

(** [resolveColumn] of ask.ts returns only columns of [columns], returns null
    when the normalised key of [raw] is empty, and returns the column that
    [resolveColumn] of insights.ts finds whenever that one finds one. *)
Theorem ask_resolveColumn_spec raw cols :
  (forall c, ask_resolveColumn raw cols = Some c -> In c cols) /\
  (normalizeKey raw = EmptyString -> ask_resolveColumn raw cols = None) /\
  (forall c, resolveColumn raw cols = Some c -> ask_resolveColumn raw cols = Some c).
Proof.
  unfold ask_resolveColumn, resolveColumn. cbv zeta. rewrite normalizeKey_trim.
  destruct (str_is_empty (trim raw)) eqn:Et.
  - assert (Hk : normalizeKey raw = EmptyString).
    { rewrite <- normalizeKey_trim. revert Et. destruct (trim raw); intros Et; [reflexivity|discriminate Et]. }
    split; [discriminate|]. split; [reflexivity|].
    intros c. rewrite Hk. intros H. discriminate H.
  - destruct (str_is_empty (normalizeKey raw)) eqn:Ek.
    + split; [discriminate|]. split; [reflexivity|]. intros c H. discriminate H.
    + split.
      * intros c H. destruct (find _ cols) as [c'|] eqn:Ef.
        -- injection H as <-. apply find_some in Ef. apply Ef.
        -- apply find_some in H. apply H.
      * split; [intros Hk; rewrite Hk in Ek; discriminate|]. intros c H. rewrite H. reflexivity.
Qed.

(** [generateInsights] returns at most 6 insights, never two with the same
    id, warnings first, then positive insights, then informational ones. *)
Theorem generateInsights_shape rt eda kpis :
  (length (generateInsights rt eda kpis) <= 6)%nat /\
  NoDup (map i_id (generateInsights rt eda kpis)) /\
  Sorted (fun a b => (severity_weight (i_severity a) <= severity_weight (i_severity b))%nat)
         (generateInsights rt eda kpis).
Proof.
  unfold generateInsights, slice0. split; [apply firstn_le_length|]. split.
  - rewrite <- firstn_map. apply NoDup_firstn.
    apply (Permutation_NoDup (l := map i_id (insights_before_rank rt eda kpis))).
    + apply Permutation_map. symmetry. unfold sortBusiness. apply sort_by_perm.
    + apply insights_before_rank_nodup.
  - apply Sorted_firstn, sortBusiness_sorted.
Qed.

(** When the profile counts duplicate rows, the first insight is the
    [duplicates] warning. *)
Theorem generateInsights_duplicates_first rt eda kpis :
  (0 < duplicates eda)%nat ->
  exists i t, generateInsights rt eda kpis = i :: t /\
              i_id i = "duplicates"%string /\ i_severity i = SWarning.
Proof.
  intros H. destruct (insights_before_rank_dup rt eda kpis H) as (i & Hh & Hid & Hs).
  destruct (sortBusiness_hd _ i Hh) as [t Ht]; [rewrite Hs; reflexivity|].
  exists i, (firstn 5 t). split; [unfold generateInsights, slice0; rewrite Ht; reflexivity|].
  split; assumption.
Qed.

Lemma generateInsights_duplicates_first_witness :
  (0 < duplicates (runEDA rt0 const_rows))%nat /\
  exists i t, generateInsights rt0 (runEDA rt0 const_rows) [] = i :: t /\
              i_id i = "duplicates"%string /\ i_severity i = SWarning.
Proof.
  assert (H : (0 < duplicates (runEDA rt0 const_rows))%nat)
    by (apply Nat.ltb_lt; vm_compute; reflexivity).
  split; [exact H|]. apply (generateInsights_duplicates_first rt0 (runEDA rt0 const_rows) [] H).
Defined.

(** The dataset meta of DatasetContext agrees with [runEDA]: the column count
    is the number of profiled columns, and the missing-value count is the sum
    of the columns' [missing] counts. *)
Theorem dataset_meta_matches_runEDA rt data :
  computeColumnsCount data = length (columns (runEDA rt data)) /\
  computeMissingValues data = sum_nat (map (fun p => ce_missing (snd p)) (columns (runEDA rt data))).
Proof.
  unfold computeColumnsCount, computeMissingValues, dataset_keys, runEDA.
  destruct data as [|d ds]; [split; reflexivity|].
  cbv beta iota zeta. cbn [columns]. unfold eda_columns. rewrite length_map. split; [reflexivity|].
  rewrite fold_missing_acc, map_map. cbn [snd].
  rewrite (map_ext (fun x => ce_missing (column_eda rt (d :: ds) _ x))
                   (fun c => count_if (fun r => isMissing (get r c)) (d :: ds)))
    by (intros c; rewrite column_eda_missing; apply count_if_map).
  rewrite (count_if_swap (fun r k => isMissing (get r k))). reflexivity.
Qed.
